(** * Migr8: the migration engine

    A shallow embedding of the migration core of Migr8
    ([internal/models/migration.go], [pkg/database/connection.go] and the
    [migration] package with its [Migrator]) and the properties of its
    specification; then of what surrounds the core: the argument of
    [migrate down], [maskPassword], the defaults and the DSN of
    [pkg/config/config.go], [NewConnection], the calls on the ledger outside
    a transaction and [GenerateMigrationFiles], with further properties.

    Conventions of the embedding:
    - a Go [string] is a byte sequence: Rocq's [string] (a list of [ascii]);
    - a Go [int] that is only compared is a [Z];
    - a [map[string]T] is a [gmap string T]; ranging over it enumerates
      [map_to_list] (Go leaves the order unspecified);
    - a [time.Time] is the number of seconds since 0001-01-01 00:00:00 UTC,
      the instant of Go's zero [time.Time];
    - the database is a store with one open transaction at most: a
      transaction works on a copy that [Commit] installs and [Rollback]
      drops; module [implicit] runs the same code on a database that may
      commit on its own at a statement, as MySQL does at the statements
      that define data, and what a failed transaction leaves is stated
      there; the statements of the scripts are run by an interpreter
      [exec_stmt] the development is parametrised by, on the user's tables,
      which the ledger table is not part of; the ledger table is modelled
      concretely;
    - a call on the database may fail for reasons of the connection: the
      world carries the list of the coming failures. *)

From Stdlib Require Import ZArith Lia Ascii String List Sorted Permutation.
From stdpp Require Import base option list gmap strings sorting pretty.

Local Open Scope string_scope.
Local Open Scope list_scope.

(** ** Strings: the functions of Go's [strings] package the engine calls *)

Module GoStrings.

(** [strings.Split(s, sep)] for a one-byte separator: the substrings between
    the separators, [n+1] of them for [n] separators. *)
Fixpoint Split (s : string) (sep : ascii) : list string :=
  match s with
  | EmptyString => [EmptyString]
  | String c r =>
      if Ascii.eqb c sep then EmptyString :: Split r sep
      else match Split r sep with
           | [] => [String c EmptyString]
           | h :: t => String c h :: t
           end
  end.

(** [strings.HasPrefix]. *)
Definition HasPrefix (s pre : string) : bool := String.prefix pre s.

Definition byte_of (c : ascii) : N := N_of_ascii c.

(** The table [asciiSpace] of [strings.TrimSpace]: tab, newline, vertical
    tab, form feed, carriage return and space. *)
Definition asciiSpace (c : ascii) : bool :=
  let b := byte_of c in
  ((9 <=? b) && (b <=? 13) || (b =? 32))%N.

(** The code points of [unicode.IsSpace] outside ASCII, by their UTF-8
    encodings: U+0085, U+00A0 (two bytes), U+1680, U+2000..U+200A, U+2028,
    U+2029, U+202F, U+205F, U+3000 (three bytes). *)
Definition space2 (b0 b1 : N) : bool :=
  ((b0 =? 194) && ((b1 =? 133) || (b1 =? 160)))%N.

Definition space3 (b0 b1 b2 : N) : bool :=
  ((b0 =? 225) && (b1 =? 154) && (b2 =? 128)
   || (b0 =? 226) && (b1 =? 128)
        && ((128 <=? b2) && (b2 <=? 138) || (b2 =? 168) || (b2 =? 169) || (b2 =? 175))
   || (b0 =? 226) && (b1 =? 129) && (b2 =? 159)
   || (b0 =? 227) && (b1 =? 128) && (b2 =? 128))%N.

(** Width in bytes of the white-space rune a byte list starts with, [0] when
    it starts with none. *)
Definition spaceWidthFront (l : list ascii) : nat :=
  match l with
  | [] => 0
  | c0 :: r0 =>
      if asciiSpace c0 then 1
      else match r0 with
           | [] => 0
           | c1 :: r1 =>
               if space2 (byte_of c0) (byte_of c1) then 2
               else match r1 with
                    | [] => 0
                    | c2 :: _ =>
                        if space3 (byte_of c0) (byte_of c1) (byte_of c2) then 3 else 0
                    end
           end
  end.

(** The same for the rune a byte list ends with, on the reversed list. *)
Definition spaceWidthBack (l : list ascii) : nat :=
  match l with
  | [] => 0
  | c0 :: r0 =>
      if asciiSpace c0 then 1
      else match r0 with
           | [] => 0
           | c1 :: r1 =>
               if space2 (byte_of c1) (byte_of c0) then 2
               else match r1 with
                    | [] => 0
                    | c2 :: _ =>
                        if space3 (byte_of c2) (byte_of c1) (byte_of c0) then 3 else 0
                    end
           end
  end.

Fixpoint trimWith (width : list ascii -> nat) (fuel : nat) (l : list ascii) : list ascii :=
  match fuel with
  | O => l
  | S fuel' =>
      match width l with
      | O => l
      | w => trimWith width fuel' (drop w l)
      end
  end.

Definition TrimLeftSpace (l : list ascii) : list ascii :=
  trimWith spaceWidthFront (length l) l.

Definition TrimRightSpace (l : list ascii) : list ascii :=
  rev (trimWith spaceWidthBack (length l) (rev l)).

(** [strings.TrimSpace]: leading and trailing white space, as defined by
    Unicode, removed. *)
Definition TrimSpace (s : string) : string :=
  string_of_list_ascii (TrimRightSpace (TrimLeftSpace (list_ascii_of_string s))).

End GoStrings.

(** ** MD5 and the checksum

    [crypto/md5] of the Go library, as RFC 1321 has it, on 32-bit words with
    their wrap-around written out. *)

Module MD5.

Local Open Scope Z_scope.

Definition wrap32 (x : Z) : Z := x mod 2 ^ 32.
Definition add32 (x y : Z) : Z := wrap32 (x + y).
Definition not32 (x : Z) : Z := Z.lxor x (2 ^ 32 - 1).
Definition rotl32 (x s : Z) : Z :=
  Z.lor (wrap32 (Z.shiftl x s)) (Z.shiftr x (32 - s)).

Definition K : list Z :=
  [ 3614090360; 3905402710; 606105819; 3250441966;
    4118548399; 1200080426; 2821735955; 4249261313;
    1770035416; 2336552879; 4294925233; 2304563134;
    1804603682; 4254626195; 2792965006; 1236535329;
    4129170786; 3225465664; 643717713; 3921069994;
    3593408605; 38016083; 3634488961; 3889429448;
    568446438; 3275163606; 4107603335; 1163531501;
    2850285829; 4243563512; 1735328473; 2368359562;
    4294588738; 2272392833; 1839030562; 4259657740;
    2763975236; 1272893353; 4139469664; 3200236656;
    681279174; 3936430074; 3572445317; 76029189;
    3654602809; 3873151461; 530742520; 3299628645;
    4096336452; 1126891415; 2878612391; 4237533241;
    1700485571; 2399980690; 4293915773; 2240044497;
    1873313359; 4264355552; 2734768916; 1309151649;
    4149444226; 3174756917; 718787259; 3951481745 ].

Definition shifts : list Z :=
  [ 7; 12; 17; 22; 7; 12; 17; 22; 7; 12; 17; 22; 7; 12; 17; 22;
    5; 9; 14; 20; 5; 9; 14; 20; 5; 9; 14; 20; 5; 9; 14; 20;
    4; 11; 16; 23; 4; 11; 16; 23; 4; 11; 16; 23; 4; 11; 16; 23;
    6; 10; 15; 21; 6; 10; 15; 21; 6; 10; 15; 21; 6; 10; 15; 21 ].

(** The digest state: the four chaining words. *)
Record state := State { sa : Z; sb : Z; sc : Z; sd : Z }.

Definition init : state :=
  State 1732584193 4023233417 2562383102 271733878.

(** A 32-bit word as its four bytes, least significant first, and back. *)
Definition le_bytes (w : Z) : list Z :=
  [ w mod 256; (w / 2 ^ 8) mod 256; (w / 2 ^ 16) mod 256; (w / 2 ^ 24) mod 256 ].

Fixpoint le_words (bytes : list Z) : list Z :=
  match bytes with
  | b0 :: b1 :: b2 :: b3 :: r =>
      (b0 + b1 * 2 ^ 8 + b2 * 2 ^ 16 + b3 * 2 ^ 24) :: le_words r
  | _ => []
  end.

(** Padding: the byte 0x80, zeros up to 56 modulo 64, then the length in
    bits on 64 bits, least significant byte first. *)
Definition pad (msg : list Z) : list Z :=
  let len := Z.of_nat (length msg) in
  let bits := (8 * len) mod 2 ^ 64 in
  msg ++ [128] ++ repeat 0 (Z.to_nat ((55 - len) mod 64))
      ++ le_bytes (bits mod 2 ^ 32) ++ le_bytes (bits / 2 ^ 32).

Definition step (M : list Z) (st : state) (i : nat) : state :=
  let '(State a b c d) := st in
  let iz := Z.of_nat i in
  let '(f, g) :=
    if iz <? 16 then (Z.lor (Z.land b c) (Z.land (not32 b) d), iz)
    else if iz <? 32 then (Z.lor (Z.land d b) (Z.land (not32 d) c), (5 * iz + 1) mod 16)
    else if iz <? 48 then (Z.lxor (Z.lxor b c) d, (3 * iz + 5) mod 16)
    else (Z.lxor c (Z.lor b (not32 d)), (7 * iz) mod 16) in
  let f' := add32 (add32 (add32 f a) (nth i K 0)) (nth (Z.to_nat g) M 0) in
  State d (add32 b (rotl32 f' (nth i shifts 0))) b c.

Definition block (st : state) (bytes : list Z) : state :=
  let st' := fold_left (step (le_words bytes)) (seq 0 64) st in
  State (add32 (sa st) (sa st')) (add32 (sb st) (sb st'))
        (add32 (sc st) (sc st')) (add32 (sd st) (sd st')).

Fixpoint blocks (n : nat) (st : state) (bytes : list Z) : state :=
  match n with
  | O => st
  | S n' => blocks n' (block st (take 64 bytes)) (drop 64 bytes)
  end.

(** [md5.Sum]: the 16 bytes of the digest. *)
Definition Sum (msg : list Z) : list Z :=
  let padded := pad msg in
  let st := blocks (length padded / 64) init padded in
  le_bytes (sa st) ++ le_bytes (sb st) ++ le_bytes (sc st) ++ le_bytes (sd st).

End MD5.

(** [fmt.Sprintf("%x", bytes)]: two lower-case hexadecimal digits a byte. *)
Definition hex_digit (n : Z) : ascii :=
  match String.get (Z.to_nat n) "0123456789abcdef" with
  | Some c => c
  | None => "0"%char
  end.

Definition hex_of_bytes (bytes : list Z) : string :=
  string_of_list_ascii
    (flat_map (fun b => [hex_digit (b / 16); hex_digit (b mod 16)]%Z) bytes).

Definition bytes_of_string (s : string) : list Z :=
  map (fun c => Z.of_N (N_of_ascii c)) (list_ascii_of_string s).

(** [generateChecksum] of [internal/models/migration.go]. *)
Definition generateChecksum (content : string) : string :=
  hex_of_bytes (MD5.Sum (bytes_of_string content)).

(** ** Time: [time.Parse] with the layout [20060102150405]

    A [time.Time] is kept as its number of seconds since 0001-01-01 00:00:00
    UTC; Go's zero [time.Time] is that instant, [0]. *)

Module GoTime.

Local Open Scope Z_scope.

Definition Time := Z.

Definition zero : Time := 0.

(** [t.Before(u)]. *)
Definition Before (t u : Time) : bool := t <? u.

Definition isLeap (year : Z) : bool :=
  (year mod 4 =? 0) && (negb (year mod 100 =? 0) || (year mod 400 =? 0)).

Definition daysIn (month year : Z) : Z :=
  if month =? 2 then (if isLeap year then 29 else 28)
  else if (month =? 4) || (month =? 6) || (month =? 9) || (month =? 11) then 30
  else 31.

(** Days from 1 January of year 1 to 1 January of [year], in the proleptic
    Gregorian calendar (negative for year 0). *)
Definition daysBeforeYear (year : Z) : Z :=
  let y := year - 1 in
  365 * y + y / 4 - y / 100 + y / 400.

Fixpoint daysBeforeMonth (fuel : nat) (month year : Z) : Z :=
  match fuel with
  | O => 0
  | S fuel' =>
      if month <=? 1 then 0
      else daysIn (month - 1) year + daysBeforeMonth fuel' (month - 1) year
  end.

(** [time.Date(year, month, day, hour, min, sec, 0, time.UTC)] for fields
    within their ranges. *)
Definition Date (year month day hour min sec : Z) : Time :=
  (daysBeforeYear year + daysBeforeMonth 12 month year + (day - 1)) * 86400
  + hour * 3600 + min * 60 + sec.

Definition isDigit (c : ascii) : bool :=
  let b := N_of_ascii c in ((48 <=? b) && (b <=? 57))%N.

(** The decimal value of a string of digits, [None] when some character is
    not a digit. *)
Fixpoint atoi_from (acc : Z) (s : string) : option Z :=
  match s with
  | EmptyString => Some acc
  | String c r =>
      if isDigit c then atoi_from (10 * acc + (Z.of_N (N_of_ascii c) - 48)) r
      else None
  end.

Definition atoi (s : string) : option Z := atoi_from 0 s.

(** [time.Parse("20060102150405", value)]: four digits of year, then two of
    month, day, hour, minute and second each; a month outside 1..12, a day
    outside the month, an hour above 23 or a minute or second above 59 is a
    range error. [None] stands for the error (and the zero [Time] Go returns
    with it). *)
Definition Parse (value : string) : option Time :=
  if negb (String.length value =? 14)%nat then None
  else
    match atoi (substring 0 4 value), atoi (substring 4 2 value),
          atoi (substring 6 2 value), atoi (substring 8 2 value),
          atoi (substring 10 2 value), atoi (substring 12 2 value) with
    | Some year, Some month, Some day, Some hour, Some min, Some sec =>
        if (1 <=? month) && (month <=? 12)
           && (1 <=? day) && (day <=? daysIn month year)
           && (hour <? 24) && (min <? 60) && (sec <? 60)
        then Some (Date year month day hour min sec)
        else None
    | _, _, _, _, _, _ => None
    end.

End GoTime.

(** ** Results: a value or an error, for Go's pairs [(value, err)] *)

Inductive result (E A : Type) : Type :=
| Ok (a : A)
| Err (e : E).
Arguments Ok {E A} a.
Arguments Err {E A} e.

(** ** Package [models]: [internal/models/migration.go] *)

Module models.

Record Migration := mkMigration {
  Filename : string;
  Filepath : string;
  Up : string;
  Down : string;
  Checksum : string;
  Timestamp : GoTime.Time
}.

Definition set_Up (content : string) (m : Migration) : Migration :=
  mkMigration (Filename m) (Filepath m) content (Down m) (Checksum m) (Timestamp m).

Definition set_Down (content : string) (m : Migration) : Migration :=
  mkMigration (Filename m) (Filepath m) (Up m) content (Checksum m) (Timestamp m).

Definition set_Checksum (sum : string) (m : Migration) : Migration :=
  mkMigration (Filename m) (Filepath m) (Up m) (Down m) sum (Timestamp m).

(** [MigrationSet]: the slice [Migrations]. *)
Definition MigrationSet := list Migration.

Inductive Direction := DirUp | DirDown.

(** A match of [^(\d{14})_(.+)\.(up|down)\.sql$] on a file name: the three
    groups. The name ends in [.up.sql] or in [.down.sql] (never both), which
    fixes the third group; before it come fourteen digits, an underscore and
    a non-empty name in which [.] matches every byte but the newline. *)
Definition hasSuffix (s suf : string) : bool :=
  String.eqb (substring (String.length s - String.length suf) (String.length suf) s) suf.

Definition allChars (p : ascii -> bool) (s : string) : bool :=
  forallb p (list_ascii_of_string s).

Definition notNewline (c : ascii) : bool := negb (N_of_ascii c =? 10)%N.

Definition matchStem (stem : string) (direction : Direction)
  : option (string * string * Direction) :=
  let timestamp := substring 0 14 stem in
  let name := substring 15 (String.length stem - 15) stem in
  if (String.length timestamp =? 14)%nat && allChars GoTime.isDigit timestamp
     && String.eqb (substring 14 1 stem) "_"
     && negb (String.length name =? 0)%nat && allChars notNewline name
  then Some (timestamp, name, direction)
  else None.

Definition migrationRegex (file : string) : option (string * string * Direction) :=
  if hasSuffix file ".up.sql"
  then matchStem (substring 0 (String.length file - 7) file) DirUp
  else if hasSuffix file ".down.sql"
  then matchStem (substring 0 (String.length file - 9) file) DirDown
  else None.

(** The directory as [os.Stat], [os.ReadDir] and [os.ReadFile] show it: an
    entry is a name, whether it is a directory, and the content a read of it
    returns ([None] when the read fails). *)
Record DirEntry := mkDirEntry {
  Name : string;
  IsDir : bool;
  content : option string
}.

Inductive Directory :=
| DirNotExist
| DirUnreadable
| DirFiles (files : list DirEntry).

Inductive LoadError :=
| ErrReadDir
| ErrReadFile (file : string)
| ErrMissingUp (filename : string).

(** [filepath.Join(directory, name)], without the normalisation of [Clean]. *)
Definition filepath_Join (directory name : string) : string :=
  directory +:+ "/" +:+ name.

(** The first loop of [LoadMigrations]: the files into [migrationMap]. The
    map holds pointers in Go; the update through the pointer is [alter]. *)
Fixpoint scanFiles (directory : string) (files : list DirEntry)
    (migrationMap : gmap string Migration)
  : result LoadError (gmap string Migration) :=
  match files with
  | [] => Ok migrationMap
  | file :: rest =>
      if IsDir file then scanFiles directory rest migrationMap
      else
        match migrationRegex (Name file) with
        | None => scanFiles directory rest migrationMap
        | Some (timestamp, name, direction) =>
            let baseFilename := timestamp +:+ "_" +:+ name in
            match content file with
            | None => Err (ErrReadFile (Name file))
            | Some contentStr =>
                let migrationMap1 :=
                  match migrationMap !! baseFilename with
                  | Some _ => migrationMap
                  | None =>
                      let parsedTime :=
                        match GoTime.Parse timestamp with
                        | Some t => t
                        | None => GoTime.zero
                        end in
                      <[baseFilename :=
                          mkMigration baseFilename
                            (filepath_Join directory (Name file)) "" "" "" parsedTime]>
                        migrationMap
                  end in
                let migrationMap2 :=
                  match direction with
                  | DirUp => alter (set_Up contentStr) baseFilename migrationMap1
                  | DirDown => alter (set_Down contentStr) baseFilename migrationMap1
                  end in
                scanFiles directory rest migrationMap2
            end
        end
  end.

(** The second loop: every record needs an up script and gets its checksum. *)
Fixpoint checkAll (entries : list (string * Migration)) (migrations : list Migration)
  : result LoadError (list Migration) :=
  match entries with
  | [] => Ok migrations
  | (_, migration) :: rest =>
      if String.eqb (Up migration) "" then Err (ErrMissingUp (Filename migration))
      else checkAll rest
             (migrations ++ [set_Checksum (generateChecksum (Up migration)) migration])
  end.

(** [sort.Slice] with [less]: the insertion sort the Go library runs on
    slices of at most twelve elements; on longer ones its result is one of
    the orders the library may produce, all of them sorted by [less]. *)
Section SortSlice.
Context {A : Type} (less : A -> A -> bool).

Fixpoint insertSorted (x : A) (l : list A) : list A :=
  match l with
  | [] => [x]
  | y :: l' => if less x y then x :: y :: l' else y :: insertSorted x l'
  end.

Definition sort_Slice (l : list A) : list A :=
  fold_left (fun acc x => insertSorted x acc) l [].
End SortSlice.

Definition lessTimestamp (a b : Migration) : bool :=
  GoTime.Before (Timestamp a) (Timestamp b).

Definition LoadMigrations (directory : string) (dir : Directory)
  : result LoadError MigrationSet :=
  match dir with
  | DirNotExist => Ok []
  | DirUnreadable => Err ErrReadDir
  | DirFiles files =>
      match scanFiles directory files ∅ with
      | Err e => Err e
      | Ok migrationMap =>
          match checkAll (map_to_list migrationMap) [] with
          | Err e => Err e
          | Ok migrations => Ok (sort_Slice lessTimestamp migrations)
          end
      end
  end.

(** [MigrationSet.GetPending]. *)
Definition appliedSetOf (appliedMigrations : list string) : gmap string bool :=
  fold_left (fun appliedSet applied => <[applied := true]> appliedSet)
            appliedMigrations ∅.

Definition isApplied (appliedSet : gmap string bool) (filename : string) : bool :=
  default false (appliedSet !! filename).

Definition GetPending (ms : MigrationSet) (appliedMigrations : list string)
  : list Migration :=
  let appliedSet := appliedSetOf appliedMigrations in
  fold_left
    (fun pending migration =>
       if negb (isApplied appliedSet (Filename migration))
       then pending ++ [migration] else pending)
    ms [].

(** [MigrationSet.GetMigrationByFilename]: the first record of that name,
    [None] for the error [migration not found]. *)
Fixpoint GetMigrationByFilename (ms : MigrationSet) (filename : string)
  : option Migration :=
  match ms with
  | [] => None
  | migration :: rest =>
      if String.eqb (Filename migration) filename then Some migration
      else GetMigrationByFilename rest filename
  end.

End models.

Import models.

(** ** Package [database]: [pkg/database/connection.go], with the
    transactions of [database/sql]

    The ledger table holds a row a recorded migration, in the order of their
    [id]s: an insert takes the next [id], so it appends. [filename] is
    [UNIQUE]. The table may not exist yet ([None]). *)

Module database.

Record LedgerRow := mkRow {
  row_filename : string;
  row_checksum : string
}.

Inductive DbError :=
| ErrConnection
| ErrNoTable
| ErrUnique (filename : string)
| ErrStatement
| ErrTxDone.

Inductive TxError :=
| ErrBeginTx (e : DbError)
| ErrExecStatement (stmt : string) (e : DbError)
| ErrRecord (e : DbError)
| ErrRemoveRecord (e : DbError)
| ErrCommitTx (e : DbError).

(** The errors of [Up], [Down] and [Status], one constructor a message. *)
Inductive Error :=
| ErrCreateTable (e : DbError)
| ErrLoadMigrations (e : LoadError)
| ErrGetApplied (e : DbError)
| ErrApplyMigration (filename : string) (e : TxError)
| ErrFindMigration (filename : string)
| ErrNoDownMigration (filename : string)
| ErrRollbackMigration (filename : string) (e : TxError).

(** What the commands print, one constructor a [Println] or [Printf]. *)
Inductive Output :=
| OutNoPending
| OutApplying (n : nat)
| OutApplied (filename : string)
| OutAllApplied
| OutNoRollback
| OutRollingBack (n : nat)
| OutRolledBack (filename : string)
| OutRollbackCompleted
| OutStatusHeader
| OutNoMigrations
| OutStatusLine (applied : bool) (filename : string)
| OutStatusTotal (total applied pending : nat).

(** The calls on the database: on the connection ([db.Exec], [db.Query],
    [db.Begin]) and on the transaction ([tx.Exec], [tx.Commit],
    [tx.Rollback]). *)
Inductive Op :=
| OpCreateMigrationsTable
| OpGetAppliedMigrations
| OpBegin
| OpExec (stmt : string)
| OpInsert (filename checksum : string)
| OpDelete (filename : string)
| OpCommit
| OpRollback.

Inductive Event :=
| Done (op : Op)
| Failed (op : Op)
| Printed (out : Output).

Section Store.

(** The user's tables, whatever the database keeps them as. *)
Context {Tables : Type}.

Record Database := mkDatabase {
  tables : Tables;
  ledger : option (list LedgerRow)
}.

(** The world a command runs in: the committed database, the working copy
    of the open transaction if there is one, the calls and prints so far,
    and for each coming round trip to the database whether the connection
    fails on it (none failing when the list is exhausted). *)
Record World := mkWorld {
  committed : Database;
  tx : option Database;
  log : list Event;
  faults : list bool
}.

Definition emit (e : Event) (w : World) : World :=
  mkWorld (committed w) (tx w) (log w ++ [e]) (faults w).

Definition set_committed (d : Database) (w : World) : World :=
  mkWorld d (tx w) (log w) (faults w).

Definition set_tx (t : option Database) (w : World) : World :=
  mkWorld (committed w) t (log w) (faults w).

Definition roundTrip (w : World) : bool * World :=
  match faults w with
  | [] => (false, w)
  | b :: r => (b, mkWorld (committed w) (tx w) (log w) r)
  end.

(** State and error: a failed call keeps the state it reached. *)
Definition M (E A : Type) : Type := World -> World * result E A.

Definition ret {E A} (a : A) : M E A := fun w => (w, Ok a).

Definition bind {E A B} (c : M E A) (k : A -> M E B) : M E B :=
  fun w =>
    match c w with
    | (w', Ok a) => k a w'
    | (w', Err e) => (w', Err e)
    end.

(** [fmt.Errorf("...: %w", err)]. *)
Definition wrap {E E' A} (f : E -> E') (c : M E A) : M E' A :=
  fun w =>
    match c w with
    | (w', Ok a) => (w', Ok a)
    | (w', Err e) => (w', Err (f e))
    end.

Definition lift {E E' A} (f : E -> E') (r : result E A) : M E' A :=
  fun w =>
    match r with
    | Ok a => (w, Ok a)
    | Err e => (w, Err (f e))
    end.

Definition print {E} (out : Output) : M E unit :=
  fun w => (emit (Printed out) w, Ok tt).


(** *** [DB.CreateMigrationsTable] and [DB.GetAppliedMigrations] *)

Definition CreateMigrationsTable : M DbError unit :=
  fun w =>
    let '(fault, w) := roundTrip w in
    if fault then (emit (Failed OpCreateMigrationsTable) w, Err ErrConnection)
    else
      let d := committed w in
      let rows := match ledger d with Some rows => rows | None => [] end in
      (emit (Done OpCreateMigrationsTable)
            (set_committed (mkDatabase (tables d) (Some rows)) w), Ok tt).

Definition GetAppliedMigrations : M DbError (list string) :=
  fun w =>
    let '(fault, w) := roundTrip w in
    if fault then (emit (Failed OpGetAppliedMigrations) w, Err ErrConnection)
    else
      match ledger (committed w) with
      | None => (emit (Failed OpGetAppliedMigrations) w, Err ErrNoTable)
      | Some rows => (emit (Done OpGetAppliedMigrations) w, Ok (map row_filename rows))
      end.

(** *** Transactions: [db.Begin], [tx.Exec], [tx.Commit], [tx.Rollback] *)

Definition Begin : M DbError unit :=
  fun w =>
    let '(fault, w) := roundTrip w in
    if fault then (emit (Failed OpBegin) w, Err ErrConnection)
    else (emit (Done OpBegin) (set_tx (Some (committed w)) w), Ok tt).

(** One [tx.Exec]: [run] is the effect of the statement on the working
    copy of the transaction. *)
Definition txExec (op : Op) (run : Database -> result DbError Database)
  : M DbError unit :=
  fun w =>
    match tx w with
    | None => (w, Err ErrTxDone)
    | Some d =>
        let '(fault, w) := roundTrip w in
        if fault then (emit (Failed op) w, Err ErrConnection)
        else
          match run d with
          | Err e => (emit (Failed op) w, Err e)
          | Ok d' => (emit (Done op) (set_tx (Some d') w), Ok tt)
          end
    end.

Definition Commit : M DbError unit :=
  fun w =>
    match tx w with
    | None => (w, Err ErrTxDone)
    | Some d =>
        let '(fault, w) := roundTrip w in
        if fault then (emit (Failed OpCommit) (set_tx None w), Err ErrConnection)
        else (emit (Done OpCommit) (set_tx None (set_committed d w)), Ok tt)
    end.

(** [defer tx.Rollback()]: runs when the function returns, its error
    dropped; after a [Commit] the transaction is done and nothing happens. *)
Definition Rollback (w : World) : World :=
  match tx w with
  | None => w
  | Some _ => emit (Done OpRollback) (set_tx None w)
  end.

Definition deferRollback {E A} (body : M E A) : M E A :=
  fun w => let '(w', r) := body w in (Rollback w', r).

End Store.

Arguments Database : clear implicits.
Arguments World : clear implicits.
Arguments M : clear implicits.

Declare Scope go_scope.
Notation "x <- c ;; k" := (bind c (fun x => k))
  (at level 100, c at next level, k at level 200, right associativity) : go_scope.
Notation "c ;; k" := (bind c (fun _ => k))
  (at level 100, k at level 200, right associativity) : go_scope.

End database.

Import database.

(** ** Package [migration]: the [Migrator] *)

Module migration.

Local Open Scope go_scope.

Section Engine.

(** The user's tables and the interpreter of one statement of a script on
    them; [None] is a statement the database refuses. *)
Context {Tables : Type}.
Variable exec_stmt : string -> Tables -> option Tables.

Local Abbreviation Database := (Database Tables).
Local Abbreviation M := (M Tables).

Definition runStatement (stmt : string) (d : Database) : result DbError Database :=
  match exec_stmt stmt (tables d) with
  | Some t => Ok (mkDatabase t (ledger d))
  | None => Err ErrStatement
  end.

Definition insertRow (filename checksum : string) (d : Database)
  : result DbError Database :=
  match ledger d with
  | None => Err ErrNoTable
  | Some rows =>
      if existsb (fun r => String.eqb (row_filename r) filename) rows
      then Err (ErrUnique filename)
      else Ok (mkDatabase (tables d) (Some (rows ++ [mkRow filename checksum])))
  end.

Definition deleteRow (filename : string) (d : Database) : result DbError Database :=
  match ledger d with
  | None => Err ErrNoTable
  | Some rows =>
      Ok (mkDatabase (tables d)
            (Some (List.filter (fun r => negb (String.eqb (row_filename r) filename)) rows)))
  end.

Definition recordMigrationInTx (migration : Migration) : M DbError unit :=
  txExec (OpInsert (Filename migration) (Checksum migration))
         (insertRow (Filename migration) (Checksum migration)).

Definition removeMigrationInTx (filename : string) : M DbError unit :=
  txExec (OpDelete filename) (deleteRow filename).

(** The loop over [strings.Split(script, ";")] of [applyMigration] and of
    [rollbackMigration]. *)
Fixpoint execStatements (statements : list string) : M TxError unit :=
  match statements with
  | [] => ret tt
  | stmt :: rest =>
      let stmt := GoStrings.TrimSpace stmt in
      if String.eqb stmt "" || GoStrings.HasPrefix stmt "--"
      then execStatements rest
      else
        wrap (ErrExecStatement stmt) (txExec (OpExec stmt) (runStatement stmt)) ;;
        execStatements rest
  end.

Definition applyMigration (migration : Migration) : M TxError unit :=
  wrap ErrBeginTx Begin ;;
  deferRollback
    (execStatements (GoStrings.Split (Up migration) ";") ;;
     wrap ErrRecord (recordMigrationInTx migration) ;;
     wrap ErrCommitTx Commit).

Definition rollbackMigration (migration : Migration) : M TxError unit :=
  wrap ErrBeginTx Begin ;;
  deferRollback
    (execStatements (GoStrings.Split (Down migration) ";") ;;
     wrap ErrRemoveRecord (removeMigrationInTx (Filename migration)) ;;
     wrap ErrCommitTx Commit).

(** The loop of [Up] over the pending migrations. *)
Fixpoint applyAll (pendingMigrations : list Migration) : M Error unit :=
  match pendingMigrations with
  | [] => ret tt
  | migration :: rest =>
      wrap (ErrApplyMigration (Filename migration)) (applyMigration migration) ;;
      print (OutApplied (Filename migration)) ;;
      applyAll rest
  end.

Definition Up (directory : string) (dir : Directory) : M Error unit :=
  wrap ErrCreateTable CreateMigrationsTable ;;
  migrationSet <- lift ErrLoadMigrations (LoadMigrations directory dir) ;;
  appliedMigrations <- wrap ErrGetApplied GetAppliedMigrations ;;
  let pendingMigrations := GetPending migrationSet appliedMigrations in
  if (length pendingMigrations =? 0)%nat then print OutNoPending
  else
    print (OutApplying (length pendingMigrations)) ;;
    applyAll pendingMigrations ;;
    print OutAllApplied.

(** [steps] after [if steps <= 0 || steps > len(appliedMigrations)]. *)
Definition clampSteps (steps : Z) (len : nat) : nat :=
  if (steps <=? 0)%Z || (Z.of_nat len <? steps)%Z then len else Z.to_nat steps.

(** The loop of [Down]: [for i := len(toRollback) - 1; i >= 0; i--], with
    [n] for [i + 1]. *)
Fixpoint rollbackFrom (migrationSet : MigrationSet) (toRollback : list string)
    (n : nat) : M Error unit :=
  match n with
  | O => ret tt
  | S i =>
      match toRollback !! i with
      | None => ret tt
      | Some migrationFilename =>
          match GetMigrationByFilename migrationSet migrationFilename with
          | None => lift ErrFindMigration (Err migrationFilename)
          | Some migration =>
              if String.eqb (Down migration) ""
              then lift ErrNoDownMigration (Err migrationFilename)
              else
                wrap (ErrRollbackMigration migrationFilename)
                     (rollbackMigration migration) ;;
                print (OutRolledBack migrationFilename) ;;
                rollbackFrom migrationSet toRollback i
          end
      end
  end.

Definition Down (directory : string) (dir : Directory) (steps : Z) : M Error unit :=
  appliedMigrations <- wrap ErrGetApplied GetAppliedMigrations ;;
  if (length appliedMigrations =? 0)%nat then print OutNoRollback
  else
    migrationSet <- lift ErrLoadMigrations (LoadMigrations directory dir) ;;
    let steps := clampSteps steps (length appliedMigrations) in
    let toRollback := drop (length appliedMigrations - steps) appliedMigrations in
    print (OutRollingBack (length toRollback)) ;;
    rollbackFrom migrationSet toRollback (length toRollback) ;;
    print OutRollbackCompleted.

Fixpoint printStatus (appliedSet : gmap string bool) (ms : list Migration)
  : M Error unit :=
  match ms with
  | [] => ret tt
  | migration :: rest =>
      print (OutStatusLine (isApplied appliedSet (Filename migration))
                           (Filename migration)) ;;
      printStatus appliedSet rest
  end.

Definition Status (directory : string) (dir : Directory) : M Error unit :=
  migrationSet <- lift ErrLoadMigrations (LoadMigrations directory dir) ;;
  appliedMigrations <- wrap ErrGetApplied GetAppliedMigrations ;;
  let appliedSet := appliedSetOf appliedMigrations in
  print OutStatusHeader ;;
  if (length migrationSet =? 0)%nat then print OutNoMigrations
  else
    printStatus appliedSet migrationSet ;;
    let pendingCount := length (GetPending migrationSet appliedMigrations) in
    print (OutStatusTotal (length migrationSet) (length appliedMigrations)
                          pendingCount).

End Engine.

End migration.

(** ** An engine that commits implicitly

    The store above undoes every statement of a transaction that is rolled
    back. Not every engine the drivers of [CreateMigrationsTable] reach does
    so: on MySQL a statement of data definition ends the open transaction
    before it runs, as a [COMMIT] would, and runs outside it; every later
    statement sent on the handle runs on its own too, and the [Commit] or
    [Rollback] of the handle finds nothing to end. [commitsImplicitly] tells
    the statements on which the engine does so (none on PostgreSQL and
    SQLite). A session is a world and whether the engine has ended the
    transaction of the handle that is still open. The functions of the
    [Migrator] are the ones above, run on this engine. *)

Module implicit.

Declare Scope session_scope.
Local Open Scope session_scope.

Section Engine.

Context {Tables : Type}.
Variable exec_stmt : string -> Tables -> option Tables.
Variable commitsImplicitly : string -> bool.

Record Session := mkSession {
  world : World Tables;
  ended : bool
}.

Definition S (E A : Type) : Type := Session -> Session * result E A.

Definition ret {E A} (a : A) : S E A := fun s => (s, Ok a).

Definition bind {E A B} (c : S E A) (k : A -> S E B) : S E B :=
  fun s =>
    match c s with
    | (s', Ok a) => k a s'
    | (s', Err e) => (s', Err e)
    end.

Definition wrap {E E' A} (f : E -> E') (c : S E A) : S E' A :=
  fun s =>
    match c s with
    | (s', Ok a) => (s', Ok a)
    | (s', Err e) => (s', Err (f e))
    end.

(** A call that is the same on every engine: on the connection, a print,
    [db.Begin]. *)
Definition onWorld {E A} (c : M Tables E A) : S E A :=
  fun s => let '(w, r) := c (world s) in (mkSession w (ended s), r).

(** [tx.Exec]. Once the engine has ended the transaction, or when the
    statement makes it do so, what the handle did so far is committed and
    the statement is committed as it runs. *)
Definition txExec (implicitly : bool) (op : Op)
    (run : Database Tables -> result DbError (Database Tables)) : S DbError unit :=
  fun s =>
    if ended s || implicitly then
      match tx (world s) with
      | None => (s, Err ErrTxDone)
      | Some d =>
          let '(fault, w) := roundTrip (world s) in
          if fault then (mkSession (emit (Failed op) w) (ended s), Err ErrConnection)
          else
            match run d with
            | Err e => (mkSession (emit (Failed op) (set_committed d w)) true, Err e)
            | Ok d' =>
                (mkSession (emit (Done op) (set_tx (Some d') (set_committed d' w))) true,
                 Ok tt)
            end
      end
    else onWorld (database.txExec op run) s.

(** [tx.Commit] and [tx.Rollback] close the handle. *)
Definition Commit : S DbError unit :=
  fun s => let '(w, r) := database.Commit (world s) in (mkSession w false, r).

Definition deferRollback {E A} (body : S E A) : S E A :=
  fun s => let '(s', r) := body s in (mkSession (Rollback (world s')) false, r).

Notation "x <- c ;; k" := (bind c (fun x => k))
  (at level 100, c at next level, k at level 200, right associativity) : session_scope.
Notation "c ;; k" := (bind c (fun _ => k))
  (at level 100, k at level 200, right associativity) : session_scope.

Definition recordMigrationInTx (migration : Migration) : S DbError unit :=
  txExec false (OpInsert (Filename migration) (Checksum migration))
         (migration.insertRow (Filename migration) (Checksum migration)).

Definition removeMigrationInTx (filename : string) : S DbError unit :=
  txExec false (OpDelete filename) (migration.deleteRow filename).

Fixpoint execStatements (statements : list string) : S TxError unit :=
  match statements with
  | [] => ret tt
  | stmt :: rest =>
      let stmt := GoStrings.TrimSpace stmt in
      if String.eqb stmt "" || GoStrings.HasPrefix stmt "--"
      then execStatements rest
      else
        wrap (ErrExecStatement stmt)
             (txExec (commitsImplicitly stmt) (OpExec stmt)
                     (migration.runStatement exec_stmt stmt)) ;;
        execStatements rest
  end.

Definition applyMigration (migration : Migration) : S TxError unit :=
  wrap ErrBeginTx (onWorld Begin) ;;
  deferRollback
    (execStatements (GoStrings.Split (Up migration) ";") ;;
     wrap ErrRecord (recordMigrationInTx migration) ;;
     wrap ErrCommitTx Commit).

Definition rollbackMigration (migration : Migration) : S TxError unit :=
  wrap ErrBeginTx (onWorld Begin) ;;
  deferRollback
    (execStatements (GoStrings.Split (Down migration) ";") ;;
     wrap ErrRemoveRecord (removeMigrationInTx (Filename migration)) ;;
     wrap ErrCommitTx Commit).

Fixpoint applyAll (pendingMigrations : list Migration) : S Error unit :=
  match pendingMigrations with
  | [] => ret tt
  | migration :: rest =>
      wrap (ErrApplyMigration (Filename migration)) (applyMigration migration) ;;
      onWorld (print (OutApplied (Filename migration))) ;;
      applyAll rest
  end.

Definition Up (directory : string) (dir : Directory) : S Error unit :=
  wrap ErrCreateTable (onWorld CreateMigrationsTable) ;;
  migrationSet <- onWorld (lift ErrLoadMigrations (LoadMigrations directory dir)) ;;
  appliedMigrations <- wrap ErrGetApplied (onWorld GetAppliedMigrations) ;;
  let pendingMigrations := GetPending migrationSet appliedMigrations in
  if (length pendingMigrations =? 0)%nat then onWorld (print OutNoPending)
  else
    onWorld (print (OutApplying (length pendingMigrations))) ;;
    applyAll pendingMigrations ;;
    onWorld (print OutAllApplied).

End Engine.

Arguments Session : clear implicits.
Arguments S : clear implicits.

End implicit.

(** ** [strconv.Atoi]

    On a platform whose [int] has 64 bits: an optional sign, then decimal
    digits, at least one, and a value that fits. [None] stands for the
    error. *)

Module strconv.

Definition Atoi (s : string) : option Z :=
  let '(negative, digits) :=
    match s with
    | String "-"%char r => (true, r)
    | String "+"%char r => (false, r)
    | _ => (false, s)
    end in
  if (String.length digits =? 0)%nat then None
  else
    match GoTime.atoi digits with
    | None => None
    | Some n =>
        let n := if negative : bool then (- n)%Z else n in
        if ((- 2 ^ 63 <=? n) && (n <? 2 ^ 63))%Z then Some n else None
    end.

End strconv.

(** ** Package [cli]: the argument of [migrate down], and [maskPassword] *)

Module cli.

Local Open Scope go_scope.

Inductive StepsError :=
| ErrInvalidSteps (arg : string)
| ErrStepsNotPositive.

Inductive CmdError :=
| ErrSteps (e : StepsError)
| ErrRun (e : Error).

(** The head of [migrateDownCmd]: [steps] from the arguments of the
    command line. *)
Definition migrateDownSteps (args : list string) : result StepsError Z :=
  match args with
  | [] => Ok 1%Z
  | arg :: _ =>
      if String.eqb arg "all" then Ok 9999%Z
      else
        match strconv.Atoi arg with
        | None => Err (ErrInvalidSteps arg)
        | Some steps =>
            if (steps <=? 0)%Z then Err ErrStepsNotPositive else Ok steps
        end
  end.

(** [migrateDownCmd] on a configuration that loads and a database that is
    reached: the world is that database. *)
Definition migrateDownCmd {Tables} (exec_stmt : string -> Tables -> option Tables)
    (directory : string) (dir : Directory) (args : list string)
  : M Tables CmdError unit :=
  steps <- lift ErrSteps (migrateDownSteps args) ;;
  wrap ErrRun (migration.Down exec_stmt directory dir steps).

Definition maskPassword (password : string) : string :=
  if (String.length password =? 0)%nat then ""
  else if (String.length password <=? 4)%nat then "****"
  else substring 0 2 password +:+ "****"
       +:+ substring (String.length password - 2) 2 password.

End cli.

(** ** [GenerateMigrationFiles] of package [models], which
    [Migrator.Create] calls *)

Module generator.

(** [strings.ToLower] on a string of ASCII bytes: the letters [A] to [Z]
    become [a] to [z]. (On other strings Go maps the runes.) *)
Definition isASCII (s : string) : bool :=
  allChars (fun c => (N_of_ascii c <? 128)%N) s.

Definition lowerByte (c : ascii) : ascii :=
  let b := N_of_ascii c in
  if ((65 <=? b) && (b <=? 90))%N then ascii_of_N (b + 32) else c.

Definition strings_ToLower (s : string) : string :=
  string_of_list_ascii (map lowerByte (list_ascii_of_string s)).

(** [strings.ReplaceAll(s, old, new)] for one byte each. *)
Definition strings_ReplaceAll (s : string) (old new : ascii) : string :=
  string_of_list_ascii
    (map (fun c => if Ascii.eqb c old then new else c) (list_ascii_of_string s)).

Definition nl : string := String (ascii_of_nat 10) "".

Definition upTemplate (name created : string) : string :=
  "-- Migration: " +:+ name +:+ nl
  +:+ "-- Created: " +:+ created +:+ nl
  +:+ "-- Description: Add your up migration here" +:+ nl
  +:+ nl
  +:+ "-- Example:" +:+ nl
  +:+ "-- CREATE TABLE users (" +:+ nl
  +:+ "--     id SERIAL PRIMARY KEY," +:+ nl
  +:+ "--     email VARCHAR(255) UNIQUE NOT NULL," +:+ nl
  +:+ "--     created_at TIMESTAMP DEFAULT NOW()" +:+ nl
  +:+ "-- );" +:+ nl.

Definition downTemplate (name created : string) : string :=
  "-- Migration: " +:+ name +:+ " (Down)" +:+ nl
  +:+ "-- Created: " +:+ created +:+ nl
  +:+ "-- Description: Add your down migration here" +:+ nl
  +:+ nl
  +:+ "-- Example:" +:+ nl
  +:+ "-- DROP TABLE IF EXISTS users;" +:+ nl.

(** The two files [GenerateMigrationFiles] writes when the directory can be
    made and written to, path and content, in the order of the writes.
    [timestamp], [createdUp] and [createdDown] are its three readings of
    [time.Now()], in the layouts [20060102150405] and
    [2006-01-02 15:04:05]. *)
Definition GenerateMigrationFiles
    (directory name timestamp createdUp createdDown : string)
  : list (string * string) :=
  let cleanName := strings_ReplaceAll (strings_ToLower name) " " "_" in
  let baseFilename := timestamp +:+ "_" +:+ cleanName in
  let upFile := filepath_Join directory (baseFilename +:+ ".up.sql") in
  let downFile := filepath_Join directory (baseFilename +:+ ".down.sql") in
  [ (upFile, upTemplate name createdUp);
    (downFile, downTemplate name createdDown) ].

End generator.

(** ** Package [config]: [pkg/config/config.go]

    The fields [Directory] of the three sections and the fields [Database],
    [Migration], [Backup] and [Seed] of [Config] carry the name of their
    struct. *)

Module config.

Record DatabaseConfig := mkDatabaseConfig {
  Driver : string;
  Host : string;
  Port : Z;
  Database : string;
  Username : string;
  Password : string;
  SSLMode : string
}.

Record MigrationConfig := mkMigrationConfig {
  MigrationDirectory : string;
  Table : string
}.

Record BackupConfig := mkBackupConfig {
  BackupDirectory : string;
  Compression : bool;
  RetentionDays : Z
}.

Record SeedConfig := mkSeedConfig {
  SeedDirectory : string
}.

Record Config := mkConfig {
  ConfigDatabase : DatabaseConfig;
  ConfigMigration : MigrationConfig;
  ConfigBackup : BackupConfig;
  ConfigSeed : SeedConfig;
  Verbose : bool
}.

Definition orDefault (value fallback : string) : string :=
  if String.eqb value "" then fallback else value.

(** The [switch] on the driver of [setDefaults], entered with the port [0]. *)
Definition defaultPort (driver : string) : Z :=
  if String.eqb driver "postgres" then 5432
  else if String.eqb driver "mysql" then 3306
  else 0.

(** [setDefaults]: the configuration it leaves (its error is always [nil]). *)
Definition setDefaults (cfg : Config) : Config :=
  let db := ConfigDatabase cfg in
  let driver := orDefault (Driver db) "postgres" in
  mkConfig
    (mkDatabaseConfig driver
       (orDefault (Host db) "localhost")
       (if (Port db =? 0)%Z then defaultPort driver else Port db)
       (Database db) (Username db) (Password db) (SSLMode db))
    (mkMigrationConfig
       (orDefault (MigrationDirectory (ConfigMigration cfg)) "./migrations")
       (orDefault (Table (ConfigMigration cfg)) "schema_migrations"))
    (mkBackupConfig
       (orDefault (BackupDirectory (ConfigBackup cfg)) "./backups")
       (Compression (ConfigBackup cfg))
       (if (RetentionDays (ConfigBackup cfg) =? 0)%Z then 30%Z
        else RetentionDays (ConfigBackup cfg)))
    (mkSeedConfig (orDefault (SeedDirectory (ConfigSeed cfg)) "./seeds"))
    (Verbose cfg).

(** [Config.GetDSN]; [pretty] is the verb [%d]. *)
Definition GetDSN (c : Config) : string :=
  let db := ConfigDatabase c in
  if String.eqb (Driver db) "postgres" then
    "host=" +:+ Host db +:+ " port=" +:+ pretty (Port db)
    +:+ " user=" +:+ Username db +:+ " password=" +:+ Password db
    +:+ " dbname=" +:+ Database db +:+ " sslmode=" +:+ SSLMode db
  else if String.eqb (Driver db) "mysql" then
    Username db +:+ ":" +:+ Password db +:+ "@tcp(" +:+ Host db +:+ ":"
    +:+ pretty (Port db) +:+ ")/" +:+ Database db
  else if String.eqb (Driver db) "sqlite3" then Database db
  else "".

End config.

(** ** Package [database], continued: [NewConnection] and the calls on the
    ledger outside a transaction *)

Module connection.

Inductive ConnError :=
| ErrUnsupportedDriver (driver : string)
| ErrOpen
| ErrPing.

Inductive DialError := OpenFailed | PingFailed.

(** [NewConnection]: [dial driver dsn] is [sql.Open] and [Ping], with
    [None] for a connection that answers. The result is the field [Driver]
    of the [DB]. *)
Definition NewConnection (dial : string -> string -> option DialError)
    (cfg : config.Config) : result ConnError string :=
  let dsn := config.GetDSN cfg in
  let driver := config.Driver (config.ConfigDatabase cfg) in
  if String.eqb dsn "" then Err (ErrUnsupportedDriver driver)
  else
    match dial driver dsn with
    | Some OpenFailed => Err ErrOpen
    | Some PingFailed => Err ErrPing
    | None => Ok driver
    end.

Section Calls.

Context {Tables : Type}.

(** One [db.Exec] outside a transaction: its effect is committed at once. *)
Definition dbExec (op : Op)
    (run : Database Tables -> result DbError (Database Tables))
  : M Tables DbError unit :=
  fun w =>
    let '(fault, w) := roundTrip w in
    if fault then (emit (Failed op) w, Err ErrConnection)
    else
      match run (committed w) with
      | Err e => (emit (Failed op) w, Err e)
      | Ok d' => (emit (Done op) (set_committed d' w), Ok tt)
      end.

Definition RecordMigration (filename checksum : string) : M Tables DbError unit :=
  dbExec (OpInsert filename checksum) (migration.insertRow filename checksum).

Definition RemoveMigration (filename : string) : M Tables DbError unit :=
  dbExec (OpDelete filename) (migration.deleteRow filename).

End Calls.

End connection.

(** * The vocabulary of the properties *)

(** The set's stored order: ascending timestamps. *)
Definition ascending (ms : list Migration) : Prop :=
  StronglySorted (fun a b => (Timestamp a <= Timestamp b)%Z) ms.

(** The timestamp a record gets from the fourteen digits of its identity:
    the parsed time, or the zero time when the parse fails. *)
Definition parsedTimeOf (filename : string) : GoTime.Time :=
  match GoTime.Parse (substring 0 14 filename) with
  | Some t => t
  | None => GoTime.zero
  end.

(** What [LoadMigrations] maintains on [migrationMap]. *)
Definition keyed (mp : gmap string Migration) : Prop :=
  ∀ k m, mp !! k = Some m → Filename m = k ∧ Timestamp m = parsedTimeOf k.




(** The statements a script comes to: its pieces between semicolons,
    trimmed, without the empty ones and the ones that start with [--]. *)
Definition keepStatement (stmt : string) : bool :=
  negb (String.eqb stmt "" || GoStrings.HasPrefix stmt "--").

Definition statementsOf (script : string) : list string :=
  List.filter keepStatement (map GoStrings.TrimSpace (GoStrings.Split script ";")).

(** The identities of the ledger of a database, in the order of the rows. *)
Definition appliedOf {Tables} (d : Database Tables) : list string :=
  match ledger d with
  | Some rows => map row_filename rows
  | None => []
  end.

Section Vocabulary.

Context {Tables : Type}.
Variable exec_stmt : string -> Tables -> option Tables.

Local Abbreviation Database := (Database Tables).
Local Abbreviation World := (World Tables).
Local Abbreviation M := (M Tables).
Local Abbreviation txExec := (@txExec Tables).
Local Abbreviation execStatements := (migration.execStatements exec_stmt).
Local Abbreviation runStatement := (migration.runStatement exec_stmt).

Definition execEvents (stmts : list string) : list Event :=
  map (fun stmt => Done (OpExec stmt)) stmts.

(** The loop of [execStatements] runs the statements of [statementsOf]. *)
Fixpoint execList (stmts : list string) : M TxError unit :=
  match stmts with
  | [] => ret tt
  | stmt :: rest =>
      bind (wrap (ErrExecStatement stmt) (txExec (OpExec stmt) (runStatement stmt)))
           (fun _ => execList rest)
  end.

(** [applyMigration] and [rollbackMigration] are the same function up to
    the script they run and the call on the ledger that follows it. *)
Definition inTransaction (script : string) (op : Op)
    (run : Database → result DbError Database) (wrapErr : DbError → TxError)
  : M TxError unit :=
  bind (wrap ErrBeginTx Begin) (fun _ =>
    deferRollback
      (bind (execStatements (GoStrings.Split script ";")) (fun _ =>
         bind (wrap wrapErr (txExec op run)) (fun _ => wrap ErrCommitTx Commit)))).

(** The ways a transaction ends, with the calls it made. *)
Inductive TxOutcome (script : string) (op : Op) (wrapErr : DbError → TxError)
  : TxError → list Event → Prop :=
| BeginFailed e0 :
    TxOutcome script op wrapErr (ErrBeginTx e0) [Failed OpBegin]
| StatementFailed done stmt e0 rest :
    statementsOf script = done ++ stmt :: rest →
    TxOutcome script op wrapErr (ErrExecStatement stmt e0)
      ([Done OpBegin] ++ execEvents done ++ [Failed (OpExec stmt); Done OpRollback])
| LedgerFailed e0 :
    TxOutcome script op wrapErr (wrapErr e0)
      ([Done OpBegin] ++ execEvents (statementsOf script) ++ [Failed op; Done OpRollback])
| CommitFailed e0 :
    TxOutcome script op wrapErr (ErrCommitTx e0)
      ([Done OpBegin] ++ execEvents (statementsOf script) ++ [Done op; Failed OpCommit]).

(** The identities the run reports as rolled back, in the order of the
    reports: one after each rollback that was committed. *)
Fixpoint rolledBack (evs : list Event) : list string :=
  match evs with
  | [] => []
  | Printed (OutRolledBack filename) :: rest => filename :: rolledBack rest
  | _ :: rest => rolledBack rest
  end.

(** The run has just reported a rollback, or has not called the database
    in the loop yet. *)
Definition afterReport (evs : list Event) : Prop :=
  evs = [] ∨ ∃ before filename, evs = before ++ [Printed (OutRolledBack filename)].

(** The entries [Down] selects: the last [clampSteps] of the ledger. *)
Definition selected (applied : list string) (steps : Z) : list string :=
  drop (length applied - migration.clampSteps steps (length applied)) applied.

(** A transaction is open from a [Begin] that succeeded to the [Commit] or
    [Rollback] that ends it; [withOpen] tells for each event of a log
    whether one is open when it happens. *)
Definition opens (open : bool) (e : Event) : bool :=
  match e with
  | Done OpBegin => true
  | Done OpCommit | Failed OpCommit | Done OpRollback => false
  | _ => open
  end.

Fixpoint withOpen (open : bool) (evs : list Event) : list (Event * bool) :=
  match evs with
  | [] => []
  | e :: rest => (e, open) :: withOpen (opens open e) rest
  end.

Definition openAfter (open : bool) (evs : list Event) : bool :=
  fold_left opens evs open.

Definition opOf (e : Event) : option Op :=
  match e with
  | Done op | Failed op => Some op
  | Printed _ => None
  end.

(** The writes on the ledger ([recordApplied], [recordRemoved]), the calls
    on it the connection takes ([ensureLedger], [listApplied]) and the
    statements of the scripts. *)
Definition isLedgerWrite (e : Event) : bool :=
  match opOf e with
  | Some (OpInsert _ _) | Some (OpDelete _) => true
  | _ => false
  end.

Definition isLedgerOnConnection (e : Event) : bool :=
  match opOf e with
  | Some OpCreateMigrationsTable | Some OpGetAppliedMigrations => true
  | _ => false
  end.

Definition isScriptStatement (e : Event) : bool :=
  match opOf e with
  | Some (OpExec _) => true
  | _ => false
  end.

Definition placed (eb : Event * bool) : Prop :=
  (isLedgerWrite eb.1 = true → eb.2 = true)
  ∧ (isScriptStatement eb.1 = true → eb.2 = true)
  ∧ (isLedgerOnConnection eb.1 = true → eb.2 = false).

(** No transaction is open and the calls so far are where they belong. *)
Definition settled (w : World) : Prop :=
  tx w = None ∧ openAfter false (log w) = false
  ∧ Forall placed (withOpen false (log w)).

(** Two worlds that differ in the checksums their ledgers store only. *)
Definition sameLedger (d1 d2 : Database) : Prop :=
  tables d1 = tables d2
  ∧ (map row_filename <$> ledger d1) = (map row_filename <$> ledger d2).

Definition sameTx (t1 t2 : option Database) : Prop :=
  match t1, t2 with
  | None, None => True
  | Some d1, Some d2 => sameLedger d1 d2
  | _, _ => False
  end.

Definition sameButChecksums (w1 w2 : World) : Prop :=
  sameLedger (committed w1) (committed w2) ∧ sameTx (tx w1) (tx w2)
  ∧ log w1 = log w2 ∧ faults w1 = faults w2.

(** A command that does the same on such worlds. *)
Definition oblivious {E A} (c : M E A) : Prop :=
  ∀ w1 w2, sameButChecksums w1 w2 →
    snd (c w1) = snd (c w2) ∧ sameButChecksums (fst (c w1)) (fst (c w2)).

Definition obliviousRun (run : Database → result DbError Database) : Prop :=
  ∀ d1 d2, sameLedger d1 d2 →
    match run d1, run d2 with
    | Ok d1', Ok d2' => sameLedger d1' d2'
    | Err e1, Err e2 => e1 = e2
    | _, _ => False
    end.

End Vocabulary.

(** * The vocabulary of the engine that commits implicitly *)

Section ImplicitVocabulary.

Context {Tables : Type}.
Variable exec_stmt : string -> Tables -> option Tables.
Variable commitsImplicitly : string -> bool.

(** The tables after the statements of a list, run in order; [None] when
    the database refuses one. *)
Fixpoint runAll (stmts : list string) (t : Tables) : option Tables :=
  match stmts with
  | [] => Some t
  | stmt :: rest =>
      match exec_stmt stmt t with
      | Some t' => runAll rest t'
      | None => None
      end
  end.



(** The database refused the statement (the connection did not fail). *)
Definition isRefusal (e : DbError) : bool :=
  match e with
  | ErrStatement => true
  | _ => false
  end.

(** What a transaction that failed on the statement [stmt], after the
    statements [done], leaves behind: nothing, unless one of [done] made the
    engine commit, or [stmt] did before the database refused it; then all of
    [done]. *)
Definition leftBehind (done : list string) (stmt : string) (e : DbError)
  : list string :=
  if existsb commitsImplicitly done || (commitsImplicitly stmt && isRefusal e)
  then done else [].

(** The loop of [execStatements] on the statements of [statementsOf], and
    the transaction of [applyMigration] and [rollbackMigration], on this
    engine. *)
Fixpoint execListS (stmts : list string) : implicit.S Tables TxError unit :=
  match stmts with
  | [] => implicit.ret tt
  | stmt :: rest =>
      implicit.bind
        (implicit.wrap (ErrExecStatement stmt)
           (implicit.txExec (commitsImplicitly stmt) (OpExec stmt)
              (migration.runStatement exec_stmt stmt)))
        (fun _ => execListS rest)
  end.

Definition inTransactionS (script : string) (op : Op)
    (run : Database Tables → result DbError (Database Tables))
    (wrapErr : DbError → TxError) : implicit.S Tables TxError unit :=
  implicit.bind (implicit.wrap ErrBeginTx (implicit.onWorld Begin)) (fun _ =>
    implicit.deferRollback
      (implicit.bind
         (implicit.execStatements exec_stmt commitsImplicitly
            (GoStrings.Split script ";")) (fun _ =>
         implicit.bind (implicit.wrap wrapErr (implicit.txExec false op run)) (fun _ =>
           implicit.wrap ErrCommitTx implicit.Commit)))).

(** The calls on the connection come before the first [Begin]. *)
Definition connectionCallsFirst (evs : list Event) : Prop :=
  ∃ calls rest,
    evs = calls ++ rest
    ∧ Forall (fun e => opOf e ≠ Some OpBegin) calls
    ∧ Forall (fun e => isLedgerOnConnection e = false) rest.

End ImplicitVocabulary.

(** * A small database for the examples *)

(** The tables are the journal of the statements run on them; a statement
    that starts with [FAIL] is refused. *)
Definition journalExec (stmt : string) (journal : list string) : option (list string) :=
  if String.prefix "FAIL" stmt then None else Some (journal ++ [stmt]).

(** A regular file that can be read. *)
Definition file (name text : string) : DirEntry := mkDirEntry name false (Some text).

Definition emptyWorld : World (list string) :=
  mkWorld (mkDatabase [] None) None [] [].

Definition worldWith (rows : list LedgerRow) : World (list string) :=
  mkWorld (mkDatabase [] (Some rows)) None [] [].

(** Two migrations, in the order [os.ReadDir] lists their files. *)
Definition usersAndPosts : Directory :=
  DirFiles
    [ file "20230101120000_create_users.down.sql" "DROP TABLE users;";
      file "20230101120000_create_users.up.sql"
           "CREATE TABLE users (id INTEGER PRIMARY KEY);";
      file "20230102130000_create_posts.down.sql" "DROP TABLE posts;";
      file "20230102130000_create_posts.up.sql"
           "CREATE TABLE posts (id INTEGER PRIMARY KEY); CREATE INDEX idx ON posts(id);";
      file "README.md" "migrations of the demo" ].

(** The first of them as [LoadMigrations] returns it. *)
Definition createUsers : Migration :=
  mkMigration "20230101120000_create_users"
    "migrations/20230101120000_create_users.down.sql"
    "CREATE TABLE users (id INTEGER PRIMARY KEY);" "DROP TABLE users;"
    "1cbf067882e4b7871949ea0fda77e1f9" 63808171200%Z.

Ltac pick := repeat first [apply list_elem_of_here | apply list_elem_of_further].


(** Three migrations of which the second alone is applied. *)
Definition gapSet : MigrationSet :=
  [ mkMigration "20230101120000_a" "" "CREATE a;" "" "" 63808171200%Z;
    mkMigration "20230102130000_b" "" "CREATE b;" "" "" 63808261200%Z;
    mkMigration "20230103140000_c" "" "CREATE c;" "" "" 63808351200%Z ].

(** The second statement of the second migration is refused. *)
Definition failingPosts : Directory :=
  DirFiles
    [ file "20230101120000_create_users.down.sql" "DROP TABLE users;";
      file "20230101120000_create_users.up.sql"
           "CREATE TABLE users (id INTEGER PRIMARY KEY);";
      file "20230102130000_create_posts.up.sql"
           "CREATE TABLE posts (id INTEGER); FAIL on purpose; CREATE INDEX idx ON posts(id);" ].

Definition failedUp : World (list string) * result Error unit :=
  migration.Up journalExec "migrations" failingPosts emptyWorld.

(** A ledger in which the later migration was recorded first. *)
Definition ledgerPostsUsers : list LedgerRow :=
  [ mkRow "20230102130000_create_posts" "3c9fc826ca656385156a9bad5ace34d6";
    mkRow "20230101120000_create_users" "1cbf067882e4b7871949ea0fda77e1f9" ].

Definition downOne : World (list string) * result Error unit :=
  migration.Down journalExec "migrations" usersAndPosts 1 (worldWith ledgerPostsUsers).

Definition appliedUsers : World (list string) * result TxError unit :=
  migration.applyMigration journalExec createUsers (worldWith []).

Definition newline : ascii := "010"%char.

(** The statements of a script as the specification words them: the pieces
    between semicolons, trimmed, the lines that begin with [--] left out,
    without the blank ones. *)
Definition withoutCommentLines (stmt : string) : string :=
  String.concat (String newline "")
    (List.filter (fun line => negb (GoStrings.HasPrefix line "--"))
                 (GoStrings.Split stmt newline)).

Definition specStatements (script : string) : list string :=
  List.filter (fun stmt => negb (String.eqb stmt ""))
    (map (fun piece =>
            GoStrings.TrimSpace (withoutCommentLines (GoStrings.TrimSpace piece)))
         (GoStrings.Split script ";")).

(** An up script with a comment line in front of its statement. *)
Definition commentedUsers : Migration :=
  mkMigration "20230101120000_create_users" "migrations/20230101120000_create_users.up.sql"
    ("-- add the users" +:+ String newline "CREATE TABLE users (id INTEGER PRIMARY KEY);")
    "" "9b6f608b4faccb2952beb53cb68d0010" 63808171200%Z.

Definition upUsersAndPosts : World (list string) * result Error unit :=
  migration.Up journalExec "migrations" usersAndPosts emptyWorld.

(** The four calls on the ledger. *)
Definition isLedgerOp (e : Event) : bool := isLedgerWrite e || isLedgerOnConnection e.

(** A ledger with an identity that has no file in the directory. *)
Definition ledgerWithGone : list LedgerRow :=
  [ mkRow "20230101120000_create_users" "1cbf067882e4b7871949ea0fda77e1f9";
    mkRow "20230103090000_gone" "0cc175b9c0f1b6a831c399e269772661";
    mkRow "20230102130000_create_posts" "3c9fc826ca656385156a9bad5ace34d6" ].

Definition downGone : World (list string) * result Error unit :=
  migration.Down journalExec "migrations" usersAndPosts 2 (worldWith ledgerWithGone).



Definition recordedUsers (checksum : string) : World (list string) :=
  worldWith [mkRow "20230101120000_create_users" checksum].

(** A file name whose fourteen digits have the month 99. *)
Definition month99 : list DirEntry :=
  [ file "20230101120000_create_users.up.sql"
         "CREATE TABLE users (id INTEGER PRIMARY KEY);";
    file "20239901000000_odd.up.sql" "CREATE TABLE odd (id INTEGER);" ].

Definition loadedMonth99 : MigrationSet :=
  [ mkMigration "20239901000000_odd" "migrations/20239901000000_odd.up.sql"
      "CREATE TABLE odd (id INTEGER);" "" "1ba74e4c05cb8bbc18cef489d0675a28" 0%Z;
    mkMigration "20230101120000_create_users"
      "migrations/20230101120000_create_users.up.sql"
      "CREATE TABLE users (id INTEGER PRIMARY KEY);" ""
      "1cbf067882e4b7871949ea0fda77e1f9" 63808171200%Z ].


Definition createCommits (stmt : string) : bool := String.prefix "CREATE" stmt.

Definition sessionWith (rows : list LedgerRow) : implicit.Session (list string) :=
  implicit.mkSession (worldWith rows) false.



(** A migration whose second statement is refused. *)
Definition halfPosts : Migration :=
  mkMigration "20230102130000_create_posts"
    "migrations/20230102130000_create_posts.up.sql"
    "CREATE TABLE posts (id INTEGER); FAIL on purpose;" "FAIL on purpose;"
    "66f3b3e8351e1e2ac251d63ba25a28db" 63808261200%Z.

(** A migration that defines no data and whose second statement is
    refused. *)
Definition halfInsert : Migration :=
  mkMigration "20230105160000_fill_posts"
    "migrations/20230105160000_fill_posts.up.sql"
    "INSERT INTO posts VALUES (1); FAIL on purpose;" "" "" 63808531200%Z.

(** * The vocabulary of the further properties *)

(** The lines of the report of [Status], one a migration of the set. *)
Definition statusLines (applied : list string) (ms : MigrationSet) : list Event :=
  map (fun m => Printed (OutStatusLine (bool_decide (Filename m ∈ applied)) (Filename m)))
      ms.

(** The ending of the file of a direction. *)
Definition suffixOf (direction : Direction) : string :=
  match direction with
  | DirUp => ".up.sql"
  | DirDown => ".down.sql"
  end.

Definition scriptField (direction : Direction) (m : Migration) : string :=
  match direction with
  | DirUp => Up m
  | DirDown => Down m
  end.

Definition sameDirection (d d' : Direction) : bool :=
  match d, d' with
  | DirUp, DirUp | DirDown, DirDown => true
  | _, _ => false
  end.

(** The script a directory entry gives to the identity [k] in a direction:
    the content of a regular file whose name has that identity and that
    direction. *)
Definition scriptOf (k : string) (direction : Direction) (entry : DirEntry)
  : option string :=
  if IsDir entry then None
  else
    match migrationRegex (Name entry) with
    | Some (timestamp, name, d) =>
        if String.eqb (timestamp +:+ "_" +:+ name) k && sameDirection direction d
        then content entry else None
    | None => None
    end.

(** The script of the last entry that gives one, [init] when none does. *)
Fixpoint lastScript (files : list DirEntry) (k : string) (direction : Direction)
    (init : string) : string :=
  match files with
  | [] => init
  | entry :: rest =>
      lastScript rest k direction (default init (scriptOf k direction entry))
  end.

Definition noSemicolon (s : string) : bool :=
  allChars (fun c => negb (Ascii.eqb c ";")) s.

(** A name of a directory entry holds no [/]. *)
Definition noSlash (s : string) : bool :=
  allChars (fun c => negb (Ascii.eqb c "/")) s.

(** The directory holds a regular file of that path and content. *)
Definition written (directory : string) (files : list DirEntry)
    (file : string * string) : Prop :=
  ∃ entry, entry ∈ files ∧ IsDir entry = false
           ∧ filepath_Join directory (Name entry) = fst file
           ∧ content entry = Some (snd file).

(** ** Runs for the further properties *)

(** A migration whose scripts are refused. *)
Definition refusedMigration : Migration :=
  mkMigration "20230104150000_refused" "migrations/20230104150000_refused.up.sql"
    "FAIL on purpose;" "FAIL on purpose;" "53c319da7c4fe542680c3561068587fe" 0%Z.

Definition upTwice : World (list string) * result Error unit :=
  migration.Up journalExec "migrations" usersAndPosts (fst upUsersAndPosts).

Definition downBoth : World (list string) * result Error unit :=
  migration.Down journalExec "migrations" usersAndPosts 2 (fst upUsersAndPosts).

Definition statusUsers : World (list string) * result Error unit :=
  migration.Status "migrations" usersAndPosts
    (recordedUsers "1cbf067882e4b7871949ea0fda77e1f9").

Definition downUnreadable : World (list string) * result Error unit :=
  migration.Down journalExec "migrations" DirUnreadable 3 (worldWith []).

Definition downNoLedger : World (list string) * result Error unit :=
  migration.Down journalExec "migrations" usersAndPosts 1 emptyWorld.

Definition downCommand : World (list string) * result cli.CmdError unit :=
  cli.migrateDownCmd journalExec "migrations" usersAndPosts ["+1"; "ignored"]
    (worldWith ledgerPostsUsers).

(** A directory with a down script and no up script. *)
Definition downAlone : list DirEntry :=
  [ file "20230101120000_create_users.down.sql" "DROP TABLE users;" ].

(** The files of [create "Add Users"] and a directory that holds them. *)
Definition createdFiles : list (string * string) :=
  generator.GenerateMigrationFiles "migrations" "Add Users" "20240101120000"
    "2024-01-01 12:00:00" "2024-01-01 12:00:01".

Definition createdDirectory : list DirEntry :=
  [ file "20240101120000_add_users.down.sql"
         (generator.downTemplate "Add Users" "2024-01-01 12:00:01");
    file "20240101120000_add_users.up.sql"
         (generator.upTemplate "Add Users" "2024-01-01 12:00:00") ].

(** A configuration with nothing set but the driver. *)
Definition driverOnly (driver : string) : config.Config :=
  config.mkConfig (config.mkDatabaseConfig driver "" 0 "" "" "" "")
    (config.mkMigrationConfig "" "") (config.mkBackupConfig "" false 0)
    (config.mkSeedConfig "") false.

Definition answering (driver dsn : string) : option connection.DialError := None.

Definition recordedThenRemoved
  : (World (list string) * result DbError unit) * (World (list string) * result DbError unit) :=
  let recorded := connection.RecordMigration "20230101120000_create_users" "x"
                    (worldWith []) in
  (recorded, connection.RemoveMigration "20230101120000_create_users" (fst recorded)).

(** * Properties *)

(** ** The loader *)

Lemma substring_0_app (a b : string) :
  substring 0 (String.length a) (a +:+ b) = a.
Proof. induction a as [|c a IH]; simpl; [by destruct b | by rewrite IH]. Qed.

Lemma matchStem_Some stem direction timestamp name d :
  matchStem stem direction = Some (timestamp, name, d) →
  String.length timestamp = 14 ∧ d = direction.
Proof.
  unfold matchStem. intros H.
  destruct (String.length (substring 0 14 stem) =? 14)%nat eqn:Hlen; [|done].
  simpl in H. repeat (case_match; try done).
  injection H as <- <- <-. by apply Nat.eqb_eq in Hlen.
Qed.

Lemma migrationRegex_Some file timestamp name direction :
  migrationRegex file = Some (timestamp, name, direction) →
  String.length timestamp = 14.
Proof.
  unfold migrationRegex. intros H.
  repeat case_match; try done; by apply matchStem_Some in H as [? _].
Qed.

Lemma keyed_alter (f : Migration → Migration) k mp :
  (∀ m, Filename (f m) = Filename m ∧ Timestamp (f m) = Timestamp m) →
  keyed mp → keyed (alter f k mp).
Proof.
  intros Hf Hmp j m. rewrite lookup_alter. case_decide as Hk.
  - subst j. destruct (mp !! k) as [m0|] eqn:E; [|done]. simpl. intros [= <-].
    destruct (Hf m0) as [-> ->]. by apply Hmp.
  - apply Hmp.
Qed.

Lemma scanFiles_keyed directory files mp mp' :
  scanFiles directory files mp = Ok mp' → keyed mp → keyed mp'.
Proof.
  revert mp. induction files as [|file rest IH]; intros mp H Hmp; simpl in H.
  - by injection H as <-.
  - destruct (IsDir file); [by eapply IH|].
    destruct (migrationRegex (Name file)) as [[[timestamp name] direction]|] eqn:Hre;
      [|by eapply IH].
    destruct (content file) as [contentStr|]; [|done].
    eapply IH; [exact H|]. apply migrationRegex_Some in Hre.
    assert (keyed
      match mp !! (timestamp +:+ "_" +:+ name) with
      | Some _ => mp
      | None =>
          <[timestamp +:+ "_" +:+ name :=
              mkMigration (timestamp +:+ "_" +:+ name)
                (filepath_Join directory (Name file)) "" "" ""
                match GoTime.Parse timestamp with
                | Some t => t
                | None => GoTime.zero
                end]> mp
      end) as Hmp1.
    { destruct (mp !! (timestamp +:+ "_" +:+ name)) eqn:E; [done|].
      intros j m. rewrite lookup_insert. case_decide as Hk.
      - subst j. intros [= <-]. simpl. split; [done|].
        unfold parsedTimeOf. by rewrite <- Hre, substring_0_app.
      - apply Hmp. }
    destruct direction; by apply keyed_alter.
Qed.

Lemma scanFiles_keeps directory files mp mp' k :
  scanFiles directory files mp = Ok mp' → is_Some (mp !! k) → is_Some (mp' !! k).
Proof.
  revert mp. induction files as [|file rest IH]; intros mp H Hk; simpl in H.
  - by injection H as <-.
  - destruct (IsDir file); [by eapply IH|].
    destruct (migrationRegex (Name file)) as [[[timestamp name] direction]|];
      [|by eapply IH].
    destruct (content file) as [contentStr|]; [|done].
    eapply IH; [exact H|].
    assert (∀ (f : Migration → Migration) j (m0 : gmap string Migration),
              is_Some (m0 !! k) → is_Some (alter f j m0 !! k)) as Halter.
    { intros f j m0 [x Hx]. rewrite lookup_alter. case_decide; [subst|]; rewrite Hx; eauto. }
    destruct direction; apply Halter;
      (destruct (mp !! (timestamp +:+ "_" +:+ name)) eqn:E; [done|];
       rewrite lookup_insert; case_decide; eauto).
Qed.

Lemma scanFiles_has directory files mp mp' file timestamp name direction :
  scanFiles directory files mp = Ok mp' →
  file ∈ files → IsDir file = false →
  migrationRegex (Name file) = Some (timestamp, name, direction) →
  is_Some (mp' !! (timestamp +:+ "_" +:+ name)).
Proof.
  revert mp. induction files as [|file0 rest IH]; intros mp H Hin Hdir Hre.
  - by apply elem_of_nil in Hin.
  - apply elem_of_cons in Hin as [<-|Hin].
    + simpl in H. rewrite Hdir, Hre in H.
      destruct (content file) as [contentStr|]; [|done].
      eapply scanFiles_keeps; [exact H|].
      assert (∀ (f : Migration → Migration) (m0 : gmap string Migration),
                is_Some (m0 !! (timestamp +:+ "_" +:+ name)) →
                is_Some (alter f (timestamp +:+ "_" +:+ name) m0
                           !! (timestamp +:+ "_" +:+ name))) as Halter.
      { intros f m0 [x Hx]. rewrite lookup_alter. rewrite decide_True by done.
        rewrite Hx. eauto. }
      destruct direction; apply Halter;
        (destruct (mp !! (timestamp +:+ "_" +:+ name)) eqn:E; [by rewrite E|];
         rewrite lookup_insert_eq; eauto).
    + simpl in H. destruct (IsDir file0); [by eapply IH|].
      destruct (migrationRegex (Name file0)) as [[[timestamp0 name0] direction0]|];
        [|by eapply IH].
      destruct (content file0) as [contentStr|]; [|done].
      by eapply IH.
Qed.

Lemma checkAll_spec entries acc migrations :
  checkAll entries acc = Ok migrations →
  migrations
  = acc ++ map (fun e => set_Checksum (generateChecksum (Up (snd e))) (snd e)) entries.
Proof.
  revert acc. induction entries as [|[k m] rest IH]; intros acc H; simpl in H.
  - injection H as <-. by rewrite app_nil_r.
  - destruct (Up m =? "")%string; [done|].
    apply IH in H. rewrite H, <- app_assoc. done.
Qed.

Lemma insertSorted_Permutation {A} (less : A → A → bool) x l :
  insertSorted less x l ≡ₚ x :: l.
Proof.
  induction l as [|y l IH]; simpl; [done|].
  destruct (less x y); [done|]. rewrite IH. apply Permutation_swap.
Qed.

Lemma sort_Slice_Permutation {A} (less : A → A → bool) l :
  sort_Slice less l ≡ₚ l.
Proof.
  unfold sort_Slice.
  enough (∀ acc, fold_left (fun acc x => insertSorted less x acc) l acc ≡ₚ acc ++ l)
    as H by apply (H []).
  induction l as [|x l IH]; intros acc; simpl.
  - by rewrite app_nil_r.
  - rewrite IH, insertSorted_Permutation. simpl. apply Permutation_middle.
Qed.

Lemma insertSorted_ascending x l :
  ascending l → ascending (insertSorted lessTimestamp x l).
Proof.
  unfold ascending. induction 1 as [|y l Hl IH Hy]; simpl.
  - repeat constructor.
  - unfold lessTimestamp at 1, GoTime.Before. destruct (Z.ltb_spec (Timestamp x) (Timestamp y)).
    + constructor; [by constructor|]. constructor; [lia|].
      eapply List.Forall_impl; [|exact Hy]. simpl. intros; lia.
    + constructor; [done|].
      apply List.Forall_forall. intros z Hz. apply list_elem_of_In in Hz.
      rewrite insertSorted_Permutation in Hz. apply elem_of_cons in Hz as [->|Hz]; [done|].
      rewrite List.Forall_forall in Hy. apply Hy. by apply list_elem_of_In.
Qed.

Lemma sort_Slice_ascending l : ascending (sort_Slice lessTimestamp l).
Proof.
  unfold sort_Slice.
  enough (∀ acc, ascending acc →
            ascending (fold_left (fun acc x => insertSorted lessTimestamp x acc) l acc))
    as H by (apply H; constructor).
  induction l as [|x l IH]; intros acc Hacc; simpl; [done|].
  by apply IH, insertSorted_ascending.
Qed.

(** In an ascending list an element with a smaller timestamp stands before
    one with a larger. *)
Lemma ascending_positions ms i j (m m' : Migration) :
  ascending ms → ms !! i = Some m → ms !! j = Some m' →
  (Timestamp m < Timestamp m')%Z → i < j.
Proof.
  unfold ascending. intros Hs. revert i j. induction Hs as [|x l Hl IH Hx]; intros i j Hi Hj Hlt.
  - done.
  - destruct i as [|i], j as [|j]; simpl in *.
    + injection Hi as <-. injection Hj as <-. lia.
    + lia.
    + injection Hj as <-. rewrite List.Forall_forall in Hx.
      assert (Timestamp x <= Timestamp m)%Z.
      { apply Hx, list_elem_of_In. by eapply list_elem_of_lookup_2. }
      lia.
    + apply (IH i j) in Hlt; [lia|done..].
Qed.

(** What a successful load returns: the records of [migrationMap] with
    their checksums, in ascending timestamps. *)
Lemma LoadMigrations_spec directory files ms :
  LoadMigrations directory (DirFiles files) = Ok ms →
  ∃ mp, scanFiles directory files ∅ = Ok mp
        ∧ keyed mp
        ∧ ms ≡ₚ map (fun e => set_Checksum (generateChecksum (Up (snd e))) (snd e))
                    (map_to_list mp)
        ∧ ascending ms.
Proof.
  unfold LoadMigrations. intros H.
  destruct (scanFiles directory files ∅) as [mp|] eqn:Hscan; [|done].
  destruct (checkAll (map_to_list mp) []) as [migrations|] eqn:Hcheck; [|done].
  injection H as <-. exists mp. split; [done|]. split.
  - eapply scanFiles_keyed; [exact Hscan|]. intros k m. by rewrite lookup_empty.
  - split; [|apply sort_Slice_ascending].
    rewrite sort_Slice_Permutation. by apply checkAll_spec in Hcheck as ->.
Qed.

Lemma LoadMigrations_elem directory dir ms m :
  LoadMigrations directory dir = Ok ms → m ∈ ms →
  Checksum m = generateChecksum (Up m) ∧ Timestamp m = parsedTimeOf (Filename m).
Proof.
  destruct dir as [| |files]; simpl.
  - intros [= <-] Hm. by apply elem_of_nil in Hm.
  - done.
  - intros H Hm. apply LoadMigrations_spec in H as (mp & _ & Hkeyed & Hperm & _).
    rewrite Hperm in Hm. apply list_elem_of_fmap in Hm as ([k m0] & -> & Hin).
    apply elem_of_map_to_list in Hin. apply Hkeyed in Hin as [<- Hts]. simpl. done.
Qed.

Lemma LoadMigrations_ascending directory dir ms :
  LoadMigrations directory dir = Ok ms → ascending ms.
Proof.
  destruct dir as [| |files]; simpl.
  - intros [= <-]. constructor.
  - done.
  - intros H. by apply LoadMigrations_spec in H as (mp & _ & _ & _ & Hasc).
Qed.

(** One record an identity. *)
Lemma LoadMigrations_NoDup directory dir ms :
  LoadMigrations directory dir = Ok ms → NoDup (map Filename ms).
Proof.
  destruct dir as [| |files]; simpl.
  - intros [= <-]. constructor.
  - done.
  - intros H. apply LoadMigrations_spec in H as (mp & _ & Hkeyed & Hperm & _).
    rewrite Hperm. rewrite <- list_fmap_compose.
    erewrite list_fmap_ext; [apply (NoDup_fst_map_to_list mp)|].
    intros i [k m] Hi. simpl.
    apply list_elem_of_lookup_2, elem_of_map_to_list in Hi. by apply Hkeyed in Hi as [-> _].
Qed.

(** ** The pending set *)

Lemma isApplied_fold (applied : list string) (s : gmap string bool) (name : string) :
  isApplied (fold_left (fun acc a => <[a := true]> acc) applied s) name
  = isApplied s name || bool_decide (name ∈ applied).
Proof.
  revert s. induction applied as [|a applied IH]; intros s; cbn [fold_left].
  - rewrite (bool_decide_eq_false_2 (name ∈ [])); [by rewrite orb_false_r|].
    apply not_elem_of_nil.
  - rewrite IH. unfold isApplied. destruct (decide (a = name)) as [->|Hne].
    + rewrite lookup_insert_eq. cbn [default].
      rewrite (bool_decide_eq_true_2 (name ∈ name :: applied)) by apply list_elem_of_here.
      by rewrite orb_true_r.
    + rewrite lookup_insert_ne by done.
      destruct (default false (s !! name)); cbn [orb]; [done|].
      apply bool_decide_ext. rewrite elem_of_cons.
      split; [by right|]. by intros [?|?].
Qed.

Lemma isApplied_spec (applied : list string) (name : string) :
  isApplied (appliedSetOf applied) name = bool_decide (name ∈ applied).
Proof. unfold appliedSetOf. rewrite isApplied_fold. unfold isApplied. by rewrite lookup_empty. Qed.

Lemma GetPending_fold (ms : list Migration) (applied : list string) (acc : list Migration) :
  fold_left
    (fun pending migration =>
       if negb (isApplied (appliedSetOf applied) (Filename migration))
       then pending ++ [migration] else pending) ms acc
  = acc ++ filter (fun m => Filename m ∉ applied) ms.
Proof.
  revert acc. induction ms as [|m ms IH]; intros acc; cbn [fold_left].
  - by rewrite filter_nil, app_nil_r.
  - rewrite IH, isApplied_spec, filter_cons.
    destruct (decide (Filename m ∉ applied)) as [Hn|Hn].
    + rewrite bool_decide_eq_false_2 by done. simpl. by rewrite <- app_assoc.
    + rewrite bool_decide_eq_true_2; [done|]. by apply dec_stable.
Qed.

Lemma GetPending_filter (ms : MigrationSet) (applied : list string) :
  GetPending ms applied = filter (fun m => Filename m ∉ applied) ms.
Proof. unfold GetPending. by rewrite GetPending_fold. Qed.

Lemma ascending_sublist (l k : list Migration) :
  sublist l k → ascending k → ascending l.
Proof.
  unfold ascending. intros Hsub Hk. revert l Hsub.
  induction Hk as [|x k Hk IH Hx]; intros l Hsub.
  - apply sublist_nil_r in Hsub as ->. constructor.
  - destruct l as [|y l]; [constructor|].
    apply sublist_cons_r in Hsub as [Hsub|(l' & Heq & Hsub)].
    + by apply IH.
    + injection Heq as -> ->. constructor; [by apply IH|].
      apply List.Forall_forall. intros z Hz. rewrite List.Forall_forall in Hx.
      apply Hx. apply list_elem_of_In. apply list_elem_of_In in Hz.
      eapply sublist_subseteq; eauto.
Qed.

(** C1. [GetPending] returns the migrations of the set whose identity does
    not occur in the applied list, in the order of the set: in ascending
    timestamps when the set is, as every set [LoadMigrations] returns; a
    migration older than an applied one is pending all the same when its own
    identity was never recorded. *)
Theorem GetPending_is_set_difference (ms : MigrationSet) (applied : list string) :
  GetPending ms applied = filter (fun m => Filename m ∉ applied) ms
  ∧ (ascending ms → ascending (GetPending ms applied))
  ∧ (∀ directory dir,
       LoadMigrations directory dir = Ok ms → ascending (GetPending ms applied))
  ∧ (∀ m a, m ∈ ms → a ∈ ms → Filename a ∈ applied → Filename m ∉ applied →
            (Timestamp m < Timestamp a)%Z → m ∈ GetPending ms applied).
Proof.
  rewrite GetPending_filter. split; [done|].
  assert (ascending ms → ascending (filter (fun m => Filename m ∉ applied) ms)) as Hasc
    by apply ascending_sublist, sublist_filter.
  split; [done|]. split.
  - intros directory dir Hload. by apply Hasc, (LoadMigrations_ascending directory dir).
  - intros m a Hm _ _ Hn _. apply list_elem_of_filter. done.
Qed.

(** ** The checksum *)








(** ** Splitting a script *)

Lemma Split_not_nil (s : string) (sep : ascii) : GoStrings.Split s sep ≠ [].
Proof. destruct s as [|c s]; simpl; [done|]. destruct (Ascii.eqb c sep); [done|]. by destruct (GoStrings.Split s sep). Qed.

Lemma Split_concat (s : string) (sep : ascii) :
  String.concat (String sep "") (GoStrings.Split s sep) = s.
Proof.
  induction s as [|c s IH]; simpl; [done|].
  destruct (Ascii.eqb_spec c sep) as [->|Hne].
  - pose proof (Split_not_nil s sep) as Hnil.
    simpl. destruct (GoStrings.Split s sep) as [|h t] eqn:E; [done|].
    by rewrite IH.
  - destruct (GoStrings.Split s sep) as [|h t] eqn:E; [by apply Split_not_nil in E|].
    rewrite <- IH. cbn [String.concat]. by destruct t.
Qed.

Lemma Split_no_sep (s : string) (sep : ascii) :
  Forall (fun piece => sep ∉ list_ascii_of_string piece) (GoStrings.Split s sep).
Proof.
  induction s as [|c s IH]; simpl.
  - constructor; [apply not_elem_of_nil|constructor].
  - destruct (Ascii.eqb_spec c sep) as [->|Hne].
    + constructor; [apply not_elem_of_nil|done].
    + destruct (GoStrings.Split s sep) as [|h t] eqn:E; [by apply Split_not_nil in E|].
      apply Forall_cons in IH as [Hh Ht]. constructor; [|done].
      simpl. rewrite not_elem_of_cons. split; [congruence|done].
Qed.

(** ** The engine *)

Section EngineProperties.

Context {Tables : Type}.
Variable exec_stmt : string -> Tables -> option Tables.

Local Abbreviation Database := (Database Tables).
Local Abbreviation World := (World Tables).
Local Abbreviation M := (M Tables).
Local Abbreviation txExec := (@txExec Tables).
Local Abbreviation applyMigration := (migration.applyMigration exec_stmt).
Local Abbreviation rollbackMigration := (migration.rollbackMigration exec_stmt).
Local Abbreviation execStatements := (migration.execStatements exec_stmt).
Local Abbreviation runStatement := (migration.runStatement exec_stmt).
Local Abbreviation applyAll := (migration.applyAll exec_stmt).
Local Abbreviation rollbackFrom := (migration.rollbackFrom exec_stmt).
Local Abbreviation insertRow := (@migration.insertRow Tables).
Local Abbreviation deleteRow := (@migration.deleteRow Tables).
Local Abbreviation execList := (execList exec_stmt).
Local Abbreviation inTransaction := (inTransaction exec_stmt).

(** *** The calls on the database, one by one *)

Lemma roundTrip_inv (w w1 : World) fault :
  roundTrip w = (fault, w1) →
  w1 = mkWorld (committed w) (tx w) (log w) (tail (faults w)).
Proof.
  unfold roundTrip. destruct w as [c t l [|b r]]; simpl; by intros [= <- <-].
Qed.

Lemma Begin_inv (w w' : World) r :
  Begin w = (w', r) →
  match r with
  | Ok _ => w' = mkWorld (committed w) (Some (committed w)) (log w ++ [Done OpBegin])
                         (tail (faults w))
  | Err _ => w' = mkWorld (committed w) (tx w) (log w ++ [Failed OpBegin])
                          (tail (faults w))
  end.
Proof.
  unfold Begin. destruct (roundTrip w) as [fault w1] eqn:Hrt.
  apply roundTrip_inv in Hrt as ->. destruct fault; by intros [= <- <-].
Qed.

Lemma txExec_inv op run (w w' : World) r :
  txExec op run w = (w', r) →
  match r with
  | Ok _ => ∃ d d', tx w = Some d ∧ run d = Ok d'
                    ∧ w' = mkWorld (committed w) (Some d') (log w ++ [Done op])
                                   (tail (faults w))
  | Err e => (tx w = None ∧ w' = w ∧ e = ErrTxDone)
             ∨ (∃ d, tx w = Some d
                     ∧ w' = mkWorld (committed w) (Some d) (log w ++ [Failed op])
                                    (tail (faults w)))
  end.
Proof.
  unfold database.txExec. destruct (tx w) as [d|] eqn:Htx.
  - destruct (roundTrip w) as [fault w1] eqn:Hrt.
    apply roundTrip_inv in Hrt as ->. destruct fault.
    + intros [= <- <-]. right. exists d. by rewrite Htx.
    + destruct (run d) as [d'|e] eqn:Hrun; intros [= <- <-].
      * by exists d, d'.
      * right. exists d. by rewrite Htx.
  - intros [= <- <-]. by left.
Qed.

Lemma Commit_inv (w w' : World) r :
  Commit w = (w', r) →
  match r with
  | Ok _ => ∃ d, tx w = Some d
                 ∧ w' = mkWorld d None (log w ++ [Done OpCommit]) (tail (faults w))
  | Err e => (tx w = None ∧ w' = w)
             ∨ (∃ d, tx w = Some d
                     ∧ w' = mkWorld (committed w) None (log w ++ [Failed OpCommit])
                                    (tail (faults w)))
  end.
Proof.
  unfold Commit. destruct (tx w) as [d|] eqn:Htx.
  - destruct (roundTrip w) as [fault w1] eqn:Hrt.
    apply roundTrip_inv in Hrt as ->. destruct fault; intros [= <- <-].
    + right. by exists d.
    + by exists d.
  - intros [= <- <-]. by left.
Qed.

Lemma Rollback_inv (w : World) :
  match tx w with
  | None => Rollback w = w
  | Some _ => Rollback w = mkWorld (committed w) None (log w ++ [Done OpRollback]) (faults w)
  end.
Proof. unfold Rollback. by destruct (tx w). Qed.

(** *** The statements of a script *)

Lemma execStatements_execList (chunks : list string) (w : World) :
  execStatements chunks w
  = execList (List.filter keepStatement (map GoStrings.TrimSpace chunks)) w.
Proof.
  revert w. induction chunks as [|chunk chunks IH]; intros w; simpl; [done|].
  unfold keepStatement at 1.
  destruct (String.eqb (GoStrings.TrimSpace chunk) ""
            || GoStrings.HasPrefix (GoStrings.TrimSpace chunk) "--"); simpl; [done|].
  unfold bind. destruct (wrap _ _ w) as [w1 [[]|e]]; [apply IH|done].
Qed.

(** The outcome of the loop: all the statements done, or some done, then
    one failed and nothing further. The committed database is as it was;
    the transaction's ledger too. *)
Lemma execList_inv (stmts : list string) (w w' : World) r d :
  execList stmts w = (w', r) → tx w = Some d →
  ∃ d' fl, ledger d' = ledger d ∧
    match r with
    | Ok _ =>
        w' = mkWorld (committed w) (Some d') (log w ++ execEvents stmts) fl
    | Err e =>
        ∃ done stmt e0 rest,
          e = ErrExecStatement stmt e0 ∧ stmts = done ++ stmt :: rest
          ∧ w' = mkWorld (committed w) (Some d')
                   (log w ++ execEvents done ++ [Failed (OpExec stmt)]) fl
    end.
Proof.
  revert w d. induction stmts as [|stmt rest IH]; intros w d H Htx; simpl in H.
  - injection H as <- <-. exists d, (faults w). split; [done|].
    destruct w. simpl in *. subst. by rewrite app_nil_r.
  - unfold bind, wrap in H.
    destruct (txExec (OpExec stmt) (runStatement stmt) w) as [w1 [[]|e]] eqn:Hexec;
      apply txExec_inv in Hexec.
    + destruct Hexec as (d0 & d1 & Hd0 & Hrun & ->).
      rewrite Htx in Hd0. injection Hd0 as <-.
      apply (IH _ d1) in H; [|done]. destruct H as (d' & fl & Hled & Hr). simpl in *.
      exists d', fl. split.
      * rewrite Hled. unfold migration.runStatement in Hrun.
        destruct (exec_stmt stmt (tables d)); [|done]. by injection Hrun as <-.
      * destruct r as [[]|e].
        -- rewrite Hr. by rewrite <- app_assoc.
        -- destruct Hr as (done & stmt' & e0 & rest' & -> & -> & ->).
           exists (stmt :: done), stmt', e0, rest'. split; [done|]. split; [done|].
           by rewrite <- app_assoc.
    + injection H as <- <-.
      destruct Hexec as [(Hnone & _)|(d0 & Hd0 & ->)]; [congruence|].
      rewrite Htx in Hd0. injection Hd0 as <-.
      exists d, (tail (faults w)). split; [done|].
      by exists [], stmt, e, rest.
Qed.

(** *** One migration in its transaction *)

Lemma applyMigration_inTransaction (m : Migration) :
  applyMigration m
  = inTransaction (Up m) (OpInsert (Filename m) (Checksum m))
                  (insertRow (Filename m) (Checksum m)) ErrRecord.
Proof. reflexivity. Qed.

Lemma rollbackMigration_inTransaction (m : Migration) :
  rollbackMigration m
  = inTransaction (Down m) (OpDelete (Filename m)) (deleteRow (Filename m))
                  ErrRemoveRecord.
Proof. reflexivity. Qed.

Lemma inTransaction_inv script op run wrapErr (w w' : World) r :
  inTransaction script op run wrapErr w = (w', r) →
  match r with
  | Ok _ =>
      ∃ d1 d2 fl,
        ledger d1 = ledger (committed w) ∧ run d1 = Ok d2
        ∧ w' = mkWorld d2 None
                 (log w ++ [Done OpBegin] ++ execEvents (statementsOf script)
                        ++ [Done op; Done OpCommit]) fl
  | Err e =>
      ∃ evs, TxOutcome script op wrapErr e evs
             ∧ committed w' = committed w
             ∧ log w' = log w ++ evs
             ∧ (tx w = None → tx w' = None)
  end.
Proof.
  unfold inTransaction, bind at 1, wrap at 1.
  destruct (Begin w) as [w1 [[]|e]] eqn:Hbegin; apply Begin_inv in Hbegin; subst w1.
  2:{ intros [= <- <-]. eexists. split; [constructor|]. done. }
  unfold deferRollback, bind at 1. rewrite execStatements_execList.
  fold (statementsOf script).
  destruct (execList _ _) as [w2 r2] eqn:Hexec.
  eapply execList_inv in Hexec; [|reflexivity].
  destruct Hexec as (d1 & fl & Hled & Hw2). simpl in Hled, Hw2.
  destruct r2 as [[]|e2].
  2:{ destruct Hw2 as (done & stmt & e0 & rest & -> & Hst & ->).
      intros [= <- <-]. simpl. eexists. split; [by eapply StatementFailed|].
      simpl. rewrite <- !app_assoc. done. }
  subst w2. unfold bind at 1, wrap at 1.
  destruct (txExec op run _) as [w3 [[]|e3]] eqn:Hop; apply txExec_inv in Hop; simpl in Hop.
  2:{ destruct Hop as [(? & _)|(d & [= <-] & ->)]; [done|].
      intros [= <- <-]. simpl. eexists. split; [by eapply LedgerFailed|].
      simpl. rewrite <- !app_assoc. done. }
  destruct Hop as (d & d2 & [= <-] & Hrun & ->).
  unfold wrap. destruct (Commit _) as [w4 [[]|e4]] eqn:Hcommit;
    apply Commit_inv in Hcommit; simpl in Hcommit.
  - destruct Hcommit as (d & [= <-] & ->). intros [= <- <-]. simpl.
    exists d1, d2, (tail (tail fl)). split; [done|]. split; [done|].
    rewrite <- !app_assoc. done.
  - destruct Hcommit as [(? & _)|(d & [= <-] & ->)]; [done|].
    intros [= <- <-]. simpl. eexists. split; [by eapply CommitFailed|].
    simpl. rewrite <- !app_assoc. done.
Qed.

(** *** The ledger rows *)

Lemma insertRow_inv filename checksum (d d' : Database) :
  insertRow filename checksum d = Ok d' →
  ∃ rows, ledger d = Some rows ∧ (filename ∉ map row_filename rows)
          ∧ d' = mkDatabase (tables d) (Some (rows ++ [mkRow filename checksum])).
Proof.
  unfold migration.insertRow. destruct (ledger d) as [rows|]; [|done].
  destruct (existsb _ rows) eqn:Hex; [done|]. intros [= <-].
  exists rows. split; [done|]. split; [|done].
  intros Hin. apply list_elem_of_fmap in Hin as (r & -> & Hr).
  apply not_true_iff_false in Hex. apply Hex, existsb_exists.
  exists r. split; [by apply list_elem_of_In|]. apply String.eqb_refl.
Qed.

Lemma deleteRow_inv filename (d d' : Database) :
  deleteRow filename d = Ok d' →
  ∃ rows, ledger d = Some rows
          ∧ d' = mkDatabase (tables d)
                   (Some (List.filter
                            (fun r => negb (String.eqb (row_filename r) filename)) rows)).
Proof.
  unfold migration.deleteRow. destruct (ledger d) as [rows|]; [|done].
  intros [= <-]. by exists rows.
Qed.

Lemma delete_absent filename (rows : list LedgerRow) :
  filename ∉ map row_filename rows →
  List.filter (fun r => negb (String.eqb (row_filename r) filename)) rows = rows.
Proof.
  induction rows as [|r rows IH]; simpl; [done|]. intros Hn.
  rewrite not_elem_of_cons in Hn. destruct Hn as [Hne Hn].
  destruct (String.eqb_spec (row_filename r) filename); [congruence|].
  simpl. by rewrite IH.
Qed.

Lemma delete_appended filename checksum (rows : list LedgerRow) :
  filename ∉ map row_filename rows →
  List.filter (fun r => negb (String.eqb (row_filename r) filename))
              (rows ++ [mkRow filename checksum]) = rows.
Proof.
  intros Hn. rewrite List.filter_app, delete_absent by done. simpl.
  rewrite String.eqb_refl. simpl. by rewrite app_nil_r.
Qed.

(** C7. A migration applied and then rolled back, both with success: the
    identity was not in the ledger, the apply appended its row, and after
    the rollback the ledger is the one before the apply, row for row. *)
Theorem apply_then_rollback_restores_ledger (m : Migration) (w w1 w2 : World) :
  applyMigration m w = (w1, Ok tt) →
  rollbackMigration m w1 = (w2, Ok tt) →
  ∃ rows,
    ledger (committed w) = Some rows
    ∧ (Filename m ∉ map row_filename rows)
    ∧ ledger (committed w1) = Some (rows ++ [mkRow (Filename m) (Checksum m)])
    ∧ ledger (committed w2) = Some rows
    ∧ tx w2 = None.
Proof.
  rewrite applyMigration_inTransaction, rollbackMigration_inTransaction.
  intros Happly Hback.
  apply inTransaction_inv in Happly as (d1 & d2 & fl & Hled & Hins & ->).
  apply inTransaction_inv in Hback as (d3 & d4 & fl' & Hled' & Hdel & ->).
  apply insertRow_inv in Hins as (rows & Hrows & Hn & ->).
  apply deleteRow_inv in Hdel as (rows' & Hrows' & ->).
  simpl in *. rewrite Hled' in Hrows'. injection Hrows' as <-.
  exists rows. rewrite <- Hled. split; [done|]. split; [done|]. split; [done|].
  by rewrite delete_appended.
Qed.

(** *** [Up] *)

Lemma CreateMigrationsTable_inv (w w' : World) r :
  CreateMigrationsTable w = (w', r) →
  match r with
  | Ok _ =>
      w' = mkWorld (mkDatabase (tables (committed w))
                      (Some (default [] (ledger (committed w)))))
                   (tx w) (log w ++ [Done OpCreateMigrationsTable]) (tail (faults w))
  | Err _ =>
      w' = mkWorld (committed w) (tx w) (log w ++ [Failed OpCreateMigrationsTable])
                   (tail (faults w))
  end.
Proof.
  unfold CreateMigrationsTable. destruct (roundTrip w) as [fault w1] eqn:Hrt.
  apply roundTrip_inv in Hrt as ->. destruct fault; intros [= <- <-]; [done|].
  simpl. by destruct (ledger (committed w)).
Qed.

Lemma GetAppliedMigrations_inv (w w' : World) r :
  GetAppliedMigrations w = (w', r) →
  match r with
  | Ok applied =>
      ∃ rows, ledger (committed w) = Some rows ∧ applied = map row_filename rows
              ∧ w' = mkWorld (committed w) (tx w)
                       (log w ++ [Done OpGetAppliedMigrations]) (tail (faults w))
  | Err _ =>
      w' = mkWorld (committed w) (tx w) (log w ++ [Failed OpGetAppliedMigrations])
                   (tail (faults w))
  end.
Proof.
  unfold GetAppliedMigrations. destruct (roundTrip w) as [fault w1] eqn:Hrt.
  apply roundTrip_inv in Hrt as ->. destruct fault; [by intros [= <- <-]|].
  simpl. destruct (ledger (committed w)) as [rows|]; intros [= <- <-]; [|done].
  by exists rows.
Qed.

Lemma applyMigration_Ok (m : Migration) (w w' : World) :
  applyMigration m w = (w', Ok tt) →
  tx w' = None
  ∧ (Filename m ∉ appliedOf (committed w))
  ∧ appliedOf (committed w') = appliedOf (committed w) ++ [Filename m]
  ∧ log w' = log w ++ [Done OpBegin] ++ execEvents (statementsOf (Up m))
                   ++ [Done (OpInsert (Filename m) (Checksum m)); Done OpCommit].
Proof.
  rewrite applyMigration_inTransaction. intros H.
  apply inTransaction_inv in H as (d1 & d2 & fl & Hled & Hins & ->).
  apply insertRow_inv in Hins as (rows & Hrows & Hn & ->).
  unfold appliedOf. simpl. rewrite <- Hled, Hrows.
  by rewrite map_app.
Qed.

Lemma applyMigration_Err (m : Migration) (w w' : World) e :
  applyMigration m w = (w', Err e) →
  committed w' = committed w ∧ (tx w = None → tx w' = None)
  ∧ ∃ evs, log w' = log w ++ evs
           ∧ TxOutcome (Up m) (OpInsert (Filename m) (Checksum m)) ErrRecord e evs.
Proof.
  rewrite applyMigration_inTransaction. intros H.
  apply inTransaction_inv in H as (evs & Hout & Hc & Hlog & Htx). eauto.
Qed.

(** The loop of [Up]: all applied, or some applied and committed, then one
    failed and the loop left. *)
Lemma applyAll_inv (pending : list Migration) (w w' : World) r :
  applyAll pending w = (w', r) →
  match r with
  | Ok _ =>
      (tx w = None → tx w' = None)
      ∧ appliedOf (committed w') = appliedOf (committed w) ++ map Filename pending
  | Err e =>
      ∃ pre m rest w1 te,
        pending = pre ++ m :: rest ∧ e = ErrApplyMigration (Filename m) te
        ∧ applyAll pre w = (w1, Ok tt)
        ∧ applyMigration m w1 = (w', Err te)
  end.
Proof.
  revert w. induction pending as [|m rest IH]; intros w H.
  - injection H as <- <-. by rewrite app_nil_r.
  - cbn [migration.applyAll] in H. unfold bind at 1, wrap at 1 in H.
    destruct (applyMigration m w) as [w1 [[]|te]] eqn:Hm.
    + unfold bind at 1, print at 1 in H.
      pose proof (applyMigration_Ok _ _ _ Hm) as (Htx & _ & Happ & _).
      apply IH in H. destruct r as [[]|e].
      * destruct H as [Htx' Happ']. split; [by intros; apply Htx'|].
        rewrite Happ'. simpl. rewrite Happ, <- app_assoc. done.
      * destruct H as (pre & m' & rest' & w2 & te & -> & -> & Hpre & Hm').
        exists (m :: pre), m', rest', w2, te. split; [done|]. split; [done|].
        split; [|done]. cbn [migration.applyAll]. unfold bind at 1, wrap at 1.
        rewrite Hm. unfold bind at 1, print at 1. done.
    + injection H as <- <-. by exists [], m, rest, w, te.
Qed.

Lemma Up_statement_failure directory dir (w w' : World) f te :
  migration.Up exec_stmt directory dir w = (w', Err (ErrApplyMigration f te)) →
  ∃ ms pre m rest w0 w1,
    LoadMigrations directory dir = Ok ms
    ∧ GetPending ms (appliedOf (committed w)) = pre ++ m :: rest
    ∧ Filename m = f
    ∧ tx w0 = tx w
    ∧ appliedOf (committed w0) = appliedOf (committed w)
    ∧ applyAll pre w0 = (w1, Ok tt)
    ∧ applyMigration m w1 = (w', Err te).
Proof.
  unfold migration.Up, bind at 1, wrap at 1.
  destruct (CreateMigrationsTable w) as [wa [[]|ea]] eqn:Hcreate; [|done].
  apply CreateMigrationsTable_inv in Hcreate. subst wa.
  unfold bind at 1, lift at 1.
  destruct (LoadMigrations directory dir) as [ms|el] eqn:Hload; [|done].
  unfold bind at 1, wrap at 1.
  destruct (GetAppliedMigrations _) as [wb [applied|eb]] eqn:Hget; [|done].
  apply GetAppliedMigrations_inv in Hget as (rows & Hrows & -> & ->).
  simpl in Hrows. injection Hrows as <-.
  assert (map row_filename (default [] (ledger (committed w))) = appliedOf (committed w))
    as Happlied by (unfold appliedOf; by destruct (ledger (committed w))).
  rewrite Happlied.
  destruct (length (GetPending ms (appliedOf (committed w))) =? 0)%nat; [done|].
  unfold bind at 1, print at 1, bind at 1.
  destruct (applyAll _ _) as [wc [[]|ec]] eqn:Hall; [done|].
  intros [= <- ->]. apply applyAll_inv in Hall.
  destruct Hall as (pre & m & rest & w1 & te' & Hpending & [= -> ->] & Hpre & Hm).
  exists ms, pre, m, rest. eexists. exists w1.
  split; [done|]. split; [done|]. split; [done|].
  split; [|split; [|split; [exact Hpre|exact Hm]]]; [done|].
  unfold appliedOf at 1. simpl. done.
Qed.

(** *** [Down] *)

Lemma rolledBack_app (evs1 evs2 : list Event) :
  rolledBack (evs1 ++ evs2) = rolledBack evs1 ++ rolledBack evs2.
Proof.
  induction evs1 as [|e evs1 IH]; simpl; [done|].
  destruct e as [| |[]]; simpl; by rewrite ?IH.
Qed.

Lemma rolledBack_execEvents (stmts : list string) : rolledBack (execEvents stmts) = [].
Proof. induction stmts; simpl; done. Qed.

Lemma rolledBack_TxOutcome script op wrapErr e evs :
  TxOutcome script op wrapErr e evs → rolledBack evs = [].
Proof.
  destruct 1; simpl; rewrite ?rolledBack_app, ?rolledBack_execEvents; done.
Qed.

Lemma filter_not_in_nil (l : list string) : filter (fun g => g ∉ []) l = l.
Proof.
  induction l as [|x l IH]; [done|].
  rewrite filter_cons_True by apply not_elem_of_nil. by rewrite IH.
Qed.

Lemma filter_not_in_cons (a : string) (k l : list string) :
  filter (fun g => g ∉ k) (filter (fun g => g ∉ [a]) l) = filter (fun g => g ∉ a :: k) l.
Proof.
  rewrite list_filter_filter. apply list_filter_iff. intros g.
  split.
  - intros [Hk Ha] Hin. apply elem_of_cons in Hin as [->|Hin]; [|done].
    apply Ha, list_elem_of_here.
  - intros Hn. split; intros Hin; apply Hn.
    + by apply list_elem_of_further.
    + apply elem_of_cons in Hin as [->|Hin]; [apply list_elem_of_here|].
      by apply elem_of_nil in Hin.
Qed.

Lemma deleted_filenames (a : string) (rows : list LedgerRow) :
  map row_filename
      (List.filter (fun r => negb (String.eqb (row_filename r) a)) rows)
  = filter (fun g => g ∉ [a]) (map row_filename rows).
Proof.
  induction rows as [|r rows IH]; simpl; [done|].
  rewrite filter_cons. destruct (String.eqb_spec (row_filename r) a) as [Heq|Hne]; simpl.
  - rewrite decide_False; [done|]. rewrite Heq. intros Hn. apply Hn, list_elem_of_here.
  - rewrite decide_True; [by rewrite IH|]. by rewrite list_elem_of_singleton.
Qed.

Lemma rollbackMigration_Ok (m : Migration) (w w' : World) :
  rollbackMigration m w = (w', Ok tt) →
  tx w' = None
  ∧ appliedOf (committed w')
    = filter (fun g => g ∉ [Filename m]) (appliedOf (committed w))
  ∧ log w' = log w ++ [Done OpBegin] ++ execEvents (statementsOf (Down m))
                   ++ [Done (OpDelete (Filename m)); Done OpCommit].
Proof.
  rewrite rollbackMigration_inTransaction. intros H.
  apply inTransaction_inv in H as (d1 & d2 & fl & Hled & Hdel & ->).
  apply deleteRow_inv in Hdel as (rows & Hrows & ->).
  unfold appliedOf. simpl. rewrite <- Hled, Hrows.
  by rewrite deleted_filenames.
Qed.

Lemma rollbackMigration_Err (m : Migration) (w w' : World) e :
  rollbackMigration m w = (w', Err e) →
  committed w' = committed w ∧ (tx w = None → tx w' = None)
  ∧ ∃ evs, log w' = log w ++ evs
           ∧ TxOutcome (Down m) (OpDelete (Filename m)) ErrRemoveRecord e evs.
Proof.
  rewrite rollbackMigration_inTransaction. intros H.
  apply inTransaction_inv in H as (evs & Hout & Hc & Hlog & Htx). eauto.
Qed.

(** The loop of [Down] from position [n] downwards. *)
Lemma rollbackFrom_inv (ms : MigrationSet) (toRollback : list string) (n : nat)
    (w w' : World) r :
  (n <= length toRollback)%nat →
  rollbackFrom ms toRollback n w = (w', r) →
  ∃ evs,
    log w' = log w ++ evs
    ∧ rolledBack evs `prefix_of` rev (take n toRollback)
    ∧ appliedOf (committed w')
      = filter (fun g => g ∉ rolledBack evs) (appliedOf (committed w))
    ∧ (tx w = None → tx w' = None)
    ∧ match r with
      | Ok _ => rolledBack evs = rev (take n toRollback)
      | Err (ErrFindMigration filename) =>
          filename ∈ take n toRollback
          ∧ GetMigrationByFilename ms filename = None ∧ afterReport evs
      | Err (ErrNoDownMigration filename) =>
          filename ∈ take n toRollback
          ∧ (∃ m, GetMigrationByFilename ms filename = Some m ∧ Down m = "")
          ∧ afterReport evs
      | Err _ => True
      end.
Proof.
  revert w. induction n as [|i IH]; intros w Hn H.
  - injection H as <- <-. exists []. rewrite app_nil_r, filter_not_in_nil.
    repeat split; try done.
  - cbn [migration.rollbackFrom] in H.
    destruct (toRollback !! i) as [filename|] eqn:Hi.
    2:{ apply lookup_ge_None in Hi. lia. }
    rewrite (take_S_r _ _ _ Hi), rev_unit.
    assert (filename ∈ take i toRollback ++ [filename]) as Hlast.
    { apply elem_of_app. right. apply list_elem_of_here. }
    destruct (GetMigrationByFilename ms filename) as [m|] eqn:Hfind.
    2:{ injection H as <- <-. exists []. rewrite app_nil_r, filter_not_in_nil. simpl.
        repeat split; try done; [apply prefix_nil | by left]. }
    destruct (String.eqb_spec (Down m) "") as [Hdown|Hdown].
    { injection H as <- <-. exists []. rewrite app_nil_r, filter_not_in_nil. simpl.
      repeat split; try done; [apply prefix_nil | by exists m | by left]. }
    unfold bind at 1, wrap at 1 in H.
    destruct (rollbackMigration m w) as [w1 [[]|te]] eqn:Hm.
    2:{ injection H as <- <-.
        apply rollbackMigration_Err in Hm as (Hc & Htx & evs & Hlog & Hout).
        exists evs. rewrite (rolledBack_TxOutcome _ _ _ _ _ Hout), filter_not_in_nil, Hc.
        repeat split; try done. apply prefix_nil. }
    assert (Filename m = filename) as Hname.
    { clear -Hfind. induction ms as [|m0 ms IH]; simpl in Hfind; [done|].
      destruct (String.eqb_spec (Filename m0) filename); [congruence|auto]. }
    apply rollbackMigration_Ok in Hm as (Htx1 & Happ1 & Hlog1).
    unfold bind at 1, print at 1 in H.
    apply IH in H; [|lia]. destruct H as (evs & Hlog & Hpre & Happ & Htx & Hr).
    simpl in Hlog, Happ, Htx.
    exists ([Done OpBegin] ++ execEvents (statementsOf (Down m))
              ++ [Done (OpDelete (Filename m)); Done OpCommit]
              ++ [Printed (OutRolledBack filename)] ++ evs).
    assert (rolledBack ([Done OpBegin] ++ execEvents (statementsOf (Down m))
              ++ [Done (OpDelete (Filename m)); Done OpCommit]
              ++ [Printed (OutRolledBack filename)] ++ evs) = filename :: rolledBack evs)
      as Hrb.
    { simpl. rewrite rolledBack_app, rolledBack_execEvents. done. }
    rewrite Hrb. split; [|split; [|split; [|split]]].
    + rewrite Hlog, Hlog1. rewrite <- !app_assoc. done.
    + by apply prefix_cons.
    + rewrite Happ, Happ1, Hname. apply filter_not_in_cons.
    + intros _. by apply Htx.
    + assert (∀ g, g ∈ take i toRollback → g ∈ take i toRollback ++ [filename]) as Hin.
      { intros g Hg. apply elem_of_app. by left. }
      assert (afterReport evs →
              afterReport ([Done OpBegin] ++ execEvents (statementsOf (Down m))
                ++ [Done (OpDelete (Filename m)); Done OpCommit]
                ++ [Printed (OutRolledBack filename)] ++ evs)) as Hafter.
      { intros [->|(before & g & ->)]; right.
        - eexists _, filename. rewrite app_nil_r.
          rewrite (app_assoc _ _ [Printed _]), (app_assoc _ _ [Printed _]). done.
        - eexists _, g. rewrite !app_assoc. done. }
      destruct r as [[]|[]]; try done.
      * by rewrite Hr.
      * destruct Hr as (? & ? & ?). auto.
      * destruct Hr as (? & ? & ?). auto.
Qed.

Lemma Down_inv directory dir steps (w w' : World) r :
  migration.Down exec_stmt directory dir steps w = (w', r) →
  ∃ evs,
    log w' = log w ++ evs
    ∧ rolledBack evs `prefix_of` rev (selected (appliedOf (committed w)) steps)
    ∧ appliedOf (committed w')
      = filter (fun g => g ∉ rolledBack evs) (appliedOf (committed w))
    ∧ (tx w = None → tx w' = None)
    ∧ match r with
      | Ok _ => rolledBack evs = rev (selected (appliedOf (committed w)) steps)
      | Err (ErrFindMigration filename) =>
          filename ∈ selected (appliedOf (committed w)) steps
          ∧ (∃ ms, LoadMigrations directory dir = Ok ms
                   ∧ GetMigrationByFilename ms filename = None)
          ∧ ∃ before out, evs = before ++ [Printed out]
      | Err (ErrNoDownMigration filename) =>
          filename ∈ selected (appliedOf (committed w)) steps
          ∧ (∃ ms m, LoadMigrations directory dir = Ok ms
                     ∧ GetMigrationByFilename ms filename = Some m ∧ Down m = "")
          ∧ ∃ before out, evs = before ++ [Printed out]
      | Err _ => True
      end.
Proof.
  unfold migration.Down, bind at 1, wrap at 1.
  destruct (GetAppliedMigrations w) as [wa [applied|ea]] eqn:Hget;
    apply GetAppliedMigrations_inv in Hget.
  2:{ intros [= <- <-]. subst wa. eexists. simpl. split; [done|].
      rewrite filter_not_in_nil. repeat split; try done. apply prefix_nil. }
  destruct Hget as (rows & Hrows & -> & ->).
  assert (appliedOf (committed w) = map row_filename rows) as Happ
    by (unfold appliedOf; by rewrite Hrows).
  rewrite Happ. cbv beta.
  destruct (length (map row_filename rows) =? 0)%nat eqn:Hlen.
  { unfold print. intros [= <- <-]. eexists. simpl.
    split; [by rewrite <- app_assoc|].
    apply Nat.eqb_eq, nil_length_inv in Hlen. unfold selected. rewrite Hlen.
    simpl. unfold appliedOf. rewrite Hrows, Hlen.
    repeat split; try done. }
  unfold bind at 1, lift at 1.
  destruct (LoadMigrations directory dir) as [ms|el] eqn:Hload.
  2:{ intros [= <- <-]. exists [Done OpGetAppliedMigrations]. simpl. split; [done|].
      rewrite filter_not_in_nil. unfold appliedOf. rewrite Hrows.
      repeat split; try done. apply prefix_nil. }
  fold (selected (map row_filename rows) steps).
  unfold bind at 1, print at 1, bind at 1.
  destruct (rollbackFrom _ _ _ _) as [wb rb] eqn:Hloop.
  apply rollbackFrom_inv in Hloop; [|done].
  rewrite firstn_all in Hloop.
  destruct Hloop as (evs & Hlog & Hpre & Happ' & Htx & Hr). simpl in *.
  assert (appliedOf (committed wb)
          = filter (fun g => g ∉ rolledBack evs) (map row_filename rows)) as Happ''.
  { rewrite Happ'. unfold appliedOf. simpl. by rewrite Hrows. }
  destruct rb as [[]|e]; intros [= <- <-].
  - exists ([Done OpGetAppliedMigrations]
            ++ [Printed (OutRollingBack (length (selected (map row_filename rows) steps)))]
            ++ evs ++ [Printed OutRollbackCompleted]).
    simpl. rewrite Hlog, <- !app_assoc. simpl.
    rewrite rolledBack_app. simpl. rewrite app_nil_r.
    repeat split; try done.
  - exists ([Done OpGetAppliedMigrations]
            ++ [Printed (OutRollingBack (length (selected (map row_filename rows) steps)))]
            ++ evs).
    simpl. rewrite Hlog, <- !app_assoc. simpl.
    split; [done|]. split; [done|]. split; [done|]. split; [done|].
    assert (afterReport evs →
            ∃ before out,
              Done OpGetAppliedMigrations
                :: Printed (OutRollingBack (length (selected (map row_filename rows) steps)))
                :: evs = before ++ [Printed out]) as Hafter.
    { intros [->|(before & g & ->)].
      - by exists [Done OpGetAppliedMigrations], (OutRollingBack
                    (length (selected (map row_filename rows) steps))).
      - by eexists (_ :: _ :: before), (OutRolledBack g). }
    destruct e; try done.
    + destruct Hr as (Hin & Hfind & Hrep). repeat split; eauto.
    + destruct Hr as (Hin & (m & Hfind & Hdown) & Hrep). repeat split; eauto.
Qed.

(** C3. [Down(steps)] takes [steps] for the length of the ledger when it
    is zero, negative or larger than that length; the rollbacks it
    commits are the last [steps] entries of the ledger, in the order of the
    rows reversed, all of them when it returns without error and the first
    ones of them when it stops on an error; the ledger keeps the other
    rows. *)
Theorem Down_rolls_back_last_steps directory dir steps (w w' : World) r :
  migration.Down exec_stmt directory dir steps w = (w', r) →
  let applied := appliedOf (committed w) in
  let n := migration.clampSteps steps (length applied) in
  ((steps <= 0 ∨ Z.of_nat (length applied) < steps)%Z → n = length applied)
  ∧ ((0 < steps <= Z.of_nat (length applied))%Z → Z.of_nat n = steps)
  ∧ ∃ evs,
      log w' = log w ++ evs
      ∧ rolledBack evs `prefix_of` rev (drop (length applied - n) applied)
      ∧ (r = Ok tt → rolledBack evs = rev (drop (length applied - n) applied))
      ∧ appliedOf (committed w') = filter (fun g => g ∉ rolledBack evs) applied.
Proof.
  intros H applied n. split; [|split].
  - unfold n, migration.clampSteps. intros [Hs|Hs].
    + destruct (Z.leb_spec steps 0); [done|lia].
    + destruct (Z.ltb_spec (Z.of_nat (length applied)) steps); [|lia].
      by rewrite orb_true_r.
  - unfold n, migration.clampSteps. intros Hs.
    destruct (Z.leb_spec steps 0); [lia|].
    destruct (Z.ltb_spec (Z.of_nat (length applied)) steps); [lia|]. simpl. lia.
  - apply Down_inv in H as (evs & Hlog & Hpre & Happ & _ & Hr).
    exists evs. repeat split; try done. by intros ->.
Qed.

(** C6. In the loop of [Down], an identity with no record in the loaded set
    ends the run with [ErrFindMigration], one with an empty down script
    with [ErrNoDownMigration], the world left as the step found it. When
    [Down] returns one of these errors the last thing the run did is a
    print: no transaction was begun for the step; the rollbacks reported
    before are out of the ledger and every other row is still in it. *)
Theorem Down_stops_before_transaction directory dir steps :
  (∀ ms toRollback i filename (w : World),
      toRollback !! i = Some filename →
      (GetMigrationByFilename ms filename = None →
       rollbackFrom ms toRollback (S i) w = (w, Err (ErrFindMigration filename)))
      ∧ (∀ m, GetMigrationByFilename ms filename = Some m → Down m = "" →
              rollbackFrom ms toRollback (S i) w
              = (w, Err (ErrNoDownMigration filename))))
  ∧ (∀ (w w' : World) e filename,
      tx w = None →
      migration.Down exec_stmt directory dir steps w = (w', Err e) →
      e = ErrFindMigration filename ∨ e = ErrNoDownMigration filename →
      ∃ ms evs out,
        LoadMigrations directory dir = Ok ms
        ∧ filename ∈ selected (appliedOf (committed w)) steps
        ∧ (e = ErrFindMigration filename → GetMigrationByFilename ms filename = None)
        ∧ (e = ErrNoDownMigration filename →
           ∃ m, GetMigrationByFilename ms filename = Some m ∧ Down m = "")
        ∧ log w' = log w ++ evs ++ [Printed out]
        ∧ tx w' = None
        ∧ appliedOf (committed w')
          = filter (fun g => g ∉ rolledBack (evs ++ [Printed out]))
                   (appliedOf (committed w))).
Proof.
  split.
  - intros ms toRollback i filename w Hi. split.
    + intros Hfind. cbn [migration.rollbackFrom]. by rewrite Hi, Hfind.
    + intros m Hfind Hdown. cbn [migration.rollbackFrom]. rewrite Hi, Hfind, Hdown. done.
  - intros w w' e filename Htx H He.
    apply Down_inv in H as (evs & Hlog & Hpre & Happ & Htx' & Hr).
    destruct He as [-> | ->].
    + destruct Hr as (Hin & (ms & Hload & Hfind) & before & out & ->).
      exists ms, before, out. repeat split; try done; auto.
    + destruct Hr as (Hin & (ms & m & Hload & Hfind & Hdown) & before & out & ->).
      exists ms, before, out. repeat split; try done; eauto.
Qed.

(** *** The statements of a script, in its transaction *)

(** X22. What the code sends. The transaction of a migration holds the
    statements of its script in their order, between the [Begin] and the
    call on the ledger: the pieces between the semicolons, trimmed, except
    the empty pieces and the pieces that start with [--], which are left
    out whole. When it fails the statements up to the failing one were
    run, once each. Every semicolon of the script splits: the pieces hold
    none and joined with semicolons they are the script. *)
Theorem script_statements_run_in_transaction (m : Migration) (w w' : World) :
  (applyMigration m w = (w', Ok tt) →
     log w' = log w ++ [Done OpBegin]
                    ++ execEvents (List.filter keepStatement
                                     (map GoStrings.TrimSpace (GoStrings.Split (Up m) ";")))
                    ++ [Done (OpInsert (Filename m) (Checksum m)); Done OpCommit])
  ∧ (rollbackMigration m w = (w', Ok tt) →
       log w' = log w ++ [Done OpBegin]
                      ++ execEvents (List.filter keepStatement
                                       (map GoStrings.TrimSpace
                                            (GoStrings.Split (Down m) ";")))
                      ++ [Done (OpDelete (Filename m)); Done OpCommit])
  ∧ (∀ e, applyMigration m w = (w', Err e) →
          ∃ evs, log w' = log w ++ evs
                 ∧ TxOutcome (Up m) (OpInsert (Filename m) (Checksum m)) ErrRecord e evs)
  ∧ (∀ e, rollbackMigration m w = (w', Err e) →
          ∃ evs, log w' = log w ++ evs
                 ∧ TxOutcome (Down m) (OpDelete (Filename m)) ErrRemoveRecord e evs)
  ∧ (∀ script,
       String.concat ";" (GoStrings.Split script ";") = script
       ∧ Forall (fun piece => ";"%char ∉ list_ascii_of_string piece)
                (GoStrings.Split script ";")).
Proof.
  split; [|split; [|split; [|split]]].
  - intros H. by apply applyMigration_Ok in H as (_ & _ & _ & Hlog).
  - intros H. by apply rollbackMigration_Ok in H as (_ & _ & Hlog).
  - intros e H. by apply applyMigration_Err in H as (_ & _ & Hevs).
  - intros e H. by apply rollbackMigration_Err in H as (_ & _ & Hevs).
  - intros script. split; [apply Split_concat | apply Split_no_sep].
Qed.

(** *** Which calls fall inside a transaction *)

Lemma withOpen_app open (evs1 evs2 : list Event) :
  withOpen open (evs1 ++ evs2)
  = withOpen open evs1 ++ withOpen (openAfter open evs1) evs2.
Proof.
  revert open. induction evs1 as [|e evs1 IH]; intros open; simpl; [done|].
  by rewrite IH.
Qed.

Lemma openAfter_app open (evs1 evs2 : list Event) :
  openAfter open (evs1 ++ evs2) = openAfter (openAfter open evs1) evs2.
Proof. unfold openAfter. by rewrite fold_left_app. Qed.

Lemma execEvents_placed (stmts : list string) :
  Forall placed (withOpen true (execEvents stmts))
  ∧ openAfter true (execEvents stmts) = true.
Proof.
  induction stmts as [|stmt stmts [IH1 IH2]]; simpl; [by split|].
  split; [|done]. constructor; [|done]. by repeat split.
Qed.

Lemma settled_extend (w w' : World) (evs : list Event) :
  settled w → log w' = log w ++ evs → tx w' = None →
  openAfter false evs = false → Forall placed (withOpen false evs) →
  settled w'.
Proof.
  intros (Htx & Hopen & Hpl) Hlog Htx' Hopen' Hpl'. unfold settled.
  rewrite Hlog, openAfter_app, withOpen_app, Hopen. split; [done|]. split; [done|].
  by apply Forall_app_2.
Qed.

(** The calls of one transaction, however it ends. *)
Lemma transaction_placed (stmts : list string) (tail_evs : list Event) :
  Forall placed (withOpen true tail_evs) → openAfter true tail_evs = false →
  Forall placed (withOpen false ([Done OpBegin] ++ execEvents stmts ++ tail_evs))
  ∧ openAfter false ([Done OpBegin] ++ execEvents stmts ++ tail_evs) = false.
Proof.
  intros Hpl Hopen. destruct (execEvents_placed stmts) as [Hst Hopen_st].
  simpl. rewrite withOpen_app, openAfter_app. unfold openAfter at 1. simpl.
  fold (openAfter true (execEvents stmts)). rewrite Hopen_st. split; [|done].
  constructor; [by repeat split|]. by apply Forall_app_2.
Qed.

Lemma TxOutcome_placed script op wrapErr e evs :
  isLedgerOnConnection (Done op) = false →
  TxOutcome script op wrapErr e evs →
  Forall placed (withOpen false evs) ∧ openAfter false evs = false.
Proof.
  intros Hop. destruct 1.
  - split; [|done]. by repeat constructor.
  - apply transaction_placed; [|done]. by repeat constructor.
  - apply transaction_placed; [|done].
    repeat constructor; simpl; try done.
    unfold isLedgerOnConnection in *. simpl in *. by rewrite Hop.
  - apply transaction_placed; [|done].
    repeat constructor; simpl; try done.
    unfold isLedgerOnConnection in *. simpl in *. by rewrite Hop.
Qed.

Lemma print_settled (E : Type) out (w : World) :
  settled w → settled (fst (print (E := E) out w)).
Proof.
  intros H. eapply (settled_extend w _ [Printed out]); try done.
  - apply H.
  - by repeat constructor.
Qed.

Lemma applyMigration_settled (m : Migration) (w w' : World) r :
  applyMigration m w = (w', r) → settled w → settled w'.
Proof.
  intros H Hw. destruct r as [[]|e].
  - apply applyMigration_Ok in H as (Htx & _ & _ & Hlog).
    eapply settled_extend; [done|exact Hlog|done|..];
      apply transaction_placed; try done; by repeat constructor.
  - apply applyMigration_Err in H as (_ & Htx & evs & Hlog & Hout).
    eapply settled_extend; [done|exact Hlog|apply Htx, Hw|..];
      (eapply TxOutcome_placed; [|exact Hout]; reflexivity).
Qed.

Lemma rollbackMigration_settled (m : Migration) (w w' : World) r :
  rollbackMigration m w = (w', r) → settled w → settled w'.
Proof.
  intros H Hw. destruct r as [[]|e].
  - apply rollbackMigration_Ok in H as (Htx & _ & Hlog).
    eapply settled_extend; [done|exact Hlog|done|..];
      apply transaction_placed; try done; by repeat constructor.
  - apply rollbackMigration_Err in H as (_ & Htx & evs & Hlog & Hout).
    eapply settled_extend; [done|exact Hlog|apply Htx, Hw|..];
      (eapply TxOutcome_placed; [|exact Hout]; reflexivity).
Qed.

Lemma applyAll_settled (pending : list Migration) (w w' : World) r :
  applyAll pending w = (w', r) → settled w → settled w'.
Proof.
  revert w. induction pending as [|m rest IH]; intros w H Hw.
  - by injection H as <- <-.
  - cbn [migration.applyAll] in H. unfold bind at 1, wrap at 1 in H.
    destruct (applyMigration m w) as [w1 [[]|te]] eqn:Hm;
      apply applyMigration_settled in Hm; try done.
    + unfold bind at 1 in H. eapply IH; [exact H|]. by apply (print_settled Error).
    + by injection H as <- <-.
Qed.

Lemma rollbackFrom_settled ms toRollback n (w w' : World) r :
  rollbackFrom ms toRollback n w = (w', r) → settled w → settled w'.
Proof.
  revert w. induction n as [|i IH]; intros w H Hw.
  - by injection H as <- <-.
  - cbn [migration.rollbackFrom] in H.
    destruct (toRollback !! i) as [filename|]; [|by injection H as <- <-].
    destruct (GetMigrationByFilename ms filename) as [m|]; [|by injection H as <- <-].
    destruct (String.eqb (Down m) ""); [by injection H as <- <-|].
    unfold bind at 1, wrap at 1 in H.
    destruct (rollbackMigration m w) as [w1 [[]|te]] eqn:Hm;
      apply rollbackMigration_settled in Hm; try done.
    + unfold bind at 1 in H. eapply IH; [exact H|]. by apply (print_settled Error).
    + by injection H as <- <-.
Qed.

Lemma printStatus_settled appliedSet ms (w w' : World) r :
  migration.printStatus appliedSet ms w = (w', r) → settled w → settled w'.
Proof.
  revert w. induction ms as [|m rest IH]; intros w H Hw.
  - by injection H as <- <-.
  - cbn [migration.printStatus] in H. unfold bind at 1 in H.
    eapply IH; [exact H|]. by apply (print_settled Error).
Qed.

Lemma CreateMigrationsTable_settled (w w' : World) r :
  CreateMigrationsTable w = (w', r) → settled w → settled w'.
Proof.
  intros H Hw. apply CreateMigrationsTable_inv in H.
  destruct r; subst w'; (eapply settled_extend; [exact Hw|done|apply Hw|done|]);
    by repeat constructor.
Qed.

Lemma GetAppliedMigrations_settled (w w' : World) r :
  GetAppliedMigrations w = (w', r) → settled w → settled w'.
Proof.
  intros H Hw. apply GetAppliedMigrations_inv in H.
  destruct r; [destruct H as (rows & _ & _ & ->)|subst w'];
    (eapply settled_extend; [exact Hw|done|apply Hw|done|]);
    by repeat constructor.
Qed.

Lemma Up_settled directory dir (w w' : World) r :
  migration.Up exec_stmt directory dir w = (w', r) → settled w → settled w'.
Proof.
  unfold migration.Up, bind at 1, wrap at 1. intros H Hw.
  destruct (CreateMigrationsTable w) as [wa [[]|ea]] eqn:Hcreate;
    apply CreateMigrationsTable_settled in Hcreate; try done.
  2:{ by injection H as <- <-. }
  unfold bind at 1, lift at 1 in H.
  destruct (LoadMigrations directory dir) as [ms|el]; [|by injection H as <- <-].
  unfold bind at 1, wrap at 1 in H.
  destruct (GetAppliedMigrations wa) as [wb [applied|eb]] eqn:Hget;
    apply GetAppliedMigrations_settled in Hget; try done.
  2:{ by injection H as <- <-. }
  cbv beta zeta in H.
  destruct (length (GetPending ms applied) =? 0)%nat.
  { injection H as <- <-. by apply (print_settled Error). }
  unfold bind at 1, print at 1, bind at 1 in H.
  destruct (applyAll _ _) as [wc [[]|ec]] eqn:Hall;
    apply applyAll_settled in Hall; try by apply (print_settled Error).
  - injection H as <- <-. by apply (print_settled Error).
  - by injection H as <- <-.
Qed.

Lemma Down_settled directory dir steps (w w' : World) r :
  migration.Down exec_stmt directory dir steps w = (w', r) → settled w → settled w'.
Proof.
  unfold migration.Down, bind at 1, wrap at 1. intros H Hw.
  destruct (GetAppliedMigrations w) as [wa [applied|ea]] eqn:Hget;
    apply GetAppliedMigrations_settled in Hget; try done.
  2:{ by injection H as <- <-. }
  cbv beta in H. destruct (length applied =? 0)%nat.
  { injection H as <- <-. by apply (print_settled Error). }
  unfold bind at 1, lift at 1 in H.
  destruct (LoadMigrations directory dir) as [ms|el]; [|by injection H as <- <-].
  cbv beta zeta in H. unfold bind at 1, print at 1, bind at 1 in H.
  destruct (rollbackFrom _ _ _ _) as [wb [[]|eb]] eqn:Hloop;
    apply rollbackFrom_settled in Hloop; try by apply (print_settled Error).
  - injection H as <- <-. by apply (print_settled Error).
  - by injection H as <- <-.
Qed.

Lemma Status_settled directory dir (w w' : World) r :
  migration.Status directory dir w = (w', r) → settled w → settled w'.
Proof.
  unfold migration.Status, bind at 1, lift at 1. intros H Hw.
  destruct (LoadMigrations directory dir) as [ms|el]; [|by injection H as <- <-].
  unfold bind at 1, wrap at 1 in H.
  destruct (GetAppliedMigrations w) as [wa [applied|ea]] eqn:Hget;
    apply GetAppliedMigrations_settled in Hget; try done.
  2:{ by injection H as <- <-. }
  cbv beta zeta in H. unfold bind at 1, print at 1 in H.
  destruct (length ms =? 0)%nat.
  { injection H as <- <-. by do 2 apply (print_settled Error). }
  unfold bind at 1 in H.
  destruct (migration.printStatus _ _ _) as [wb [[]|eb]] eqn:Hst;
    apply printStatus_settled in Hst; try by apply (print_settled Error).
  - injection H as <- <-. by apply (print_settled Error).
  - by injection H as <- <-.
Qed.

(** *** The checksums of the ledger are never read *)

Lemma oblivious_ret {E A} (a : A) : oblivious (Tables := Tables) (ret (E := E) a).
Proof. by intros w1 w2 H. Qed.

Lemma oblivious_bind {E A B} (c : M E A) (k : A → M E B) :
  oblivious c → (∀ a, oblivious (k a)) → oblivious (bind c k).
Proof.
  intros Hc Hk w1 w2 H. unfold bind. destruct (Hc w1 w2 H) as [Hr Hw].
  destruct (c w1) as [w1' r1], (c w2) as [w2' r2]. simpl in *. subst r2.
  destruct r1 as [a|e]; [by apply Hk|done].
Qed.

Lemma oblivious_wrap {E E' A} (f : E → E') (c : M E A) :
  oblivious c → oblivious (wrap f c).
Proof.
  intros Hc w1 w2 H. unfold wrap. destruct (Hc w1 w2 H) as [Hr Hw].
  destruct (c w1) as [w1' r1], (c w2) as [w2' r2]. simpl in *. subst r2.
  by destruct r1.
Qed.

Lemma oblivious_lift {E E' A} (f : E → E') (r : result E A) :
  oblivious (Tables := Tables) (lift f r).
Proof. intros w1 w2 H. unfold lift. by destruct r. Qed.

Lemma oblivious_print {E} out : oblivious (Tables := Tables) (print (E := E) out).
Proof.
  intros w1 w2 (Hc & Ht & Hl & Hf). unfold print, sameButChecksums. simpl.
  by rewrite Hl.
Qed.

Lemma roundTrip_same (w1 w2 : World) :
  sameButChecksums w1 w2 →
  (roundTrip w1).1 = (roundTrip w2).1
  ∧ sameButChecksums (roundTrip w1).2 (roundTrip w2).2.
Proof.
  intros (Hc & Ht & Hl & Hf). unfold roundTrip. rewrite Hf.
  destruct (faults w2) eqn:E; simpl; (split; [done|]).
  - unfold sameButChecksums. by rewrite Hf, E.
  - done.
Qed.

Lemma emit_same e (w1 w2 : World) :
  sameButChecksums w1 w2 → sameButChecksums (emit e w1) (emit e w2).
Proof. intros (Hc & Ht & Hl & Hf). unfold sameButChecksums. simpl. by rewrite Hl. Qed.

Lemma oblivious_CreateMigrationsTable : oblivious (@CreateMigrationsTable Tables).
Proof.
  intros w1 w2 H. unfold CreateMigrationsTable.
  destruct (roundTrip_same _ _ H) as [Hfault Hrt].
  destruct (roundTrip w1) as [fault w1'], (roundTrip w2) as [fault2 w2'].
  simpl in *. subst fault2. destruct fault; simpl.
  - split; [done|]. by apply emit_same.
  - split; [done|]. apply emit_same.
    destruct Hrt as ((Htab & Hled) & Ht & Hl & Hf). unfold sameButChecksums, sameLedger.
    simpl. repeat split; try done.
    destruct (ledger (committed w1')), (ledger (committed w2')); simpl in *; congruence.
Qed.

Lemma oblivious_GetAppliedMigrations : oblivious (@GetAppliedMigrations Tables).
Proof.
  intros w1 w2 H. unfold GetAppliedMigrations.
  destruct (roundTrip_same _ _ H) as [Hfault Hrt].
  destruct (roundTrip w1) as [fault w1'], (roundTrip w2) as [fault2 w2'].
  simpl in *. subst fault2. destruct fault; simpl.
  - split; [done|]. by apply emit_same.
  - pose proof Hrt as ((Htab & Hled) & _).
    destruct (ledger (committed w1')), (ledger (committed w2')); simpl in *; try done.
    + injection Hled as ->. split; [done|]. by apply emit_same.
    + split; [done|]. by apply emit_same.
Qed.

Lemma oblivious_Begin : oblivious (@Begin Tables).
Proof.
  intros w1 w2 H. unfold Begin.
  destruct (roundTrip_same _ _ H) as [Hfault Hrt].
  destruct (roundTrip w1) as [fault w1'], (roundTrip w2) as [fault2 w2'].
  simpl in *. subst fault2. destruct fault; simpl.
  - split; [done|]. by apply emit_same.
  - split; [done|]. apply emit_same.
    destruct Hrt as (Hc & Ht & Hl & Hf). unfold sameButChecksums. simpl. tauto.
Qed.

Lemma oblivious_txExec op run : obliviousRun run → oblivious (txExec op run).
Proof.
  intros Hrun w1 w2 H. unfold database.txExec.
  pose proof H as (_ & Ht & _).
  destruct (tx w1) as [d1|], (tx w2) as [d2|]; try done. simpl in Ht.
  destruct (roundTrip_same _ _ H) as [Hfault Hrt].
  destruct (roundTrip w1) as [fault w1'], (roundTrip w2) as [fault2 w2'].
  simpl in *. subst fault2. destruct fault; simpl.
  - split; [done|]. by apply emit_same.
  - specialize (Hrun d1 d2 Ht).
    destruct (run d1) as [d1'|e1], (run d2) as [d2'|e2]; try done; simpl.
    + split; [done|]. apply emit_same.
      destruct Hrt as (Hc & _ & Hl & Hf). unfold sameButChecksums. simpl. tauto.
    + subst e2. split; [done|]. by apply emit_same.
Qed.

Lemma oblivious_Commit : oblivious (@Commit Tables).
Proof.
  intros w1 w2 H. unfold Commit.
  pose proof H as (_ & Ht & _).
  destruct (tx w1) as [d1|], (tx w2) as [d2|]; try done. simpl in Ht.
  destruct (roundTrip_same _ _ H) as [Hfault Hrt].
  destruct (roundTrip w1) as [fault w1'], (roundTrip w2) as [fault2 w2'].
  simpl in *. subst fault2. destruct Hrt as (Hc & _ & Hl & Hf).
  destruct fault; simpl; (split; [done|]); apply emit_same;
    unfold sameButChecksums; simpl; tauto.
Qed.

Lemma oblivious_deferRollback {E A} (body : M E A) :
  oblivious body → oblivious (deferRollback body).
Proof.
  intros Hb w1 w2 H. unfold deferRollback. destruct (Hb w1 w2 H) as [Hr Hw].
  destruct (body w1) as [w1' r1], (body w2) as [w2' r2]. simpl in *.
  split; [done|]. unfold Rollback. pose proof Hw as (Hc & Ht & Hl & Hf).
  destruct (tx w1'), (tx w2'); try done.
  apply emit_same. unfold sameButChecksums. simpl. tauto.
Qed.

Lemma obliviousRun_runStatement stmt : obliviousRun (runStatement stmt).
Proof.
  intros d1 d2 [Htab Hled]. unfold migration.runStatement. rewrite Htab.
  by destruct (exec_stmt stmt (tables d2)).
Qed.

Lemma existsb_filenames filename (rows : list LedgerRow) :
  existsb (fun r => String.eqb (row_filename r) filename) rows
  = existsb (fun g => String.eqb g filename) (map row_filename rows).
Proof. induction rows as [|r rows IH]; simpl; [done|]. by rewrite IH. Qed.

Lemma obliviousRun_insertRow filename checksum :
  obliviousRun (insertRow filename checksum).
Proof.
  intros d1 d2 [Htab Hled]. unfold migration.insertRow.
  destruct (ledger d1) as [rows1|], (ledger d2) as [rows2|]; simpl in *; try done.
  injection Hled as Hled. rewrite !existsb_filenames, Hled.
  destruct (existsb _ _); [done|]. split; [done|]. simpl.
  by rewrite !map_app, Hled.
Qed.

Lemma obliviousRun_deleteRow filename : obliviousRun (deleteRow filename).
Proof.
  intros d1 d2 [Htab Hled]. unfold migration.deleteRow.
  destruct (ledger d1) as [rows1|], (ledger d2) as [rows2|]; simpl in *; try done.
  injection Hled as Hled. split; [done|]. simpl.
  by rewrite !deleted_filenames, Hled.
Qed.

Lemma oblivious_execStatements chunks : oblivious (execStatements chunks).
Proof.
  induction chunks as [|chunk chunks IH]; cbn [migration.execStatements].
  - apply oblivious_ret.
  - destruct (_ || _); [done|].
    apply oblivious_bind; [|done].
    apply oblivious_wrap, oblivious_txExec, obliviousRun_runStatement.
Qed.

Lemma oblivious_applyMigration m : oblivious (applyMigration m).
Proof.
  unfold migration.applyMigration.
  apply oblivious_bind; [apply oblivious_wrap, oblivious_Begin|]. intros _.
  apply oblivious_deferRollback, oblivious_bind; [apply oblivious_execStatements|].
  intros _. apply oblivious_bind; [|intros _; apply oblivious_wrap, oblivious_Commit].
  apply oblivious_wrap, oblivious_txExec, obliviousRun_insertRow.
Qed.

Lemma oblivious_rollbackMigration m : oblivious (rollbackMigration m).
Proof.
  unfold migration.rollbackMigration.
  apply oblivious_bind; [apply oblivious_wrap, oblivious_Begin|]. intros _.
  apply oblivious_deferRollback, oblivious_bind; [apply oblivious_execStatements|].
  intros _. apply oblivious_bind; [|intros _; apply oblivious_wrap, oblivious_Commit].
  apply oblivious_wrap, oblivious_txExec, obliviousRun_deleteRow.
Qed.

Lemma oblivious_applyAll pending : oblivious (applyAll pending).
Proof.
  induction pending as [|m rest IH]; cbn [migration.applyAll].
  - apply oblivious_ret.
  - apply oblivious_bind; [apply oblivious_wrap, oblivious_applyMigration|].
    intros _. apply oblivious_bind; [apply oblivious_print|done].
Qed.

Lemma oblivious_rollbackFrom ms toRollback n : oblivious (rollbackFrom ms toRollback n).
Proof.
  induction n as [|i IH]; cbn [migration.rollbackFrom].
  - apply oblivious_ret.
  - destruct (toRollback !! i) as [filename|]; [|apply oblivious_ret].
    destruct (GetMigrationByFilename ms filename) as [m|]; [|apply oblivious_lift].
    destruct (String.eqb (Down m) ""); [apply oblivious_lift|].
    apply oblivious_bind; [apply oblivious_wrap, oblivious_rollbackMigration|].
    intros _. apply oblivious_bind; [apply oblivious_print|done].
Qed.

Lemma oblivious_printStatus appliedSet ms : oblivious (migration.printStatus (Tables := Tables) appliedSet ms).
Proof.
  induction ms as [|m rest IH]; cbn [migration.printStatus].
  - apply oblivious_ret.
  - apply oblivious_bind; [apply oblivious_print|done].
Qed.

Lemma oblivious_Up directory dir : oblivious (migration.Up exec_stmt directory dir).
Proof.
  unfold migration.Up.
  apply oblivious_bind; [apply oblivious_wrap, oblivious_CreateMigrationsTable|].
  intros _. apply oblivious_bind; [apply oblivious_lift|]. intros ms.
  apply oblivious_bind; [apply oblivious_wrap, oblivious_GetAppliedMigrations|].
  intros applied. cbv zeta. destruct (_ =? _)%nat; [apply oblivious_print|].
  apply oblivious_bind; [apply oblivious_print|]. intros _.
  apply oblivious_bind; [apply oblivious_applyAll|]. intros _. apply oblivious_print.
Qed.

Lemma oblivious_Down directory dir steps :
  oblivious (migration.Down exec_stmt directory dir steps).
Proof.
  unfold migration.Down.
  apply oblivious_bind; [apply oblivious_wrap, oblivious_GetAppliedMigrations|].
  intros applied. destruct (_ =? _)%nat; [apply oblivious_print|].
  apply oblivious_bind; [apply oblivious_lift|]. intros ms. cbv zeta.
  apply oblivious_bind; [apply oblivious_print|]. intros _.
  apply oblivious_bind; [apply oblivious_rollbackFrom|]. intros _. apply oblivious_print.
Qed.

Lemma oblivious_Status directory dir :
  oblivious (migration.Status (Tables := Tables) directory dir).
Proof.
  unfold migration.Status.
  apply oblivious_bind; [apply oblivious_lift|]. intros ms.
  apply oblivious_bind; [apply oblivious_wrap, oblivious_GetAppliedMigrations|].
  intros applied. cbv zeta.
  apply oblivious_bind; [apply oblivious_print|]. intros _.
  destruct (_ =? _)%nat; [apply oblivious_print|].
  apply oblivious_bind; [apply oblivious_printStatus|]. intros _. apply oblivious_print.
Qed.

(** C9. On two worlds that differ in the checksums their ledgers store
    only, [Up], [Down] and [Status] return the same result, make the same
    calls and prints, and leave worlds that again differ in stored
    checksums only: nothing reads the checksum of a ledger row. *)
Theorem ledger_checksums_never_read directory dir steps (w1 w2 : World) :
  sameButChecksums w1 w2 →
  (snd (migration.Up exec_stmt directory dir w1)
     = snd (migration.Up exec_stmt directory dir w2)
   ∧ sameButChecksums (fst (migration.Up exec_stmt directory dir w1))
                      (fst (migration.Up exec_stmt directory dir w2)))
  ∧ (snd (migration.Down exec_stmt directory dir steps w1)
       = snd (migration.Down exec_stmt directory dir steps w2)
     ∧ sameButChecksums (fst (migration.Down exec_stmt directory dir steps w1))
                        (fst (migration.Down exec_stmt directory dir steps w2)))
  ∧ (snd (migration.Status directory dir w1) = snd (migration.Status directory dir w2)
     ∧ sameButChecksums (fst (migration.Status directory dir w1))
                        (fst (migration.Status directory dir w2))).
Proof.
  intros H. split; [|split].
  - by apply oblivious_Up.
  - by apply oblivious_Down.
  - by apply oblivious_Status.
Qed.

End EngineProperties.

(** * Runs on the small database *)

Example load_usersAndPosts :
  map Filename
      match LoadMigrations "migrations" usersAndPosts with Ok ms => ms | Err _ => [] end
  = ["20230101120000_create_users"; "20230102130000_create_posts"]
  ∧ GetMigrationByFilename
      match LoadMigrations "migrations" usersAndPosts with Ok ms => ms | Err _ => [] end
      "20230101120000_create_users" = Some createUsers.
Proof. vm_compute. done. Qed.

(** Scenario A of the specification. *)
Example scenario_A :
  let dir := DirFiles [ file "20230101120000_create_users.up.sql"
                             "CREATE TABLE users (id INTEGER PRIMARY KEY);";
                        file "20230101120000_create_users.down.sql" "-- nothing" ] in
  let '(w, r) := migration.Up journalExec "migrations" dir emptyWorld in
  r = Ok tt ∧ appliedOf (committed w) = ["20230101120000_create_users"].
Proof. vm_compute. done. Qed.

(** Scenarios B and C. *)
Example scenario_B_C :
  let ledgerAB := [ mkRow "20230102130000_create_posts" "x";
                    mkRow "20230101120000_create_users" "y" ] in
  appliedOf (committed (fst (migration.Down journalExec "migrations" usersAndPosts 1
                                            (worldWith ledgerAB))))
  = ["20230102130000_create_posts"]
  ∧ rolledBack (log (fst (migration.Down journalExec "migrations" usersAndPosts 5
                                         (worldWith ledgerAB))))
    = ["20230101120000_create_users"; "20230102130000_create_posts"].
Proof. vm_compute. done. Qed.

(** Scenario D. *)
Example scenario_D :
  LoadMigrations "migrations"
    (DirFiles [ file "20230101120000_create_users.down.sql" "DROP TABLE users;" ])
  = Err (ErrMissingUp "20230101120000_create_users").
Proof. vm_compute. done. Qed.

(** ** The pending set with a gap *)

Lemma GetPending_gap_witness :
  ascending (GetPending gapSet ["20230102130000_b"])
  ∧ mkMigration "20230101120000_a" "" "CREATE a;" "" "" 63808171200%Z
      ∈ GetPending gapSet ["20230102130000_b"].
Proof.
  destruct (GetPending_is_set_difference gapSet ["20230102130000_b"])
    as (_ & Hasc & _ & Hgap).
  split.
  - apply Hasc. unfold ascending, gapSet. repeat constructor; simpl; lia.
  - apply (Hgap _ (mkMigration "20230102130000_b" "" "CREATE b;" "" "" 63808261200%Z)).
    + unfold gapSet. pick.
    + unfold gapSet. pick.
    + simpl. pick.
    + simpl. intros Hin. apply list_elem_of_singleton in Hin. discriminate Hin.
    + simpl. lia.
Defined.

(** ** [Down] on a ledger whose order is not the order of the timestamps *)

Lemma Down_last_steps_witness :
  rolledBack (log (fst downOne)) = ["20230101120000_create_users"]
  ∧ appliedOf (committed (fst downOne)) = ["20230102130000_create_posts"].
Proof.
  destruct (Down_rolls_back_last_steps journalExec "migrations" usersAndPosts 1
              (worldWith ledgerPostsUsers) (fst downOne) (snd downOne)
              (surjective_pairing downOne))
    as (_ & _ & evs & Hlog & _ & Hok & Happlied).
  simpl in Hlog. rewrite Hlog. split.
  - rewrite Hok; [reflexivity|]. vm_compute. reflexivity.
  - rewrite Happlied, Hok; [|vm_compute; reflexivity]. vm_compute. reflexivity.
Defined.

(** ** The statements of a script *)

Lemma script_statements_witness :
  log (fst appliedUsers)
  = [ Done OpBegin;
      Done (OpExec "CREATE TABLE users (id INTEGER PRIMARY KEY)");
      Done (OpInsert "20230101120000_create_users" "1cbf067882e4b7871949ea0fda77e1f9");
      Done OpCommit ].
Proof.
  destruct (script_statements_run_in_transaction journalExec createUsers (worldWith [])
              (fst appliedUsers)) as (Happly & _).
  rewrite Happly; [|vm_compute; reflexivity]. vm_compute. reflexivity.
Defined.

(** C4. The script [-- add the users], a newline,
    [CREATE TABLE users (id INTEGER PRIMARY KEY);] has one line that begins
    with [--] and one statement after it. The code tests [HasPrefix] on the
    whole trimmed piece between the semicolons, not on its lines: the piece
    begins with [--] and is left out whole, no statement is sent, and the
    migration is recorded as applied. *)
Lemma comment_line_hides_statement :
  specStatements (Up commentedUsers) = ["CREATE TABLE users (id INTEGER PRIMARY KEY)"]
  ∧ statementsOf (Up commentedUsers) = []
  ∧ migration.applyMigration journalExec commentedUsers (worldWith [])
    = (mkWorld
         (mkDatabase []
            (Some [mkRow "20230101120000_create_users" "9b6f608b4faccb2952beb53cb68d0010"]))
         None
         [ Done OpBegin;
           Done (OpInsert "20230101120000_create_users" "9b6f608b4faccb2952beb53cb68d0010");
           Done OpCommit ] [],
       Ok tt).
Proof. vm_compute. done. Qed.

(** ** [Down] on an identity with no file *)

Lemma Down_missing_file_witness :
  snd downGone = Err (ErrFindMigration "20230103090000_gone")
  ∧ tx (fst downGone) = None
  ∧ appliedOf (committed (fst downGone))
    = ["20230101120000_create_users"; "20230103090000_gone"].
Proof.
  assert (migration.Down journalExec "migrations" usersAndPosts 2 (worldWith ledgerWithGone)
          = (fst downGone, Err (ErrFindMigration "20230103090000_gone"))) as Hrun
    by (vm_compute; reflexivity).
  destruct (Down_stops_before_transaction journalExec "migrations" usersAndPosts 2)
    as [_ Hdown].
  destruct (Hdown (worldWith ledgerWithGone) (fst downGone) _ "20230103090000_gone"
              eq_refl Hrun (or_introl eq_refl))
    as (ms & evs & out & _ & _ & _ & _ & Hlog & Htx & Happlied).
  split; [vm_compute; reflexivity|]. split; [exact Htx|].
  vm_compute. reflexivity.
Defined.

(** ** Apply, then roll back *)

Lemma apply_rollback_witness :
  ledger (committed
            (fst (migration.rollbackMigration journalExec createUsers (fst appliedUsers))))
  = Some [].
Proof.
  destruct (apply_then_rollback_restores_ledger journalExec createUsers (worldWith [])
              (fst appliedUsers)
              (fst (migration.rollbackMigration journalExec createUsers (fst appliedUsers))))
    as (rows & Hrows & _ & _ & Hback & _).
  - vm_compute. reflexivity.
  - vm_compute. reflexivity.
  - simpl in Hrows. injection Hrows as <-. exact Hback.
Defined.

(** ** Checksums *)


(** ** Stored checksums *)

Lemma stored_checksum_witness :
  snd (migration.Up journalExec "migrations" usersAndPosts
         (recordedUsers "1cbf067882e4b7871949ea0fda77e1f9"))
  = snd (migration.Up journalExec "migrations" usersAndPosts
           (recordedUsers "00000000000000000000000000000000"))
  ∧ log (fst (migration.Up journalExec "migrations" usersAndPosts
                (recordedUsers "1cbf067882e4b7871949ea0fda77e1f9")))
    = log (fst (migration.Up journalExec "migrations" usersAndPosts
                  (recordedUsers "00000000000000000000000000000000"))).
Proof.
  destruct (ledger_checksums_never_read journalExec "migrations" usersAndPosts 1
              (recordedUsers "1cbf067882e4b7871949ea0fda77e1f9")
              (recordedUsers "00000000000000000000000000000000"))
    as ((Hres & _ & _ & Hlog & _) & _).
  - unfold sameButChecksums, sameLedger. simpl. repeat split.
  - split; [exact Hres|exact Hlog].
Defined.

(** ** Fourteen digits that are no date *)

(** The year 0000 is a date for [time.Parse], before the zero time: a
    migration of that year stands before the one whose digits are no date. *)
Lemma zero_timestamp_not_first :
  GoTime.Parse "20239901000000" = None
  ∧ GoTime.Parse "00000101000000" = Some (-31622400)%Z
  ∧ LoadMigrations "migrations"
      (DirFiles [ file "20239901000000_odd.up.sql" "CREATE TABLE odd (id INTEGER);";
                  file "00000101000000_old.up.sql" "CREATE TABLE old (id INTEGER);" ])
    = Ok [ mkMigration "00000101000000_old" "migrations/00000101000000_old.up.sql"
             "CREATE TABLE old (id INTEGER);" "" "c0a4c8ff60587866d870e2d708f881f6"
             (-31622400)%Z;
           mkMigration "20239901000000_odd" "migrations/20239901000000_odd.up.sql"
             "CREATE TABLE odd (id INTEGER);" "" "1ba74e4c05cb8bbc18cef489d0675a28" 0%Z ].
Proof. vm_compute. done. Qed.


(** * Further properties of the engine *)

Section MoreEngine.

Context {Tables : Type}.
Variable exec_stmt : string -> Tables -> option Tables.

Local Abbreviation Database := (Database Tables).
Local Abbreviation World := (World Tables).
Local Abbreviation applyMigration := (migration.applyMigration exec_stmt).
Local Abbreviation rollbackMigration := (migration.rollbackMigration exec_stmt).
Local Abbreviation applyAll := (migration.applyAll exec_stmt).
Local Abbreviation rollbackFrom := (migration.rollbackFrom exec_stmt).

(** ** What a run of [Up] leaves *)

Lemma appliedOf_created (d : Database) :
  appliedOf (mkDatabase (tables d) (Some (default [] (ledger d)))) = appliedOf d.
Proof. unfold appliedOf. simpl. by destruct (ledger d). Qed.

Lemma GetPending_nil_length (ms : MigrationSet) (applied : list string) :
  (length (GetPending ms applied) =? 0)%nat = true ↔ GetPending ms applied = [].
Proof.
  rewrite Nat.eqb_eq. split; [apply nil_length_inv|by intros ->].
Qed.

(** The ways [Up] returns, with the world after [CreateMigrationsTable] and
    [GetAppliedMigrations]. *)
Lemma Up_inv directory dir (w w' : World) r :
  migration.Up exec_stmt directory dir w = (w', r) →
  (∃ e, r = Err (ErrCreateTable e) ∧ committed w' = committed w ∧ tx w' = tx w
        ∧ log w' = log w ++ [Failed OpCreateMigrationsTable])
  ∨ ∃ w0,
      w0 = mkWorld (mkDatabase (tables (committed w))
                      (Some (default [] (ledger (committed w)))))
                   (tx w) (log w ++ [Done OpCreateMigrationsTable]) (tail (faults w))
      ∧ ((∃ e, r = Err (ErrLoadMigrations e) ∧ LoadMigrations directory dir = Err e
               ∧ w' = w0)
         ∨ ∃ ms, LoadMigrations directory dir = Ok ms
             ∧ ((∃ e, r = Err (ErrGetApplied e) ∧ committed w' = committed w0
                      ∧ tx w' = tx w
                      ∧ log w' = log w0 ++ [Failed OpGetAppliedMigrations])
                ∨ ∃ w1,
                    w1 = mkWorld (committed w0) (tx w)
                           (log w0 ++ [Done OpGetAppliedMigrations])
                           (tail (faults w0))
                    ∧ ((GetPending ms (appliedOf (committed w)) = []
                        ∧ r = Ok tt ∧ w' = emit (Printed OutNoPending) w1)
                       ∨ (GetPending ms (appliedOf (committed w)) ≠ []
                          ∧ ∃ w2 r2,
                              applyAll (GetPending ms (appliedOf (committed w)))
                                (emit (Printed (OutApplying
                                   (length (GetPending ms (appliedOf (committed w))))))
                                   w1) = (w2, r2)
                              ∧ match r2 with
                                | Ok _ => r = Ok tt
                                          ∧ w' = emit (Printed OutAllApplied) w2
                                | Err e => r = Err e ∧ w' = w2
                                end)))).
Proof.
  unfold migration.Up, bind at 1, wrap at 1.
  destruct (CreateMigrationsTable w) as [wa [[]|ea]] eqn:Hcreate;
    apply CreateMigrationsTable_inv in Hcreate; subst wa.
  2:{ intros [= <- <-]. left. by exists ea. }
  right. eexists. split; [reflexivity|]. revert H.
  unfold bind at 1, lift at 1.
  destruct (LoadMigrations directory dir) as [ms|el] eqn:Hload.
  2:{ intros [= <- <-]. left. by exists el. }
  right. exists ms. split; [done|]. revert H.
  unfold bind at 1, wrap at 1.
  destruct (GetAppliedMigrations _) as [wb [applied|eb]] eqn:Hget;
    apply GetAppliedMigrations_inv in Hget.
  2:{ intros [= <- <-]. subst wb. left. by exists eb. }
  destruct Hget as (rows & Hrows & -> & ->). simpl in Hrows. injection Hrows as <-.
  right. eexists. split; [reflexivity|]. revert H. cbv beta zeta.
  assert (map row_filename (default [] (ledger (committed w))) = appliedOf (committed w))
    as -> by (unfold appliedOf; by destruct (ledger (committed w))).
  destruct (length (GetPending ms (appliedOf (committed w))) =? 0)%nat eqn:Hlen.
  - apply GetPending_nil_length in Hlen. unfold print. intros [= <- <-]. by left.
  - assert (GetPending ms (appliedOf (committed w)) ≠ []) as Hne.
    { intros Hnil. apply GetPending_nil_length in Hnil. congruence. }
    unfold bind at 1, print at 1, bind at 1.
    destruct (applyAll _ _) as [w2 r2] eqn:Hall. intros H. right. split; [done|].
    exists w2, r2. split; [reflexivity|].
    destruct r2 as [[]|e2]; by injection H as <- <-.
Qed.

Lemma GetPending_after_all (ms : MigrationSet) (applied : list string) :
  GetPending ms (applied ++ map Filename (GetPending ms applied)) = [].
Proof.
  rewrite !GetPending_filter.
  assert (∀ l : list Migration,
            (∀ x, x ∈ l → Filename x ∈ applied
                          ++ map Filename (filter (fun m => Filename m ∉ applied) ms)) →
            filter (fun x => Filename x ∉ applied
                      ++ map Filename (filter (fun m => Filename m ∉ applied) ms)) l
            = []) as Hall.
  { induction l as [|x l IHl]; intros Hl; [done|].
    rewrite filter_cons_False; [|intros Hn; apply Hn, Hl, list_elem_of_here].
    apply IHl. intros y Hy. by apply Hl, list_elem_of_further. }
  apply Hall. intros x Hx. apply elem_of_app.
  destruct (decide (Filename x ∈ applied)) as [Hin|Hout]; [by left|right].
  apply list_elem_of_fmap. exists x. split; [done|]. by apply list_elem_of_filter.
Qed.

Lemma Up_Ok_ledger directory dir (w w' : World) :
  migration.Up exec_stmt directory dir w = (w', Ok tt) →
  ∃ ms,
    LoadMigrations directory dir = Ok ms
    ∧ appliedOf (committed w')
      = appliedOf (committed w) ++ map Filename (GetPending ms (appliedOf (committed w)))
    ∧ GetPending ms (appliedOf (committed w')) = [].
Proof.
  intros H. apply Up_inv in H as [(e & He & _)|(w0 & Hw0 & H)]; [done|].
  destruct H as [(e & He & _)|(ms & Hload & H)]; [done|].
  destruct H as [(e & He & _)|(w1 & Hw1 & H)]; [done|].
  exists ms. split; [done|].
  assert (appliedOf (committed w1) = appliedOf (committed w)) as Hsame.
  { subst w1 w0. simpl. apply appliedOf_created. }
  assert (appliedOf (committed w')
          = appliedOf (committed w)
            ++ map Filename (GetPending ms (appliedOf (committed w)))) as Happ.
  { destruct H as [(Hnil & _ & ->)|(Hne & w2 & r2 & Hall & Hr)].
    - rewrite Hnil. simpl. by rewrite app_nil_r.
    - destruct r2 as [[]|e2]; [|by destruct Hr]. destruct Hr as [_ ->].
      apply (applyAll_inv exec_stmt) in Hall as [_ Hall]. simpl in *.
      by rewrite Hall, Hsame. }
  split; [done|]. rewrite Happ. apply GetPending_after_all.
Qed.

(** X2. When [Up] returns without error the ledger is the one before it
    followed by the identities that were pending, in the order of the set,
    and no migration of the directory is pending any more. *)
Theorem Up_applies_every_pending directory dir (w w' : World) :
  migration.Up exec_stmt directory dir w = (w', Ok tt) →
  ∃ ms,
    LoadMigrations directory dir = Ok ms
    ∧ appliedOf (committed w')
      = appliedOf (committed w) ++ map Filename (GetPending ms (appliedOf (committed w)))
    ∧ GetPending ms (appliedOf (committed w')) = [].
Proof. apply Up_Ok_ledger. Qed.

Lemma inTransaction_table script op run wrapErr (w w' : World) r :
  (∀ d d', run d = Ok d' → is_Some (ledger d')) →
  inTransaction exec_stmt script op run wrapErr w = (w', r) →
  is_Some (ledger (committed w)) → is_Some (ledger (committed w')).
Proof.
  intros Hrun H Hsome. apply inTransaction_inv in H. destruct r as [[]|e].
  - destruct H as (d1 & d2 & fl & _ & Hd & ->). simpl. by eapply Hrun.
  - destruct H as (evs & _ & -> & _). done.
Qed.

Lemma applyAll_table (pending : list Migration) (w w' : World) r :
  applyAll pending w = (w', r) →
  is_Some (ledger (committed w)) → is_Some (ledger (committed w')).
Proof.
  revert w. induction pending as [|m rest IH]; intros w H Hw.
  - by injection H as <- <-.
  - cbn [migration.applyAll] in H. unfold bind at 1, wrap at 1 in H.
    destruct (applyMigration m w) as [w1 r1] eqn:Hm.
    rewrite applyMigration_inTransaction in Hm.
    apply inTransaction_table in Hm; [|intros d d' Hd; apply insertRow_inv in Hd
                                        as (rows & _ & _ & ->); by eexists|done].
    destruct r1 as [[]|te]; [|by injection H as <- <-].
    unfold bind at 1, print at 1 in H. by apply IH in H.
Qed.

(** [Up] with nothing pending on a database that has its ledger table. *)
Lemma Up_nothing_pending directory dir ms (w w' : World) r :
  LoadMigrations directory dir = Ok ms →
  GetPending ms (appliedOf (committed w)) = [] →
  is_Some (ledger (committed w)) →
  migration.Up exec_stmt directory dir w = (w', r) →
  committed w' = committed w
  ∧ (r = Ok tt →
     log w' = log w ++ [ Done OpCreateMigrationsTable; Done OpGetAppliedMigrations;
                         Printed OutNoPending ]).
Proof.
  intros Hload Hnil [rows Hrows] H.
  assert (mkDatabase (tables (committed w)) (Some (default [] (ledger (committed w))))
          = committed w) as Hsame.
  { destruct (committed w) as [t l]. simpl in *. by subst l. }
  apply Up_inv in H as [(e & -> & Hc & _)|(w0 & Hw0 & H)]; [done|].
  destruct H as [(e & -> & He & ->)|(ms' & Hload' & H)].
  { subst w0. simpl. done. }
  rewrite Hload in Hload'. injection Hload' as <-.
  destruct H as [(e & -> & Hc & _)|(w1 & Hw1 & H)].
  { rewrite Hc. subst w0. simpl. done. }
  destruct H as [(_ & -> & ->)|(Hne & _)]; [|done].
  subst w1 w0. simpl. split; [done|]. intros _. by rewrite <- !app_assoc.
Qed.

(** X3. [Up] again after an [Up] that returned without error: whatever the
    connection does the committed database stays as it is, and when the
    second run returns without error it has made the two calls on the
    ledger and printed that nothing is pending, no transaction begun. *)
Theorem Up_again_changes_nothing directory dir (w w1 w2 : World) r :
  migration.Up exec_stmt directory dir w = (w1, Ok tt) →
  migration.Up exec_stmt directory dir w1 = (w2, r) →
  committed w2 = committed w1
  ∧ (r = Ok tt →
     log w2 = log w1 ++ [ Done OpCreateMigrationsTable; Done OpGetAppliedMigrations;
                          Printed OutNoPending ]).
Proof.
  intros H1 H2.
  destruct (Up_Ok_ledger _ _ _ _ H1) as (ms & Hload & _ & Hnil).
  eapply Up_nothing_pending; [exact Hload|exact Hnil| |exact H2].
  apply Up_inv in H1 as [(e & He & _)|(w0 & Hw0 & H)]; [done|].
  destruct H as [(e & He & _)|(ms' & _ & H)]; [done|].
  destruct H as [(e & He & _)|(wa & Hwa & H)]; [done|].
  destruct H as [(_ & _ & ->)|(_ & wb & r2 & Hall & Hr)].
  - subst wa w0. simpl. by eexists.
  - destruct r2 as [[]|e2]; [|by destruct Hr]. destruct Hr as [_ ->].
    apply applyAll_table in Hall; [done|]. subst wa w0. simpl. by eexists.
Qed.

(** ** [Status] *)

Lemma printStatus_inv (applied : list string) (ms : MigrationSet) (w w' : World) r :
  migration.printStatus (appliedSetOf applied) ms w = (w', r) →
  r = Ok tt
  ∧ w' = mkWorld (committed w) (tx w) (log w ++ statusLines applied ms) (faults w).
Proof.
  revert w. induction ms as [|m rest IH]; intros w H.
  - injection H as <- <-. split; [done|]. destruct w. simpl. by rewrite app_nil_r.
  - cbn [migration.printStatus] in H. unfold bind at 1, print at 1 in H.
    apply IH in H as [-> ->]. split; [done|]. simpl.
    by rewrite isApplied_spec, <- app_assoc.
Qed.

Lemma Status_inv directory dir (w w' : World) r :
  migration.Status directory dir w = (w', r) →
  committed w' = committed w ∧ tx w' = tx w
  ∧ match r with
    | Ok _ =>
        ∃ ms, LoadMigrations directory dir = Ok ms
              ∧ is_Some (ledger (committed w))
              ∧ log w'
                = log w ++ [Done OpGetAppliedMigrations; Printed OutStatusHeader]
                  ++ match ms with
                     | [] => [Printed OutNoMigrations]
                     | _ =>
                         statusLines (appliedOf (committed w)) ms
                         ++ [Printed
                               (OutStatusTotal (length ms)
                                  (length (appliedOf (committed w)))
                                  (length (GetPending ms (appliedOf (committed w)))))]
                     end
    | Err (ErrLoadMigrations e) => LoadMigrations directory dir = Err e ∧ w' = w
    | Err (ErrGetApplied e) =>
        log w' = log w ++ [Failed OpGetAppliedMigrations]
        ∧ (e = ErrConnection ∨ e = ErrNoTable ∧ ledger (committed w) = None)
    | Err _ => False
    end.
Proof.
  unfold migration.Status, bind at 1, lift at 1.
  destruct (LoadMigrations directory dir) as [ms|el] eqn:Hload; [|by intros [= <- <-]].
  unfold bind at 1, wrap at 1.
  destruct (GetAppliedMigrations w) as [wa [applied|ea]] eqn:Hget.
  2:{ intros [= <- <-]. revert Hget. unfold GetAppliedMigrations.
      destruct (roundTrip w) as [fault w1] eqn:Hrt. apply roundTrip_inv in Hrt as ->.
      destruct fault; simpl.
      - intros [= <- <-]. simpl. auto.
      - destruct (ledger (committed w)) eqn:E; intros [= <- <-]. simpl.
        repeat split; auto. }
  apply GetAppliedMigrations_inv in Hget as (rows & Hrows & -> & ->).
  assert (map row_filename rows = appliedOf (committed w)) as ->
    by (unfold appliedOf; by rewrite Hrows).
  cbv beta zeta. unfold bind at 1, print at 1.
  destruct ms as [|m ms'].
  { intros [= <- <-]. simpl. split; [done|]. split; [done|].
    exists []. split; [done|]. split; [by eexists|]. by rewrite <- !app_assoc. }
  cbn [length Nat.eqb]. unfold bind at 1.
  destruct (migration.printStatus _ _ _) as [wb rb] eqn:Hst.
  apply printStatus_inv in Hst as [-> ->]. unfold print. intros [= <- <-]. simpl.
  split; [done|]. split; [done|].
  exists (m :: ms'). split; [done|]. split; [by eexists|].
  rewrite <- !app_assoc. done.
Qed.

(** X4. [Status] changes neither the database nor the transaction, however
    it ends. When it returns without error it has read the ledger once and
    printed a line for each migration of the set, in the order of the set,
    marked as applied exactly when its identity is in the ledger; the totals
    give the size of the set, the number of rows of the ledger (rows whose
    file is gone included) and the number of pending migrations, which is
    the number of lines not marked. *)
Theorem Status_reads_and_reports directory dir (w w' : World) r :
  migration.Status directory dir w = (w', r) →
  committed w' = committed w ∧ tx w' = tx w
  ∧ (r = Ok tt →
     ∃ ms, LoadMigrations directory dir = Ok ms
           ∧ log w'
             = log w ++ [Done OpGetAppliedMigrations; Printed OutStatusHeader]
               ++ match ms with
                  | [] => [Printed OutNoMigrations]
                  | _ =>
                      statusLines (appliedOf (committed w)) ms
                      ++ [Printed
                            (OutStatusTotal (length ms)
                               (length (appliedOf (committed w)))
                               (length (GetPending ms (appliedOf (committed w)))))]
                  end
           ∧ length (GetPending ms (appliedOf (committed w)))
             = length (filter (fun m => Filename m ∉ appliedOf (committed w)) ms)
           ∧ length ms
             = length (filter (fun m => Filename m ∈ appliedOf (committed w)) ms)
               + length (GetPending ms (appliedOf (committed w)))).
Proof.
  intros H. apply Status_inv in H as (Hc & Htx & Hr).
  split; [done|]. split; [done|]. intros ->.
  destruct Hr as (ms & Hload & _ & Hlog). exists ms.
  split; [done|]. split; [done|]. rewrite GetPending_filter. split; [done|].
  rewrite <- length_app.
  apply Permutation_length. symmetry.
  apply (filter_app_complement (fun m => Filename m ∈ appliedOf (committed w))).
Qed.

(** ** The identities of the ledger stay unique *)

Lemma applyAll_unique (pending : list Migration) (w w' : World) r :
  applyAll pending w = (w', r) →
  NoDup (appliedOf (committed w)) → NoDup (appliedOf (committed w')).
Proof.
  revert w. induction pending as [|m rest IH]; intros w H Hw.
  - by injection H as <- <-.
  - cbn [migration.applyAll] in H. unfold bind at 1, wrap at 1 in H.
    destruct (applyMigration m w) as [w1 [[]|te]] eqn:Hm.
    + apply (applyMigration_Ok exec_stmt) in Hm as (_ & Hn & Happ & _).
      unfold bind at 1, print at 1 in H. apply IH in H; [done|]. simpl.
      rewrite Happ. apply NoDup_app. split; [done|]. split; [|apply NoDup_singleton].
      intros x Hx Hx'. apply list_elem_of_singleton in Hx'. by subst x.
    + injection H as <- <-.
      apply (applyMigration_Err exec_stmt) in Hm as (-> & _). done.
Qed.

(** X5. [Up], [Down] and [Status] keep the identities of the ledger
    distinct: started on a ledger that holds no identity twice they leave
    one that holds none twice, however they end. *)
Theorem ledger_identities_stay_unique directory dir steps (w w' : World) r :
  NoDup (appliedOf (committed w)) →
  migration.Up exec_stmt directory dir w = (w', r)
  ∨ migration.Down exec_stmt directory dir steps w = (w', r)
  ∨ migration.Status directory dir w = (w', r) →
  NoDup (appliedOf (committed w')).
Proof.
  intros Hw [H|[H|H]].
  - apply Up_inv in H as [(e & _ & -> & _)|(w0 & Hw0 & H)]; [done|].
    assert (NoDup (appliedOf (committed w0))) as H0.
    { subst w0. simpl. by rewrite appliedOf_created. }
    destruct H as [(e & _ & _ & ->)|(ms & _ & H)]; [done|].
    destruct H as [(e & _ & -> & _)|(w1 & Hw1 & H)]; [done|].
    destruct H as [(_ & _ & ->)|(_ & w2 & r2 & Hall & Hr)].
    + subst w1. done.
    + apply applyAll_unique in Hall; [|subst w1; done].
      destruct r2 as [[]|e2]; destruct Hr as [_ ->]; done.
  - apply (Down_inv exec_stmt) in H as (evs & _ & _ & -> & _). by apply NoDup_filter.
  - by apply Status_inv in H as (-> & _).
Qed.

(** ** [Down] on no ledger and on an empty one *)

(** X6. On a ledger with no row [Down] does not look at the directory or at
    [steps]: it reads the ledger, prints that there is nothing to roll back
    and returns without error, also when the directory cannot be read; only
    the connection can make it fail. The database is left as it is. *)
Theorem Down_on_empty_ledger directory dir steps (w w' : World) r :
  ledger (committed w) = Some [] →
  migration.Down exec_stmt directory dir steps w = (w', r) →
  committed w' = committed w ∧ tx w' = tx w
  ∧ (r = Ok tt ∧ log w' = log w ++ [Done OpGetAppliedMigrations; Printed OutNoRollback]
     ∨ r = Err (ErrGetApplied ErrConnection)
       ∧ log w' = log w ++ [Failed OpGetAppliedMigrations]).
Proof.
  intros Hrows. unfold migration.Down, bind at 1, wrap at 1.
  destruct (GetAppliedMigrations w) as [wa [applied|ea]] eqn:Hget.
  - apply GetAppliedMigrations_inv in Hget as (rows & Hrows' & -> & ->).
    rewrite Hrows in Hrows'. injection Hrows' as <-. simpl. unfold print.
    intros [= <- <-]. simpl. split; [done|]. split; [done|]. left.
    by rewrite <- app_assoc.
  - revert Hget. unfold GetAppliedMigrations.
    destruct (roundTrip w) as [fault w1] eqn:Hrt. apply roundTrip_inv in Hrt as ->.
    destruct fault; simpl; [|by rewrite Hrows].
    intros [= <- <-] [= <- <-]. simpl. auto.
Qed.

(** X7. The ledger table is created by [Up] alone. On a database without
    it [Down] fails on its first call and [Status] on its call after the
    load, with the error of the read of the ledger, and the table is still
    missing; [Up] leaves the table in place whenever its first call did not
    fail. *)
Theorem only_Up_creates_the_ledger directory dir steps (w w' : World) r :
  ledger (committed w) = None →
  (migration.Down exec_stmt directory dir steps w = (w', r) →
     (∃ e, r = Err (ErrGetApplied e)) ∧ committed w' = committed w)
  ∧ (migration.Status directory dir w = (w', r) →
       ((∃ e, r = Err (ErrGetApplied e)) ∨ (∃ e, r = Err (ErrLoadMigrations e)))
       ∧ committed w' = committed w)
  ∧ (migration.Up exec_stmt directory dir w = (w', r) →
       (∃ e, r = Err (ErrCreateTable e) ∧ committed w' = committed w)
       ∨ is_Some (ledger (committed w'))).
Proof.
  intros Hnone. split; [|split].
  - unfold migration.Down, bind at 1, wrap at 1.
    destruct (GetAppliedMigrations w) as [wa [applied|ea]] eqn:Hget;
      apply GetAppliedMigrations_inv in Hget.
    + destruct Hget as (rows & Hrows & _). congruence.
    + intros [= <- <-]. subst wa. split; [by eexists|done].
  - intros H. apply Status_inv in H as (Hc & _ & Hr). split; [|done].
    destruct r as [[]|[]]; try done.
    + destruct Hr as (ms & _ & [rows Hrows] & _). congruence.
    + right. by eexists.
    + left. by eexists.
  - intros H. apply Up_inv in H as [(e & -> & Hc & _)|(w0 & Hw0 & H)].
    { left. by exists e. }
    right.
    destruct H as [(e & _ & _ & ->)|(ms & _ & H)]; [subst w0; by eexists|].
    destruct H as [(e & _ & -> & _)|(w1 & Hw1 & H)]; [subst w0; by eexists|].
    destruct H as [(_ & _ & ->)|(_ & w2 & r2 & Hall & Hr)].
    + subst w1 w0. by eexists.
    + apply applyAll_table in Hall; [|subst w1 w0; by eexists].
      destruct r2 as [[]|e2]; destruct Hr as [_ ->]; done.
Qed.

(** ** [Down] on a ledger without doubles, and after [Up] *)

Lemma filter_keeps_front (front back : list string) :
  (∀ x, x ∈ front → x ∉ back) →
  filter (fun g => g ∉ rev back) (front ++ back) = front.
Proof.
  intros Hdis. rewrite filter_app.
  assert (filter (fun g => g ∉ rev back) back = []) as ->.
  { assert (∀ l, (∀ x, x ∈ l → x ∈ back) → filter (fun g => g ∉ rev back) l = [])
      as Hall.
    { induction l as [|x l IH]; intros Hl; [done|].
      rewrite filter_cons_False.
      - apply IH. intros y Hy. by apply Hl, list_elem_of_further.
      - intros Hn. apply Hn. apply list_elem_of_In, in_rev. rewrite rev_involutive.
        apply list_elem_of_In, Hl, list_elem_of_here. }
    by apply Hall. }
  rewrite app_nil_r. induction front as [|x front IH]; [done|].
  rewrite filter_cons_True.
  - f_equal. apply IH. intros y Hy. by apply Hdis, list_elem_of_further.
  - intros Hin. apply (Hdis x); [apply list_elem_of_here|].
    apply list_elem_of_In, in_rev, list_elem_of_In in Hin. done.
Qed.

Lemma Down_Ok_take directory dir steps (w w' : World) :
  NoDup (appliedOf (committed w)) →
  migration.Down exec_stmt directory dir steps w = (w', Ok tt) →
  appliedOf (committed w')
  = take (length (appliedOf (committed w))
          - migration.clampSteps steps (length (appliedOf (committed w))))
         (appliedOf (committed w)).
Proof.
  intros Hnd H. apply (Down_inv exec_stmt) in H as (evs & _ & _ & Happ & _ & Hr).
  rewrite Happ, Hr. unfold selected.
  set (k := length (appliedOf (committed w))
            - migration.clampSteps steps (length (appliedOf (committed w)))).
  rewrite <- (take_drop k (appliedOf (committed w))) in Hnd.
  apply NoDup_app in Hnd as (_ & Hdis & _).
  transitivity (filter (fun g => g ∉ rev (drop k (appliedOf (committed w))))
                  (take k (appliedOf (committed w)) ++ drop k (appliedOf (committed w)))).
  - by rewrite take_drop.
  - by apply filter_keeps_front.
Qed.

(** X8. On a ledger that holds no identity twice, a [Down] that returns
    without error leaves the first rows of the ledger, in their order: all
    but the last [steps] after the clamp. *)
Theorem Down_keeps_the_first_entries directory dir steps (w w' : World) :
  NoDup (appliedOf (committed w)) →
  migration.Down exec_stmt directory dir steps w = (w', Ok tt) →
  appliedOf (committed w')
  = take (length (appliedOf (committed w))
          - migration.clampSteps steps (length (appliedOf (committed w))))
         (appliedOf (committed w)).
Proof. apply Down_Ok_take. Qed.

(** X9. An [Up] that applied at least one migration, then a [Down] of as
    many steps as it applied, both without error: the ledger is the one
    before the [Up]. *)
Theorem Up_then_Down_restores_ledger directory dir ms (w w1 w2 : World) :
  LoadMigrations directory dir = Ok ms →
  GetPending ms (appliedOf (committed w)) ≠ [] →
  migration.Up exec_stmt directory dir w = (w1, Ok tt) →
  migration.Down exec_stmt directory dir
    (Z.of_nat (length (GetPending ms (appliedOf (committed w))))) w1 = (w2, Ok tt) →
  appliedOf (committed w2) = appliedOf (committed w).
Proof.
  intros Hload Hne Hup Hdown.
  destruct (Up_Ok_ledger _ _ _ _ Hup) as (ms' & Hload' & Happ & _).
  rewrite Hload in Hload'. injection Hload' as <-.
  apply (Down_inv exec_stmt) in Hdown as (evs & _ & _ & Happ2 & _ & Hr).
  rewrite Happ2, Hr, Happ. unfold selected.
  set (pending := GetPending ms (appliedOf (committed w))) in *.
  assert (length pending ≠ 0) as Hlen by (destruct pending; simpl; [done|lia]).
  assert (migration.clampSteps (Z.of_nat (length pending))
            (length (appliedOf (committed w) ++ map Filename pending))
          = length pending) as ->.
  { unfold migration.clampSteps. rewrite length_app, length_map.
    destruct (Z.leb_spec (Z.of_nat (length pending)) 0); [lia|].
    destruct (Z.ltb_spec (Z.of_nat (length (appliedOf (committed w)) + length pending))
                (Z.of_nat (length pending))); [lia|]. simpl. apply Nat2Z.id. }
  rewrite length_app, length_map.
  replace (length (appliedOf (committed w)) + length pending - length pending)
    with (length (appliedOf (committed w)) + 0) by lia.
  rewrite drop_app_add. simpl.
  apply filter_keeps_front. intros x Hx Hx'.
  apply list_elem_of_fmap in Hx' as (m & -> & Hm). unfold pending in Hm.
  rewrite GetPending_filter in Hm. by apply list_elem_of_filter in Hm as [Hn _].
Qed.

(** ** [Up] only appends *)

(** X10. Whatever [Up] returns, the ledger after it is the ledger before
    it followed by some of the pending identities: a prefix of them, in
    the order of the set (none when the load fails). [Up] removes and
    reorders no row, and it leaves no transaction open. *)
Theorem Up_only_appends directory dir (w w' : World) r :
  tx w = None →
  migration.Up exec_stmt directory dir w = (w', r) →
  tx w' = None
  ∧ ∃ pre,
      appliedOf (committed w') = appliedOf (committed w) ++ pre
      ∧ match LoadMigrations directory dir with
        | Ok ms => pre `prefix_of` map Filename (GetPending ms (appliedOf (committed w)))
        | Err _ => pre = []
        end.
Proof.
  intros Htx H.
  assert (∀ ms : result LoadError MigrationSet,
            match ms with
            | Ok ms => [] `prefix_of` map Filename (GetPending ms (appliedOf (committed w)))
            | Err _ => @nil string = []
            end) as Hnil.
  { intros [ms|e]; [apply prefix_nil|done]. }
  apply Up_inv in H as [(e & _ & Hc & Htx' & _)|(w0 & Hw0 & H)].
  { split; [congruence|]. exists []. rewrite Hc, app_nil_r. split; [done|apply Hnil]. }
  assert (appliedOf (committed w0) = appliedOf (committed w)) as Hsame0.
  { subst w0. simpl. apply appliedOf_created. }
  assert (tx w0 = None) as Htx0 by (by subst w0).
  destruct H as [(e & _ & _ & ->)|(ms & Hload & H)].
  { split; [done|]. exists []. rewrite Hsame0, app_nil_r. split; [done|apply Hnil]. }
  destruct H as [(e & _ & Hc & Htx' & _)|(w1 & Hw1 & H)].
  { split; [congruence|]. exists []. rewrite Hc, Hsame0, app_nil_r.
    split; [done|apply Hnil]. }
  assert (appliedOf (committed w1) = appliedOf (committed w)) as Hsame1.
  { subst w1. simpl. done. }
  assert (tx w1 = None) as Htx1 by (by subst w1).
  rewrite Hload.
  destruct H as [(_ & _ & ->)|(_ & w2 & r2 & Hall & Hr)].
  { split; [done|]. exists []. simpl. rewrite Hsame1, app_nil_r.
    split; [done|apply prefix_nil]. }
  destruct r2 as [[]|e2]; destruct Hr as [_ ->].
  - apply (applyAll_inv exec_stmt) in Hall as [Htx2 Happ]. simpl in *.
    split; [by apply Htx2|]. eexists. split; [by rewrite Happ, Hsame1|done].
  - apply (applyAll_inv exec_stmt) in Hall
      as (pre & m & rest & w3 & te & Hpending & _ & Hpre & Hm).
    apply (applyAll_inv exec_stmt) in Hpre as [Htx3 Happ]. simpl in *.
    apply (applyMigration_Err exec_stmt) in Hm as (Hc & Htx' & _).
    split; [by apply Htx', Htx3|]. exists (map Filename pre).
    rewrite Hc, Happ, Hsame1. split; [done|].
    rewrite Hpending, map_app. by apply prefix_app_r.
Qed.

End MoreEngine.

(** * Further properties of the loader *)

Lemma checkAll_nonempty entries acc migrations :
  checkAll entries acc = Ok migrations →
  ∀ e, e ∈ entries → Up (snd e) ≠ "".
Proof.
  revert acc. induction entries as [|[k m] rest IH]; intros acc H e He.
  - by apply elem_of_nil in He.
  - simpl in H. destruct (Up m =? "")%string eqn:E; [done|].
    apply elem_of_cons in He as [->|He].
    + simpl. by apply String.eqb_neq in E.
    + by eapply IH.
Qed.

Lemma GetMigrationByFilename_NoDup (ms : MigrationSet) (m : Migration) :
  NoDup (map Filename ms) → m ∈ ms →
  GetMigrationByFilename ms (Filename m) = Some m.
Proof.
  induction ms as [|m0 ms IH]; intros Hnd Hm; [by apply elem_of_nil in Hm|].
  simpl in Hnd. apply NoDup_cons in Hnd as [Hnot Hnd]. simpl.
  apply elem_of_cons in Hm as [->|Hm]; [by rewrite String.eqb_refl|].
  destruct (String.eqb_spec (Filename m0) (Filename m)) as [Heq|_]; [|by apply IH].
  exfalso. apply Hnot. rewrite Heq. by apply list_elem_of_fmap_2.
Qed.

(** X11. The set a load returns holds each identity once, in ascending
    timestamps; each record has a non-empty up script and the checksum of
    that script, and [GetMigrationByFilename] on its identity returns the
    record itself. *)
Theorem loaded_set_is_well_formed directory dir ms :
  LoadMigrations directory dir = Ok ms →
  NoDup (map Filename ms) ∧ ascending ms
  ∧ ∀ m, m ∈ ms →
      Up m ≠ "" ∧ Checksum m = generateChecksum (Up m)
      ∧ GetMigrationByFilename ms (Filename m) = Some m.
Proof.
  intros H. pose proof (LoadMigrations_NoDup _ _ _ H) as Hnd.
  split; [done|]. split; [by eapply LoadMigrations_ascending|].
  intros m Hm. split; [|split].
  - destruct dir as [| |files]; simpl in H.
    + injection H as <-. by apply elem_of_nil in Hm.
    + done.
    + destruct (scanFiles directory files ∅) as [mp|] eqn:Hscan; [|done].
      destruct (checkAll (map_to_list mp) []) as [migrations|] eqn:Hcheck; [|done].
      injection H as <-. rewrite sort_Slice_Permutation in Hm.
      pose proof (checkAll_nonempty _ _ _ Hcheck) as Hne.
      apply checkAll_spec in Hcheck as ->. simpl in Hm.
      apply list_elem_of_fmap in Hm as (e & -> & He). simpl. by apply Hne.
  - by destruct (LoadMigrations_elem _ _ _ _ H Hm).
  - by apply GetMigrationByFilename_NoDup.
Qed.

(** ** File names *)

Lemma str_app_cons (x : ascii) (a b : string) : String x a +:+ b = String x (a +:+ b).
Proof. reflexivity. Qed.

Lemma str_app_nil_l (b : string) : "" +:+ b = b.
Proof. reflexivity. Qed.

Ltac str_simpl := rewrite ?str_app_cons, ?str_app_nil_l; simpl.

Lemma str_app_assoc (a b c : string) : (a +:+ b) +:+ c = a +:+ (b +:+ c).
Proof. induction a as [|x a IH]; str_simpl; [done|by rewrite IH]. Qed.

Lemma str_app_length (a b : string) :
  String.length (a +:+ b) = String.length a + String.length b.
Proof. induction a as [|x a IH]; str_simpl; [done|by rewrite IH]. Qed.

Lemma str_app_nil_r (a : string) : a +:+ "" = a.
Proof. induction a as [|x a IH]; str_simpl; [done|by rewrite IH]. Qed.

Lemma substring_whole (s : string) : substring 0 (String.length s) s = s.
Proof. induction s as [|c s IH]; simpl; [done|by rewrite IH]. Qed.

Lemma substring_cut (s : string) (n k m : nat) :
  substring n (k + m) s = substring n k s +:+ substring (n + k) m s.
Proof.
  revert n k. induction s as [|c s IH]; intros n k.
  - destruct n, k, m; reflexivity.
  - destruct n as [|n]; simpl.
    + destruct k as [|k]; simpl; [done|]. by rewrite (IH 0 k).
    + apply IH.
Qed.

Lemma substring_over (s : string) (n m : nat) :
  (String.length s - n <= m)%nat → substring n m s = substring n (String.length s - n) s.
Proof.
  revert n m. induction s as [|c s IH]; intros n m Hle.
  - destruct n, m; reflexivity.
  - destruct n as [|n]; simpl in *.
    + destruct m as [|m]; [lia|]. f_equal. rewrite (IH 0 m) by lia.
      by rewrite Nat.sub_0_r.
    + by apply IH.
Qed.

Lemma substring_split (s : string) (n : nat) :
  (n <= String.length s)%nat →
  substring 0 n s +:+ substring n (String.length s - n) s = s.
Proof.
  intros Hn. pose proof (substring_cut s 0 n (String.length s - n)) as Hcut.
  simpl in Hcut. rewrite <- Hcut.
  replace (n + (String.length s - n)) with (String.length s) by lia.
  apply substring_whole.
Qed.

Lemma substring_app_r (a b : string) (n m : nat) :
  substring (String.length a + n) m (a +:+ b) = substring n m b.
Proof. induction a as [|x a IH]; str_simpl; [done|apply IH]. Qed.

Lemma substring_length_le (s : string) (n m : nat) :
  (n + m <= String.length s)%nat → String.length (substring n m s) = m.
Proof.
  revert n m. induction s as [|c s IH]; intros n m Hle; simpl in Hle.
  - by destruct n, m; simpl in *; try lia.
  - destruct n as [|n]; simpl.
    + destruct m as [|m]; simpl; [done|]. rewrite (IH 0 m); [done|lia].
    + apply IH. lia.
Qed.

Lemma hasSuffix_app (a suf : string) : hasSuffix (a +:+ suf) suf = true.
Proof.
  unfold hasSuffix. rewrite str_app_length.
  replace (String.length a + String.length suf - String.length suf)
    with (String.length a + 0) by lia.
  rewrite substring_app_r, substring_whole. apply String.eqb_refl.
Qed.

Lemma hasSuffix_inv (s suf : string) :
  hasSuffix s suf = true →
  s = substring 0 (String.length s - String.length suf) s +:+ suf.
Proof.
  unfold hasSuffix. intros H. apply String.eqb_eq in H.
  destruct (Nat.le_gt_cases (String.length suf) (String.length s)) as [Hle|Hgt].
  - pose proof (substring_split s (String.length s - String.length suf)) as Hsplit.
    replace (String.length s - (String.length s - String.length suf))
      with (String.length suf) in Hsplit by lia.
    rewrite H in Hsplit. symmetry. apply Hsplit. lia.
  - replace (String.length s - String.length suf) with 0 in * by lia.
    rewrite substring_over in H by lia. rewrite Nat.sub_0_r, substring_whole in H.
    subst s. by destruct suf.
Qed.

Lemma matchStem_inv stem direction timestamp name d :
  matchStem stem direction = Some (timestamp, name, d) →
  stem = timestamp +:+ "_" +:+ name ∧ d = direction
  ∧ String.length timestamp = 14 ∧ allChars GoTime.isDigit timestamp = true
  ∧ name ≠ "" ∧ allChars notNewline name = true.
Proof.
  unfold matchStem. intros H.
  destruct (String.length (substring 0 14 stem) =? 14)%nat eqn:Hlen; [|done].
  destruct (allChars GoTime.isDigit (substring 0 14 stem)) eqn:Hdig; [|done].
  destruct (String.eqb (substring 14 1 stem) "_") eqn:Hsep; [|done].
  destruct (String.length (substring 15 (String.length stem - 15) stem) =? 0)%nat
    eqn:Hname; [done|].
  destruct (allChars notNewline (substring 15 (String.length stem - 15) stem))
    eqn:Hnl; [|done].
  simpl in H. injection H as <- <- <-.
  apply Nat.eqb_eq in Hlen. apply String.eqb_eq in Hsep. apply Nat.eqb_neq in Hname.
  split; [|split; [done|split; [done|split; [done|split; [|done]]]]].
  - assert (15 <= String.length stem)%nat as Hlong.
    { destruct (Nat.le_gt_cases 15 (String.length stem)) as [?|Hshort]; [done|].
      exfalso. apply Hname.
      replace (String.length stem - 15) with 0 by lia.
      clear -Hshort. revert Hshort. generalize 15 as n.
      induction stem as [|c stem IH]; intros n Hn; destruct n; simpl in *; try done;
        try lia. apply IH. lia. }
    rewrite <- Hsep.
    rewrite <- (substring_split stem 14) at 1 by lia. f_equal.
    replace (String.length stem - 14) with (1 + (String.length stem - 15)) by lia.
    apply substring_cut.
  - intros Hempty. rewrite Hempty in Hname. by apply Hname.
Qed.

Lemma matchStem_app timestamp name direction :
  String.length timestamp = 14 → allChars GoTime.isDigit timestamp = true →
  name ≠ "" → allChars notNewline name = true →
  matchStem (timestamp +:+ "_" +:+ name) direction = Some (timestamp, name, direction).
Proof.
  intros Hlen Hdig Hname Hnl. unfold matchStem.
  assert (substring 0 14 (timestamp +:+ "_" +:+ name) = timestamp) as ->.
  { rewrite <- Hlen. apply substring_0_app. }
  assert (substring 14 1 (timestamp +:+ "_" +:+ name) = "_") as ->.
  { replace 14 with (String.length timestamp + 0) by lia.
    rewrite substring_app_r. by destruct name. }
  assert (substring 15 (String.length (timestamp +:+ "_" +:+ name) - 15)
            (timestamp +:+ "_" +:+ name) = name) as ->.
  { rewrite !str_app_length. simpl String.length.
    replace (String.length timestamp + S (String.length name) - 15)
      with (String.length name) by lia.
    replace 15 with (String.length timestamp + 1) by lia.
    rewrite substring_app_r, str_app_cons, str_app_nil_l. simpl.
    replace (String.length timestamp + S (String.length name)
             - (String.length timestamp + 1)) with (String.length name) by lia.
    apply substring_whole. }
  rewrite Hlen, Hdig, Hnl. simpl.
  destruct name; [done|]. reflexivity.
Qed.

Lemma down_is_not_up (stem : string) : hasSuffix (stem +:+ ".down.sql") ".up.sql" = false.
Proof.
  unfold hasSuffix. rewrite str_app_length. simpl.
  replace (String.length stem + 9 - 7) with (String.length stem + 2) by lia.
  by rewrite substring_app_r.
Qed.

Lemma migrationRegex_inv (fileName timestamp name : string) (direction : Direction) :
  migrationRegex fileName = Some (timestamp, name, direction) →
  fileName = timestamp +:+ "_" +:+ name +:+ suffixOf direction
  ∧ String.length timestamp = 14 ∧ allChars GoTime.isDigit timestamp = true
  ∧ name ≠ "" ∧ allChars notNewline name = true.
Proof.
  unfold migrationRegex. intros H.
  destruct (hasSuffix fileName ".up.sql") eqn:Hup.
  - apply matchStem_inv in H as (Hstem & -> & Hrest).
    split; [|done]. apply hasSuffix_inv in Hup. simpl in Hup.
    rewrite Hup, Hstem at 1. simpl. by rewrite !str_app_assoc.
  - destruct (hasSuffix fileName ".down.sql") eqn:Hdown; [|done].
    apply matchStem_inv in H as (Hstem & -> & Hrest).
    split; [|done]. apply hasSuffix_inv in Hdown. simpl in Hdown.
    rewrite Hdown, Hstem at 1. simpl. by rewrite !str_app_assoc.
Qed.

Lemma migrationRegex_app (timestamp name : string) (direction : Direction) :
  String.length timestamp = 14 → allChars GoTime.isDigit timestamp = true →
  name ≠ "" → allChars notNewline name = true →
  migrationRegex (timestamp +:+ "_" +:+ name +:+ suffixOf direction)
  = Some (timestamp, name, direction).
Proof.
  intros Hlen Hdig Hname Hnl. unfold migrationRegex.
  replace (timestamp +:+ "_" +:+ name +:+ suffixOf direction)
    with ((timestamp +:+ "_" +:+ name) +:+ suffixOf direction)
    by (by rewrite !str_app_assoc).
  destruct direction; simpl suffixOf.
  - rewrite hasSuffix_app, str_app_length. simpl String.length at 2.
    replace (String.length (timestamp +:+ "_" +:+ name) + 7 - 7)
      with (String.length (timestamp +:+ "_" +:+ name)) by lia.
    rewrite substring_0_app. by apply matchStem_app.
  - rewrite down_is_not_up, hasSuffix_app, str_app_length. simpl String.length at 2.
    replace (String.length (timestamp +:+ "_" +:+ name) + 9 - 9)
      with (String.length (timestamp +:+ "_" +:+ name)) by lia.
    rewrite substring_0_app. by apply matchStem_app.
Qed.

(** X12. The file names the loader takes are the names made of fourteen
    digits, an underscore, a non-empty name without a newline, and [.up.sql]
    or [.down.sql]; the identity and the direction it reads off such a name
    are the ones the name was made of. *)
Theorem migrationRegex_accepts (fileName timestamp name : string) (direction : Direction) :
  migrationRegex fileName = Some (timestamp, name, direction)
  ↔ fileName = timestamp +:+ "_" +:+ name +:+ suffixOf direction
    ∧ String.length timestamp = 14 ∧ allChars GoTime.isDigit timestamp = true
    ∧ name ≠ "" ∧ allChars notNewline name = true.
Proof.
  split; [apply migrationRegex_inv|].
  intros (-> & Hlen & Hdig & Hname & Hnl). by apply migrationRegex_app.
Qed.

(** ** The scripts of a loaded set *)

Lemma scriptOf_Some k direction entry text :
  scriptOf k direction entry = Some text →
  IsDir entry = false ∧ Name entry = k +:+ suffixOf direction
  ∧ content entry = Some text.
Proof.
  unfold scriptOf. destruct (IsDir entry); [done|].
  destruct (migrationRegex (Name entry)) as [[[timestamp name] d]|] eqn:Hre; [|done].
  destruct (String.eqb_spec (timestamp +:+ "_" +:+ name) k) as [<-|]; [|done].
  destruct direction, d; try done; simpl; intros ->;
    apply migrationRegex_inv in Hre as (-> & _); by rewrite !str_app_assoc.
Qed.

Lemma scriptOf_matched k direction entry timestamp name :
  IsDir entry = false →
  migrationRegex (Name entry) = Some (timestamp, name, direction) →
  k = timestamp +:+ "_" +:+ name →
  scriptOf k direction entry = content entry.
Proof.
  intros Hdir Hre ->. unfold scriptOf. rewrite Hdir, Hre, String.eqb_refl.
  by destruct direction.
Qed.

Lemma lastScript_none files k direction init :
  (∀ f text, f ∈ files → scriptOf k direction f = Some text → text = init) →
  lastScript files k direction init = init.
Proof.
  induction files as [|f files IH]; intros Hnone; simpl; [done|].
  destruct (scriptOf k direction f) as [text|] eqn:E; simpl.
  - rewrite (Hnone f text); [|apply list_elem_of_here|done].
    apply IH. intros g t Hg. apply Hnone. by apply list_elem_of_further.
  - apply IH. intros g t Hg. apply Hnone. by apply list_elem_of_further.
Qed.

Lemma lastScript_inv files k direction init :
  lastScript files k direction init = init
  ∨ ∃ f, f ∈ files ∧ scriptOf k direction f = Some (lastScript files k direction init).
Proof.
  revert init. induction files as [|f files IH]; intros init; simpl; [by left|].
  destruct (IH (default init (scriptOf k direction f))) as [Heq|(g & Hg & Hscript)].
  - rewrite Heq. destruct (scriptOf k direction f) as [text|] eqn:E; simpl; [|by left].
    right. exists f. split; [apply list_elem_of_here|done].
  - right. exists g. split; [by apply list_elem_of_further|done].
Qed.

Lemma lastScript_unique files k direction init entry text :
  NoDup (map Name files) → entry ∈ files →
  scriptOf k direction entry = Some text →
  lastScript files k direction init = text.
Proof.
  revert init. induction files as [|f files IH]; intros init Hnd Hin Hscript.
  - by apply elem_of_nil in Hin.
  - simpl in Hnd. apply NoDup_cons in Hnd as [Hnot Hnd]. simpl.
    apply elem_of_cons in Hin as [<-|Hin]; [|by apply IH].
    rewrite Hscript. simpl. apply lastScript_none. intros g t Hg Ht.
    exfalso. apply Hnot.
    apply scriptOf_Some in Hscript as (_ & -> & _).
    apply scriptOf_Some in Ht as (_ & <- & _). by apply list_elem_of_fmap_2.
Qed.

(** The scripts of the records of [migrationMap] after the first loop. *)
Lemma scanFiles_scripts directory files mp mp' k m direction :
  scanFiles directory files mp = Ok mp' → mp' !! k = Some m →
  scriptField direction m
  = lastScript files k direction (from_option (scriptField direction) "" (mp !! k)).
Proof.
  revert mp. induction files as [|entry rest IH]; intros mp H Hm.
  - injection H as <-. by rewrite Hm.
  - cbn [scanFiles lastScript] in *. unfold scriptOf.
    destruct (IsDir entry); [by apply IH|].
    destruct (migrationRegex (Name entry)) as [[[timestamp name] d]|]; [|by apply IH].
    destruct (content entry) as [contentStr|]; [|done].
    rewrite (IH _ H Hm). f_equal. clear.
    destruct (String.eqb_spec (timestamp +:+ "_" +:+ name) k) as [<-|Hne].
    + destruct (mp !! (timestamp +:+ "_" +:+ name)) as [m0|] eqn:E;
        destruct d, direction; simpl;
        rewrite lookup_alter, decide_True, ?lookup_insert_eq, ?E by done; done.
    + destruct (mp !! (timestamp +:+ "_" +:+ name)) as [m0|] eqn:E;
        destruct d; simpl;
        rewrite lookup_alter, decide_False, ?lookup_insert_ne by done; done.
Qed.

Lemma scanFiles_readable directory files mp mp' entry timestamp name direction :
  scanFiles directory files mp = Ok mp' →
  entry ∈ files → IsDir entry = false →
  migrationRegex (Name entry) = Some (timestamp, name, direction) →
  is_Some (content entry).
Proof.
  revert mp. induction files as [|f rest IH]; intros mp H Hin Hdir Hre.
  - by apply elem_of_nil in Hin.
  - simpl in H. apply elem_of_cons in Hin as [<-|Hin].
    + rewrite Hdir, Hre in H. by destruct (content entry).
    + destruct (IsDir f); [by eapply IH|].
      destruct (migrationRegex (Name f)) as [[[timestamp0 name0] d0]|]; [|by eapply IH].
      destruct (content f); [by eapply IH|done].
Qed.

(** Every record of [migrationMap] was made for a file. *)
Lemma scanFiles_origin directory files mp mp' k :
  scanFiles directory files mp = Ok mp' → is_Some (mp' !! k) →
  is_Some (mp !! k)
  ∨ ∃ entry timestamp name direction,
      entry ∈ files ∧ IsDir entry = false
      ∧ migrationRegex (Name entry) = Some (timestamp, name, direction)
      ∧ k = timestamp +:+ "_" +:+ name.
Proof.
  revert mp. induction files as [|f rest IH]; intros mp H Hk.
  - injection H as <-. by left.
  - assert (∀ mp0, scanFiles directory rest mp0 = Ok mp' →
              (is_Some (mp0 !! k) → is_Some (mp !! k)
               ∨ ∃ entry timestamp name direction,
                   entry ∈ f :: rest ∧ IsDir entry = false
                   ∧ migrationRegex (Name entry) = Some (timestamp, name, direction)
                   ∧ k = timestamp +:+ "_" +:+ name) →
              is_Some (mp !! k)
              ∨ ∃ entry timestamp name direction,
                  entry ∈ f :: rest ∧ IsDir entry = false
                  ∧ migrationRegex (Name entry) = Some (timestamp, name, direction)
                  ∧ k = timestamp +:+ "_" +:+ name) as Hstep.
    { intros mp0 H0 Hmp0. destruct (IH _ H0 Hk) as [Hin|(e & t & n & d & He & Hrest)].
      - by apply Hmp0.
      - right. exists e, t, n, d. split; [by apply list_elem_of_further|done]. }
    simpl in H. destruct (IsDir f) eqn:Hdir; [apply (Hstep _ H); by left|].
    destruct (migrationRegex (Name f)) as [[[timestamp name] d]|] eqn:Hre;
      [|apply (Hstep _ H); by left].
    destruct (content f) as [contentStr|]; [|done].
    apply (Hstep _ H). intros Hsome.
    destruct (String.eqb_spec (timestamp +:+ "_" +:+ name) k) as [<-|Hne].
    + right. exists f, timestamp, name, d. split; [apply list_elem_of_here|done].
    + left. revert Hsome.
      destruct (mp !! (timestamp +:+ "_" +:+ name)) as [m0|] eqn:E;
        destruct d; rewrite lookup_alter, decide_False, ?lookup_insert_ne by done; done.
Qed.

Lemma checkAll_Err entries acc e :
  checkAll entries acc = Err e →
  ∃ k m, (k, m) ∈ entries ∧ Up m = "" ∧ e = ErrMissingUp (Filename m).
Proof.
  revert acc. induction entries as [|[k m] rest IH]; intros acc H; simpl in H; [done|].
  destruct (String.eqb_spec (Up m) "") as [Hup|_].
  - injection H as <-. exists k, m. split; [apply list_elem_of_here|done].
  - apply IH in H as (k' & m' & Hin & Hrest). exists k', m'.
    split; [by apply list_elem_of_further|done].
Qed.

Lemma LoadMigrations_scripts directory files ms m direction :
  LoadMigrations directory (DirFiles files) = Ok ms → m ∈ ms →
  scriptField direction m = lastScript files (Filename m) direction "".
Proof.
  unfold LoadMigrations. intros H Hm.
  destruct (scanFiles directory files ∅) as [mp|] eqn:Hscan; [|done].
  destruct (checkAll (map_to_list mp) []) as [migrations|] eqn:Hcheck; [|done].
  injection H as <-. rewrite sort_Slice_Permutation in Hm.
  apply checkAll_spec in Hcheck as ->. simpl in Hm.
  apply list_elem_of_fmap in Hm as ([k m0] & -> & He). simpl.
  apply elem_of_map_to_list in He.
  assert (keyed mp) as Hkeyed.
  { eapply scanFiles_keyed; [exact Hscan|]. intros k' m'. by rewrite lookup_empty. }
  destruct (Hkeyed _ _ He) as [Hk _].
  pose proof (scanFiles_scripts _ _ _ _ _ _ direction Hscan He) as Hs.
  rewrite lookup_empty in Hs. simpl in Hs. rewrite Hk, <- Hs. by destruct direction.
Qed.

Lemma LoadMigrations_file_script directory files ms entry timestamp name direction text :
  LoadMigrations directory (DirFiles files) = Ok ms →
  NoDup (map Name files) →
  entry ∈ files → IsDir entry = false →
  migrationRegex (Name entry) = Some (timestamp, name, direction) →
  content entry = Some text →
  ∃ m, m ∈ ms ∧ Filename m = timestamp +:+ "_" +:+ name
       ∧ scriptField direction m = text.
Proof.
  intros H Hnd Hin Hdir Hre Htext.
  pose proof H as H0. unfold LoadMigrations in H0.
  destruct (scanFiles directory files ∅) as [mp|] eqn:Hscan; [|done].
  destruct (checkAll (map_to_list mp) []) as [migrations|] eqn:Hcheck; [|done].
  injection H0 as Hms.
  destruct (scanFiles_has _ _ _ _ _ _ _ _ Hscan Hin Hdir Hre) as [m0 Hm0].
  assert (keyed mp) as Hkeyed.
  { eapply scanFiles_keyed; [exact Hscan|]. intros k' m'. by rewrite lookup_empty. }
  destruct (Hkeyed _ _ Hm0) as [Hname _].
  set (m := set_Checksum (generateChecksum (Up m0)) m0).
  assert (m ∈ ms) as Hm.
  { rewrite <- Hms, sort_Slice_Permutation.
    apply checkAll_spec in Hcheck as ->. simpl.
    apply (list_elem_of_fmap_2 (fun e => set_Checksum (generateChecksum (Up e.2)) e.2)
             _ (timestamp +:+ "_" +:+ name, m0)).
    by apply elem_of_map_to_list. }
  exists m. split; [done|]. split; [done|].
  rewrite (LoadMigrations_scripts _ _ _ _ direction H Hm).
  apply (lastScript_unique _ _ _ _ entry); [done..|].
  rewrite <- Htext. apply (scriptOf_matched _ _ _ timestamp name); done.
Qed.

(** X13. The scripts of a loaded set are the contents of the files. In a
    directory that lists no name twice, a regular file the loader takes gives
    its identity a record whose script of that direction is the content of
    the file, byte for byte. And the loader invents nothing: the up script
    of a record is the content of the file of its identity that ends in
    [.up.sql], and its down script is empty or the content of the file that
    ends in [.down.sql]. *)
Theorem loaded_scripts_are_the_files directory files ms :
  LoadMigrations directory (DirFiles files) = Ok ms →
  (NoDup (map Name files) →
   ∀ entry timestamp name direction text,
     entry ∈ files → IsDir entry = false →
     migrationRegex (Name entry) = Some (timestamp, name, direction) →
     content entry = Some text →
     ∃ m, m ∈ ms ∧ Filename m = timestamp +:+ "_" +:+ name
          ∧ scriptField direction m = text)
  ∧ ∀ m, m ∈ ms →
      (∃ entry, entry ∈ files ∧ IsDir entry = false
                ∧ Name entry = Filename m +:+ ".up.sql"
                ∧ content entry = Some (Up m))
      ∧ (Down m = ""
         ∨ ∃ entry, entry ∈ files ∧ IsDir entry = false
                    ∧ Name entry = Filename m +:+ ".down.sql"
                    ∧ content entry = Some (Down m)).
Proof.
  intros H. split.
  - intros Hnd entry timestamp name direction text Hin Hdir Hre Htext.
    by apply (LoadMigrations_file_script directory files ms entry).
  - intros m Hm. split.
    + pose proof (LoadMigrations_scripts _ _ _ _ DirUp H Hm) as Hup. simpl in Hup.
      destruct (lastScript_inv files (Filename m) DirUp "") as [Hinit|(f & Hf & Hscript)].
      * exfalso. rewrite Hinit in Hup. revert Hup.
        unfold LoadMigrations in H.
        destruct (scanFiles directory files ∅) as [mp|] eqn:Hscan; [|done].
        destruct (checkAll (map_to_list mp) []) as [migrations|] eqn:Hcheck; [|done].
        injection H as <-. rewrite sort_Slice_Permutation in Hm.
        pose proof (checkAll_nonempty _ _ _ Hcheck) as Hne.
        apply checkAll_spec in Hcheck as ->. simpl in Hm.
        apply list_elem_of_fmap in Hm as (e & -> & He). simpl. by apply Hne.
      * rewrite <- Hup in Hscript. apply scriptOf_Some in Hscript as (? & ? & ?).
        by exists f.
    + pose proof (LoadMigrations_scripts _ _ _ _ DirDown H Hm) as Hdown. simpl in Hdown.
      destruct (lastScript_inv files (Filename m) DirDown "")
        as [Hinit|(f & Hf & Hscript)].
      * left. by rewrite Hdown.
      * right. rewrite <- Hdown in Hscript.
        apply scriptOf_Some in Hscript as (? & ? & ?). by exists f.
Qed.

(** X14. A down script alone fails the load. When a regular file the
    loader takes has no up file of its identity in the directory, or an
    empty one, the load returns an error. And when the load returns the
    error of the missing up script for an identity, some file of the
    directory has that identity, and in a directory that lists no name twice
    the up file of the identity, if there is one, is empty. *)
Theorem load_needs_every_up_script directory files :
  (∀ entry timestamp name direction,
     entry ∈ files → IsDir entry = false →
     migrationRegex (Name entry) = Some (timestamp, name, direction) →
     (∀ f, f ∈ files → Name f = timestamp +:+ "_" +:+ name +:+ ".up.sql" →
           IsDir f = true ∨ content f = Some "") →
     ∃ e, LoadMigrations directory (DirFiles files) = Err e)
  ∧ ∀ identity,
      LoadMigrations directory (DirFiles files) = Err (ErrMissingUp identity) →
      (∃ entry timestamp name direction,
         entry ∈ files ∧ IsDir entry = false
         ∧ migrationRegex (Name entry) = Some (timestamp, name, direction)
         ∧ identity = timestamp +:+ "_" +:+ name)
      ∧ (NoDup (map Name files) →
         ∀ f, f ∈ files → IsDir f = false → Name f = identity +:+ ".up.sql" →
              content f = Some "").
Proof.
  split.
  - intros entry timestamp name direction Hin Hdir Hre Hnoup.
    unfold LoadMigrations.
    destruct (scanFiles directory files ∅) as [mp|e] eqn:Hscan; [|by exists e].
    destruct (checkAll (map_to_list mp) []) as [migrations|e] eqn:Hcheck; [|by exists e].
    exfalso.
    destruct (scanFiles_has _ _ _ _ _ _ _ _ Hscan Hin Hdir Hre) as [m0 Hm0].
    apply (checkAll_nonempty _ _ _ Hcheck (timestamp +:+ "_" +:+ name, m0));
      [by apply elem_of_map_to_list|]. simpl.
    change (Up m0) with (scriptField DirUp m0).
    rewrite (scanFiles_scripts _ _ _ _ _ _ DirUp Hscan Hm0), lookup_empty. simpl.
    apply lastScript_none. intros f text Hf Hscript.
    apply scriptOf_Some in Hscript as (Hfdir & Hfname & Hftext).
    destruct (Hnoup f Hf) as [Hd|Hc].
    + rewrite Hfname. simpl. by rewrite !str_app_assoc.
    + congruence.
    + congruence.
  - intros identity H. unfold LoadMigrations in H.
    destruct (scanFiles directory files ∅) as [mp|e] eqn:Hscan.
    2:{ exfalso. injection H as ->. clear -Hscan. revert Hscan. generalize (∅ : gmap string Migration).
        induction files as [|f rest IH]; intros mp; simpl; [done|].
        destruct (IsDir f); [apply IH|].
        destruct (migrationRegex (Name f)) as [[[timestamp name] d]|]; [|apply IH].
        destruct (content f); [apply IH|done]. }
    destruct (checkAll (map_to_list mp) []) as [migrations|e] eqn:Hcheck; [done|].
    injection H as ->. apply checkAll_Err in Hcheck as (k & m & Hin & Hup & [= ->]).
    apply elem_of_map_to_list in Hin.
    assert (keyed mp) as Hkeyed.
    { eapply scanFiles_keyed; [exact Hscan|]. intros k' m'. by rewrite lookup_empty. }
    destruct (Hkeyed _ _ Hin) as [Hname _]. rewrite Hname.
    destruct (scanFiles_origin _ _ _ _ k Hscan) as [Hempty|Horigin]; [by eexists| |].
    { rewrite lookup_empty in Hempty. by destruct Hempty. }
    split; [done|].
    intros Hnd f Hf Hfdir Hfname.
    destruct Horigin as (entry & timestamp & name & direction & _ & _ & Hre & ->).
    apply migrationRegex_inv in Hre as (_ & Hlen & Hdig & Hnm & Hnl).
    assert (migrationRegex (Name f) = Some (timestamp, name, DirUp)) as Hfre.
    { rewrite Hfname, str_app_assoc, str_app_assoc.
      by apply (migrationRegex_app timestamp name DirUp). }
    destruct (scanFiles_readable _ _ _ _ _ _ _ _ Hscan Hf Hfdir Hfre) as [text Htext].
    rewrite Htext. f_equal.
    assert (scriptOf (timestamp +:+ "_" +:+ name) DirUp f = Some text) as Hscript.
    { rewrite <- Htext. by apply (scriptOf_matched _ _ _ timestamp name). }
    rewrite <- (lastScript_unique files _ DirUp "" f text Hnd Hf Hscript).
    pose proof (scanFiles_scripts _ _ _ _ _ _ DirUp Hscan Hin) as Hs.
    rewrite lookup_empty in Hs. simpl in Hs. by rewrite <- Hs.
Qed.

(** ** Directories that load *)

Lemma scanFiles_Ok directory files mp :
  (∀ entry timestamp name direction,
     entry ∈ files → IsDir entry = false →
     migrationRegex (Name entry) = Some (timestamp, name, direction) →
     is_Some (content entry)) →
  ∃ mp', scanFiles directory files mp = Ok mp'.
Proof.
  revert mp. induction files as [|f rest IH]; intros mp Hread; simpl; [by eexists|].
  assert (∀ mp0, ∃ mp', scanFiles directory rest mp0 = Ok mp') as Hrest.
  { intros mp0. apply IH. intros entry ts nm d Hin. apply Hread.
    by apply list_elem_of_further. }
  destruct (IsDir f) eqn:Hdir; [apply Hrest|].
  destruct (migrationRegex (Name f)) as [[[timestamp name] d]|] eqn:Hre; [|apply Hrest].
  destruct (Hread f timestamp name d) as [text Htext];
    [apply list_elem_of_here|done|done|].
  rewrite Htext. apply Hrest.
Qed.

(** [LoadMigrations] returns a set when every file it takes can be read and
    every identity keeps an up script that is not empty. *)
Lemma LoadMigrations_succeeds directory files :
  (∀ entry timestamp name direction,
     entry ∈ files → IsDir entry = false →
     migrationRegex (Name entry) = Some (timestamp, name, direction) →
     is_Some (content entry)
     ∧ lastScript files (timestamp +:+ "_" +:+ name) DirUp "" ≠ "") →
  ∃ ms, LoadMigrations directory (DirFiles files) = Ok ms.
Proof.
  intros H. unfold LoadMigrations.
  destruct (scanFiles_Ok directory files ∅) as [mp Hscan].
  { intros entry ts nm d Hin Hdir Hre. by destruct (H _ _ _ _ Hin Hdir Hre). }
  rewrite Hscan.
  destruct (checkAll (map_to_list mp) []) as [migrations|e] eqn:Hcheck; [by eexists|].
  exfalso. apply checkAll_Err in Hcheck as (k & m & Hin & Hup & _).
  apply elem_of_map_to_list in Hin.
  destruct (scanFiles_origin _ _ _ _ k Hscan) as [Hempty|Horigin]; [by eexists| |].
  { rewrite lookup_empty in Hempty. by destruct Hempty. }
  destruct Horigin as (entry & ts & nm & d & Hentry & Hdir & Hre & ->).
  destruct (H _ _ _ _ Hentry Hdir Hre) as [_ Hlast]. apply Hlast.
  change (Up m) with (scriptField DirUp m) in Hup.
  by rewrite (scanFiles_scripts _ _ _ _ _ _ DirUp Hscan Hin), lookup_empty in Hup.
Qed.

(** In a directory that lists no name twice the up script an identity
    keeps is the content of its file [.up.sql]. *)
Lemma lastScript_up_file files timestamp name direction entry up text :
  NoDup (map Name files) →
  migrationRegex (Name entry) = Some (timestamp, name, direction) →
  up ∈ files → IsDir up = false →
  Name up = timestamp +:+ "_" +:+ name +:+ ".up.sql" →
  content up = Some text →
  lastScript files (timestamp +:+ "_" +:+ name) DirUp "" = text.
Proof.
  intros Hnd Hre Hup Hdir Hname Htext.
  apply migrationRegex_inv in Hre as (_ & Hlen & Hdig & Hnm & Hnl).
  assert (migrationRegex (Name up) = Some (timestamp, name, DirUp)) as Hupre.
  { rewrite Hname. by apply (migrationRegex_app timestamp name DirUp). }
  apply (lastScript_unique _ _ _ _ up); [done|done|].
  rewrite <- Htext. by apply (scriptOf_matched _ _ _ timestamp name).
Qed.

(** ** Timestamps that are not dates *)

Lemma daysBeforeMonth_year_zero (month day : Z) :
  (1 <= month <= 12)%Z → (day <= GoTime.daysIn month 0)%Z →
  (GoTime.daysBeforeMonth 12 month 0 + (day - 1) <= 365)%Z.
Proof.
  intros Hmonth.
  assert (month ∈ [1; 2; 3; 4; 5; 6; 7; 8; 9; 10; 11; 12]%Z) as Hin.
  { rewrite !elem_of_cons. lia. }
  rewrite !elem_of_cons, elem_of_nil in Hin.
  repeat destruct Hin as [->|Hin]; try done; vm_compute GoTime.daysIn;
    vm_compute GoTime.daysBeforeMonth; lia.
Qed.

(** A date of the year 0000 is before the zero time. *)
Lemma Parse_year_zero (value : string) (t : GoTime.Time) :
  GoTime.Parse value = Some t → substring 0 4 value = "0000" →
  (t < GoTime.zero)%Z.
Proof.
  unfold GoTime.Parse. intros H Hyear. rewrite Hyear in H.
  destruct (negb _); [done|].
  change (GoTime.atoi "0000") with (Some 0%Z) in H.
  destruct (GoTime.atoi (substring 4 2 value)) as [month|]; [|done].
  destruct (GoTime.atoi (substring 6 2 value)) as [day|]; [|done].
  destruct (GoTime.atoi (substring 8 2 value)) as [hour|]; [|done].
  destruct (GoTime.atoi (substring 10 2 value)) as [min|]; [|done].
  destruct (GoTime.atoi (substring 12 2 value)) as [sec|]; [|done].
  destruct (_ && _) eqn:Hrange; [|done]. injection H as <-.
  rewrite !andb_true_iff in Hrange.
  destruct Hrange as [[[[[[H1 H2] H3] H4] H5] H6] H7].
  apply Z.leb_le in H1, H2, H3, H4. apply Z.ltb_lt in H5, H6, H7.
  pose proof (daysBeforeMonth_year_zero month day (conj H1 H2) H4) as Hdays.
  unfold GoTime.Date, GoTime.zero.
  change (GoTime.daysBeforeYear 0) with (-366)%Z. lia.
Qed.

(** C10, as the code has it. A directory that lists no name twice, whose
    files of the pattern can be read and whose identities each have an up
    script that is not empty, loads, whatever the fourteen digits of the
    names: no file is refused for its digits. When they are no date the
    record has the zero timestamp, 0001-01-01 00:00:00 UTC; when they are
    one it has that date, which for the year 0000 is before the zero
    timestamp. A record with the zero timestamp stands in the set before
    every record with a later timestamp and after every record with an
    earlier one. *)
Theorem invalid_timestamp_loads_as_zero directory files :
  NoDup (map Name files) →
  (∀ entry timestamp name direction,
     entry ∈ files → IsDir entry = false →
     migrationRegex (Name entry) = Some (timestamp, name, direction) →
     is_Some (content entry)
     ∧ ∃ up, up ∈ files ∧ IsDir up = false
             ∧ Name up = timestamp +:+ "_" +:+ name +:+ ".up.sql"
             ∧ content up ≠ Some "") →
  ∃ ms,
    LoadMigrations directory (DirFiles files) = Ok ms
    ∧ (∀ entry timestamp name direction,
         entry ∈ files → IsDir entry = false →
         migrationRegex (Name entry) = Some (timestamp, name, direction) →
         ∃ m, m ∈ ms ∧ Filename m = timestamp +:+ "_" +:+ name
              ∧ match GoTime.Parse timestamp with
                | None => Timestamp m = GoTime.zero
                | Some t =>
                    Timestamp m = t
                    ∧ (substring 0 4 timestamp = "0000" → (t < GoTime.zero)%Z)
                end)
    ∧ (∀ i j m m',
         ms !! i = Some m → ms !! j = Some m' →
         Timestamp m = GoTime.zero → (GoTime.zero < Timestamp m')%Z → i < j)
    ∧ (∀ i j m m',
         ms !! i = Some m → ms !! j = Some m' →
         (Timestamp m < GoTime.zero)%Z → Timestamp m' = GoTime.zero → i < j).
Proof.
  intros Hnd Hfiles.
  destruct (LoadMigrations_succeeds directory files) as [ms H].
  { intros entry timestamp name direction Hin Hdir Hre.
    destruct (Hfiles _ _ _ _ Hin Hdir Hre) as [Hread (up & Hup & Hupdir & Hupname & Hne)].
    split; [done|].
    assert (migrationRegex (Name up) = Some (timestamp, name, DirUp)) as Hupre.
    { apply migrationRegex_inv in Hre as (_ & Hlen & Hdig & Hnm & Hnl).
      rewrite Hupname. by apply (migrationRegex_app timestamp name DirUp). }
    destruct (Hfiles _ _ _ _ Hup Hupdir Hupre) as [[text Htext] _].
    rewrite (lastScript_up_file _ _ _ _ _ _ _ Hnd Hre Hup Hupdir Hupname Htext).
    congruence. }
  exists ms. split; [done|].
  destruct (LoadMigrations_spec _ _ _ H) as (mp & Hscan & Hkeyed & Hperm & Hasc).
  split; [|split].
  - intros file timestamp name direction Hin Hdir Hre.
    destruct (scanFiles_has _ _ _ _ _ _ _ _ Hscan Hin Hdir Hre) as [m0 Hm0].
    exists (set_Checksum (generateChecksum (Up m0)) m0). split.
    + rewrite Hperm. apply list_elem_of_fmap.
      exists (timestamp +:+ "_" +:+ name, m0). split; [done|].
      by apply elem_of_map_to_list.
    + apply Hkeyed in Hm0 as [Hf Ht]. simpl. split; [done|].
      rewrite Ht. unfold parsedTimeOf.
      apply migrationRegex_Some in Hre. rewrite <- Hre, substring_0_app.
      destruct (GoTime.Parse timestamp) as [t|] eqn:Hparse; [|done].
      split; [done|]. by apply Parse_year_zero.
  - intros i j m m' Hi Hj Hz Hpos. eapply ascending_positions; eauto. lia.
  - intros i j m m' Hi Hj Hneg Hz. eapply ascending_positions; eauto. lia.
Qed.

(** * Further properties of the commands and of the configuration *)

(** ** [migrate down] *)

Section Commands.

Context {Tables : Type}.
Variable exec_stmt : string -> Tables -> option Tables.

Lemma migrateDownSteps_positive args steps :
  cli.migrateDownSteps args = Ok steps → (1 <= steps)%Z.
Proof.
  unfold cli.migrateDownSteps. destruct args as [|arg rest]; [by intros [= <-]|].
  destruct (String.eqb arg "all"); [by intros [= <-]|].
  destruct (strconv.Atoi arg) as [n|]; [|done].
  destruct (Z.leb_spec n 0); [done|]. intros [= <-]. lia.
Qed.

(** X15. The command [migrate down]. An argument it refuses (not [all]
    and not a decimal number above zero that fits an [int]) ends the
    command before any call on the database. Otherwise [steps] is at least
    one: [Down] rolls back [steps] migrations or the whole ledger when it is
    shorter, never more, and on a ledger without doubles a run without error
    leaves the rows before the last [steps]. *)
Theorem down_command_rolls_back_at_most_steps directory dir args
    (w w' : World Tables) r :
  cli.migrateDownCmd exec_stmt directory dir args w = (w', r) →
  match cli.migrateDownSteps args with
  | Err e => r = Err (cli.ErrSteps e) ∧ w' = w
  | Ok steps =>
      (1 <= steps)%Z
      ∧ migration.clampSteps steps (length (appliedOf (committed w)))
        = Nat.min (Z.to_nat steps) (length (appliedOf (committed w)))
      ∧ (r = Ok tt → NoDup (appliedOf (committed w)) →
         appliedOf (committed w')
         = take (length (appliedOf (committed w))
                 - Nat.min (Z.to_nat steps) (length (appliedOf (committed w))))
                (appliedOf (committed w)))
  end.
Proof.
  unfold cli.migrateDownCmd, bind at 1, lift at 1.
  destruct (cli.migrateDownSteps args) as [steps|e] eqn:Hsteps;
    [|by intros [= <- <-]].
  apply migrateDownSteps_positive in Hsteps. intros H.
  assert (migration.clampSteps steps (length (appliedOf (committed w)))
          = Nat.min (Z.to_nat steps) (length (appliedOf (committed w)))) as Hclamp.
  { unfold migration.clampSteps. destruct (Z.leb_spec steps 0); [lia|]. simpl.
    destruct (Z.ltb_spec (Z.of_nat (length (appliedOf (committed w)))) steps); lia. }
  split; [done|]. split; [done|]. intros -> Hnd. rewrite <- Hclamp.
  unfold wrap in H.
  destruct (migration.Down exec_stmt directory dir steps w) as [w1 [[]|e]] eqn:Hdown;
    [|done].
  injection H as <-. by apply (Down_Ok_take exec_stmt directory dir).
Qed.

End Commands.

(** ** [maskPassword] *)

Lemma substring_app_l (a b : string) (n m : nat) :
  (n + m <= String.length a)%nat → substring n m (a +:+ b) = substring n m a.
Proof.
  revert n m. induction a as [|x a IH]; intros n m Hle; simpl in Hle.
  - assert (n = 0 ∧ m = 0) as [-> ->] by lia. by destruct b.
  - rewrite str_app_cons. destruct n as [|n]; simpl.
    + destruct m as [|m]; [done|]. f_equal. apply (IH 0). lia.
    + apply IH. lia.
Qed.

(** X16. The mask of a password of more than four bytes has eight bytes
    and shows the first two and the last two of the password: the password
    is the first two bytes of the mask, as many unknown bytes as it has
    beyond four, and the last two bytes of the mask. *)
Theorem maskPassword_shows_both_ends (password : string) :
  (4 < String.length password)%nat →
  String.length (cli.maskPassword password) = 8
  ∧ ∃ middle,
      String.length middle = String.length password - 4
      ∧ password = substring 0 2 (cli.maskPassword password) +:+ middle
                   +:+ substring 6 2 (cli.maskPassword password).
Proof.
  intros Hlen. unfold cli.maskPassword.
  destruct (Nat.eqb_spec (String.length password) 0) as [|_]; [lia|].
  destruct (Nat.leb_spec (String.length password) 4) as [|_]; [lia|].
  set (front := substring 0 2 password).
  set (back := substring (String.length password - 2) 2 password).
  assert (String.length front = 2) as Hfront by (apply substring_length_le; lia).
  assert (String.length back = 2) as Hback by (apply substring_length_le; lia).
  split; [rewrite !str_app_length, Hfront, Hback; reflexivity|].
  exists (substring 2 (String.length password - 4) password). split.
  - apply substring_length_le. lia.
  - assert (substring 0 2 (front +:+ "****" +:+ back) = front) as ->.
    { rewrite <- Hfront at 1. apply substring_0_app. }
    assert (substring 6 2 (front +:+ "****" +:+ back) = back) as ->.
    { replace 6 with (String.length front + 4) by lia.
      rewrite substring_app_r. simpl. rewrite <- Hback at 1. apply substring_whole. }
    unfold front, back.
    rewrite <- (substring_split password 2) at 1 by lia. f_equal.
    replace (String.length password - 2) with (String.length password - 4 + 2) at 1
      by lia.
    rewrite substring_cut. do 2 f_equal. lia.
Qed.

(** ** The configuration *)

Lemma orDefault_nonempty (value fallback : string) :
  fallback ≠ "" → config.orDefault value fallback ≠ "".
Proof.
  unfold config.orDefault. destruct (String.eqb_spec value ""); done.
Qed.

Lemma orDefault_idem (value fallback : string) :
  fallback ≠ "" →
  config.orDefault (config.orDefault value fallback) fallback
  = config.orDefault value fallback.
Proof.
  intros Hne. unfold config.orDefault at 1.
  destruct (String.eqb_spec (config.orDefault value fallback) "") as [Hempty|]; [|done].
  by apply orDefault_nonempty in Hempty.
Qed.

(** X17. [setDefaults] fills what is empty and nothing else, and once is
    enough: a value that is set (a non-empty string, a number other than
    zero) is kept, the strings it has a default for are not empty
    afterwards, no port is zero for [postgres] or [mysql], and a second
    call changes nothing. *)
Theorem setDefaults_fills_once (cfg : config.Config) :
  let cfg' := config.setDefaults cfg in
  let db := config.ConfigDatabase cfg in
  let db' := config.ConfigDatabase cfg' in
  config.setDefaults cfg' = cfg'
  ∧ (config.Driver db ≠ "" → config.Driver db' = config.Driver db)
  ∧ (config.Host db ≠ "" → config.Host db' = config.Host db)
  ∧ (config.Port db ≠ 0%Z → config.Port db' = config.Port db)
  ∧ config.Database db' = config.Database db
  ∧ config.Driver db' ≠ "" ∧ config.Host db' ≠ ""
  ∧ config.MigrationDirectory (config.ConfigMigration cfg') ≠ ""
  ∧ config.Table (config.ConfigMigration cfg') ≠ ""
  ∧ config.BackupDirectory (config.ConfigBackup cfg') ≠ ""
  ∧ config.SeedDirectory (config.ConfigSeed cfg') ≠ ""
  ∧ config.RetentionDays (config.ConfigBackup cfg') ≠ 0%Z
  ∧ (config.Driver db' = "postgres" ∨ config.Driver db' = "mysql" →
     config.Port db' ≠ 0%Z).
Proof.
  destruct cfg as [[driver host port database username password sslmode]
                   [directory table] [backups compression retention] [seeds] verbose].
  cbn zeta. unfold config.setDefaults. cbn [config.ConfigDatabase config.ConfigMigration
    config.ConfigBackup config.ConfigSeed config.Driver config.Host config.Port
    config.Database config.Username config.Password config.SSLMode
    config.MigrationDirectory config.Table config.BackupDirectory config.Compression
    config.RetentionDays config.SeedDirectory config.Verbose].
  assert (∀ n d : Z, d ≠ 0%Z →
            (if ((if (n =? 0)%Z then d else n) =? 0)%Z then d
             else if (n =? 0)%Z then d else n)
            = (if (n =? 0)%Z then d else n)) as Hnum.
  { intros n d Hd. destruct (Z.eqb_spec n 0) as [->|Hn].
    - by destruct (Z.eqb_spec d 0).
    - by destruct (Z.eqb_spec n 0). }
  split; [|repeat split].
  - rewrite !orDefault_idem by done. rewrite (Hnum retention 30%Z) by done.
    do 2 f_equal.
    destruct (Z.eqb_spec port 0) as [->|Hport].
    + destruct (Z.eqb_spec (config.defaultPort (config.orDefault driver "postgres")) 0);
        [|done]. congruence.
    + by destruct (Z.eqb_spec port 0).
  - unfold config.orDefault. by destruct (String.eqb_spec driver "").
  - unfold config.orDefault. by destruct (String.eqb_spec host "").
  - intros Hport. by destruct (Z.eqb_spec port 0).
  - by apply orDefault_nonempty.
  - by apply orDefault_nonempty.
  - by apply orDefault_nonempty.
  - by apply orDefault_nonempty.
  - by apply orDefault_nonempty.
  - by apply orDefault_nonempty.
  - by destruct (Z.eqb_spec retention 0).
  - intros Hdriver. destruct (Z.eqb_spec port 0) as [->|Hport]; [|done].
    unfold config.defaultPort. destruct Hdriver as [-> | ->]; done.
Qed.

Lemma GetDSN_empty (cfg : config.Config) :
  config.GetDSN cfg = ""
  ↔ config.Driver (config.ConfigDatabase cfg) ∉ ["postgres"; "mysql"; "sqlite3"]
    ∨ (config.Driver (config.ConfigDatabase cfg) = "sqlite3"
       ∧ config.Database (config.ConfigDatabase cfg) = "").
Proof.
  unfold config.GetDSN.
  destruct (String.eqb_spec (config.Driver (config.ConfigDatabase cfg)) "postgres")
    as [Hpg|Hpg].
  { rewrite Hpg. split; [done|]. intros [Hnot|[? _]]; [|done].
    exfalso. apply Hnot. apply list_elem_of_here. }
  destruct (String.eqb_spec (config.Driver (config.ConfigDatabase cfg)) "mysql")
    as [Hmy|Hmy].
  { rewrite Hmy. split.
    - by destruct (config.Username (config.ConfigDatabase cfg)).
    - intros [Hnot|[? _]]; [|done]. exfalso. apply Hnot.
      apply list_elem_of_further, list_elem_of_here. }
  destruct (String.eqb_spec (config.Driver (config.ConfigDatabase cfg)) "sqlite3")
    as [Hlite|Hlite].
  { rewrite Hlite. split; [by right|]. intros [Hnot|[_ ?]]; [|done].
    exfalso. apply Hnot. do 2 apply list_elem_of_further. apply list_elem_of_here. }
  split; [|done]. intros _. left. intros Hin.
  repeat (apply elem_of_cons in Hin as [?|Hin]; [done|]). by apply elem_of_nil in Hin.
Qed.

(** X18. [NewConnection] returns a connection for the drivers [postgres],
    [mysql] and [sqlite3] only, and only after the database answered. On a
    configuration with its defaults it reports an unsupported driver for a
    driver that is none of the three, and also for [sqlite3] when no
    database file is named; it never does for [postgres] or [mysql]. *)
Theorem NewConnection_takes_three_drivers
    (dial : string → string → option connection.DialError) (cfg : config.Config) :
  (∀ driver,
     connection.NewConnection dial cfg = Ok driver →
     driver = config.Driver (config.ConfigDatabase cfg)
     ∧ driver ∈ ["postgres"; "mysql"; "sqlite3"]
     ∧ config.GetDSN cfg ≠ "" ∧ dial driver (config.GetDSN cfg) = None)
  ∧ ∀ driver,
      connection.NewConnection dial (config.setDefaults cfg)
      = Err (connection.ErrUnsupportedDriver driver)
      ↔ driver = config.orDefault (config.Driver (config.ConfigDatabase cfg)) "postgres"
        ∧ (driver ∉ ["postgres"; "mysql"; "sqlite3"]
           ∨ (driver = "sqlite3" ∧ config.Database (config.ConfigDatabase cfg) = "")).
Proof.
  split.
  - intros driver. unfold connection.NewConnection.
    destruct (String.eqb_spec (config.GetDSN cfg) "") as [|Hdsn]; [done|].
    destruct (dial _ _) as [[]|] eqn:Hdial; try done. intros [= <-].
    split; [done|]. split; [|done].
    destruct (decide (config.Driver (config.ConfigDatabase cfg)
                      ∈ ["postgres"; "mysql"; "sqlite3"])) as [|Hnot]; [done|].
    exfalso. apply Hdsn, GetDSN_empty. by left.
  - intros driver. unfold connection.NewConnection.
    destruct (String.eqb_spec (config.GetDSN (config.setDefaults cfg)) "") as [Hdsn|Hdsn].
    + apply GetDSN_empty in Hdsn.
      destruct cfg as [[d host port database username password sslmode] ? ? ? ?].
      simpl in *. split.
      * by intros [= <-].
      * by intros [-> _].
    + split.
      * destruct (dial _ _) as [[]|]; done.
      * intros [-> Hbad]. exfalso. apply Hdsn, GetDSN_empty.
        destruct cfg as [[d host port database username password sslmode] ? ? ? ?].
        done.
Qed.

(** ** The calls on the ledger outside a transaction *)

Section LedgerCalls.

Context {Tables : Type}.

Lemma dbExec_inv op run (w w' : World Tables) r :
  connection.dbExec op run w = (w', r) →
  tx w' = tx w
  ∧ match r with
    | Ok _ => ∃ d, run (committed w) = Ok d ∧ committed w' = d
                   ∧ log w' = log w ++ [Done op]
    | Err e => committed w' = committed w ∧ log w' = log w ++ [Failed op]
               ∧ (e = ErrConnection ∨ run (committed w) = Err e)
    end.
Proof.
  unfold connection.dbExec. destruct (roundTrip w) as [fault w1] eqn:Hrt.
  apply roundTrip_inv in Hrt as ->. destruct fault; simpl.
  - intros [= <- <-]. simpl. auto.
  - destruct (run (committed w)) as [d|e] eqn:Hrun; intros [= <- <-]; simpl.
    + split; [done|]. by exists d.
    + auto.
Qed.

(** X19. [RecordMigration] and [RemoveMigration]. A record that succeeds
    was of an identity the ledger did not hold, and appends it; the removal
    of that identity then gives back the database as it was. A record of an
    identity the ledger holds fails and changes nothing. A removal never
    fails for the identity: removing what is not there succeeds and changes
    no row. *)
Theorem record_then_remove_restores filename checksum (w w1 w2 : World Tables) r1 r2 :
  connection.RecordMigration filename checksum w = (w1, r1) →
  connection.RemoveMigration filename w1 = (w2, r2) →
  (r1 = Ok tt →
     (filename ∉ appliedOf (committed w))
     ∧ appliedOf (committed w1) = appliedOf (committed w) ++ [filename]
     ∧ (r2 = Ok tt → committed w2 = committed w))
  ∧ (filename ∈ appliedOf (committed w) → r1 ≠ Ok tt)
  ∧ (r1 ≠ Ok tt → committed w1 = committed w)
  ∧ (r2 = Ok tt → filename ∉ appliedOf (committed w2))
  ∧ (r2 = Ok tt → filename ∉ appliedOf (committed w1) → committed w2 = committed w1)
  ∧ (is_Some (ledger (committed w1)) → r2 = Ok tt ∨ r2 = Err ErrConnection).
Proof.
  unfold connection.RecordMigration, connection.RemoveMigration. intros H1 H2.
  apply dbExec_inv in H1 as [_ H1]. apply dbExec_inv in H2 as [_ H2].
  assert (∀ rows : list LedgerRow,
            filename ∉ map row_filename rows →
            List.filter (fun r => negb (String.eqb (row_filename r) filename)) rows = rows)
    as Hkeep.
  { induction rows as [|row rows IH]; intros Hnot; simpl; [done|].
    destruct (String.eqb_spec (row_filename row) filename) as [Heq|_]; simpl.
    - exfalso. apply Hnot. simpl. rewrite Heq. apply list_elem_of_here.
    - f_equal. apply IH. intros Hin. apply Hnot. simpl. by apply list_elem_of_further. }
  assert (∀ rows : list LedgerRow,
            filename ∉ map row_filename
              (List.filter (fun r => negb (String.eqb (row_filename r) filename)) rows))
    as Hgone.
  { intros rows Hin. apply list_elem_of_fmap in Hin as (row & -> & Hrow).
    apply list_elem_of_In, List.filter_In in Hrow as [_ Hrow].
    by rewrite String.eqb_refl in Hrow. }
  assert (∀ rows : list LedgerRow,
            existsb (fun r => String.eqb (row_filename r) filename) rows = false
            ↔ filename ∉ map row_filename rows) as Hex.
  { intros rows. split.
    - intros Hf Hin. apply list_elem_of_fmap in Hin as (row & -> & Hrow).
      apply not_true_iff_false in Hf. apply Hf, List.existsb_exists.
      exists row. split; [by apply list_elem_of_In|apply String.eqb_refl].
    - intros Hnot. apply not_true_iff_false. intros Hex.
      apply List.existsb_exists in Hex as (row & Hrow & Heq).
      apply String.eqb_eq in Heq. apply Hnot. rewrite <- Heq.
      apply list_elem_of_fmap_2. by apply list_elem_of_In. }
  split; [|split; [|split; [|split; [|split]]]].
  - intros ->. destruct H1 as (d1 & Hrun & Hd1 & _).
    unfold migration.insertRow in Hrun. unfold appliedOf.
    destruct (ledger (committed w)) as [rows|] eqn:Hrows; [|done].
    destruct (existsb _ rows) eqn:Hexists; [done|]. injection Hrun as <-.
    apply Hex in Hexists. rewrite Hd1. simpl. split; [done|].
    split; [by rewrite map_app|].
    intros ->. destruct H2 as (d2 & Hrun2 & -> & _).
    unfold migration.deleteRow in Hrun2. rewrite Hd1 in Hrun2. simpl in Hrun2.
    injection Hrun2 as <-. rewrite List.filter_app. simpl.
    rewrite String.eqb_refl. simpl. rewrite app_nil_r, Hkeep by done.
    destruct (committed w). simpl in *. by rewrite Hrows.
  - intros Hin ->. destruct H1 as (d1 & Hrun & _).
    unfold migration.insertRow in Hrun. unfold appliedOf in Hin.
    destruct (ledger (committed w)) as [rows|]; [|done].
    destruct (existsb _ rows) eqn:Hexists; [done|]. by apply Hex in Hexists.
  - intros Hr1. destruct r1 as [[]|e]; [done|]. by destruct H1.
  - intros ->. destruct H2 as (d2 & Hrun2 & -> & _).
    unfold migration.deleteRow in Hrun2. unfold appliedOf.
    destruct (ledger (committed w1)) as [rows|]; [|done].
    injection Hrun2 as <-. simpl. apply Hgone.
  - intros -> Hnot. destruct H2 as (d2 & Hrun2 & -> & _).
    unfold migration.deleteRow in Hrun2. unfold appliedOf in Hnot.
    destruct (ledger (committed w1)) as [rows|] eqn:Hrows; [|done].
    injection Hrun2 as <-. rewrite Hkeep by done.
    destruct (committed w1). simpl in *. by rewrite Hrows.
  - intros [rows Hrows]. destruct r2 as [[]|e]; [by left|right].
    destruct H2 as (_ & _ & [->|Hrun2]); [done|].
    unfold migration.deleteRow in Hrun2. by rewrite Hrows in Hrun2.
Qed.

End LedgerCalls.

(** * Further properties of the scripts *)

(** ** The statements sent to the database *)

Lemma trimWith_drop (width : list ascii → nat) fuel l :
  ∃ n, GoStrings.trimWith width fuel l = drop n l.
Proof.
  revert l. induction fuel as [|fuel IH]; intros l; simpl; [by exists 0|].
  destruct (width l) as [|w]; [by exists 0|].
  destruct (IH (drop (S w) l)) as [n ->]. exists (S w + n). by rewrite drop_drop.
Qed.

Lemma trimWith_fixed (width : list ascii → nat) fuel l :
  width [] = 0 → (length l <= fuel)%nat →
  width (GoStrings.trimWith width fuel l) = 0.
Proof.
  intros Hnil. revert l. induction fuel as [|fuel IH]; intros l Hlen; simpl.
  - destruct l; [done|simpl in Hlen; lia].
  - destruct (width l) as [|w] eqn:E; [done|].
    apply IH. rewrite length_drop. lia.
Qed.

Lemma spaceWidthFront_take l n :
  GoStrings.spaceWidthFront l = 0 → GoStrings.spaceWidthFront (take n l) = 0.
Proof.
  intros H.
  destruct l as [|c0 [|c1 [|c2 l]]]; destruct n as [|[|[|n]]]; simpl in *; try done;
    repeat (case_match; try done).
Qed.

Lemma TrimSpace_chars (s : string) :
  ∃ n k, list_ascii_of_string (GoStrings.TrimSpace s)
         = take k (drop n (list_ascii_of_string s))
         ∧ GoStrings.spaceWidthFront (list_ascii_of_string (GoStrings.TrimSpace s)) = 0
         ∧ GoStrings.spaceWidthBack (rev (list_ascii_of_string (GoStrings.TrimSpace s))) = 0.
Proof.
  unfold GoStrings.TrimSpace. rewrite list_ascii_of_string_of_list_ascii.
  unfold GoStrings.TrimRightSpace, GoStrings.TrimLeftSpace.
  set (l := list_ascii_of_string s).
  destruct (trimWith_drop GoStrings.spaceWidthFront (length l) l) as [n Hn].
  pose proof (trimWith_fixed GoStrings.spaceWidthFront (length l) l eq_refl (le_n _))
    as Hfront.
  set (left := GoStrings.trimWith GoStrings.spaceWidthFront (length l) l) in *.
  destruct (trimWith_drop GoStrings.spaceWidthBack (length left) (rev left)) as [k Hk].
  pose proof (trimWith_fixed GoStrings.spaceWidthBack (length left) (rev left) eq_refl)
    as Hback.
  rewrite length_rev in Hback. specialize (Hback (le_n _)).
  exists n, (length left - k). split; [|split].
  - rewrite Hk, skipn_rev, rev_involutive. by rewrite Hn.
  - rewrite Hk, skipn_rev, rev_involutive. by apply spaceWidthFront_take.
  - by rewrite rev_involutive.
Qed.

(** X20. What goes to the database as a statement of a script is never
    empty, never begins with [--], holds no semicolon, and has no white
    space at either end; and these statements are the ones the loop of
    [applyMigration] and [rollbackMigration] runs. *)
Theorem sent_statements_are_trimmed {Tables} (exec_stmt : string → Tables → option Tables)
    (script : string) :
  (∀ w, migration.execStatements exec_stmt (GoStrings.Split script ";") w
        = execList exec_stmt (statementsOf script) w)
  ∧ ∀ stmt, stmt ∈ statementsOf script →
      stmt ≠ "" ∧ GoStrings.HasPrefix stmt "--" = false
      ∧ (";"%char ∉ list_ascii_of_string stmt)
      ∧ GoStrings.spaceWidthFront (list_ascii_of_string stmt) = 0
      ∧ GoStrings.spaceWidthBack (rev (list_ascii_of_string stmt)) = 0.
Proof.
  split; [intros w; apply execStatements_execList|].
  intros stmt Hin. unfold statementsOf in Hin.
  apply list_elem_of_In, List.filter_In in Hin as [Hin Hkeep].
  apply List.in_map_iff in Hin as (piece & <- & Hpiece).
  unfold keepStatement in Hkeep. apply negb_true_iff, orb_false_iff in Hkeep as [He Hp].
  split; [by apply String.eqb_neq|]. split; [done|].
  destruct (TrimSpace_chars piece) as (n & k & Hchars & Hfront & Hback).
  split; [|done]. rewrite Hchars. intros Hsemi.
  apply subseteq_take, subseteq_drop in Hsemi.
  pose proof (Split_no_sep script ";") as Hno. rewrite List.Forall_forall in Hno.
  by apply (Hno piece).
Qed.

(** ** The files of [create] *)

Lemma allChars_app (p : ascii → bool) (a b : string) :
  allChars p (a +:+ b) = allChars p a && allChars p b.
Proof.
  unfold allChars. induction a as [|c a IH]; [done|].
  rewrite str_app_cons. simpl. by rewrite IH, andb_assoc.
Qed.

Lemma allChars_map (p : ascii → bool) (f : ascii → ascii) (s : string) :
  (∀ c, p (f c) = p c) →
  allChars p (string_of_list_ascii (map f (list_ascii_of_string s))) = allChars p s.
Proof.
  intros Hf. unfold allChars. rewrite list_ascii_of_string_of_list_ascii.
  induction s as [|c s IH]; simpl; [done|]. by rewrite Hf, IH.
Qed.

Lemma Split_none (s : string) (sep : ascii) :
  allChars (fun c => negb (Ascii.eqb c sep)) s = true → GoStrings.Split s sep = [s].
Proof.
  unfold allChars. induction s as [|c s IH]; simpl; [done|].
  intros H. apply andb_true_iff in H as [Hc Hs]. apply negb_true_iff in Hc.
  by rewrite Hc, IH.
Qed.

Lemma Split_app_nosep (a b : string) (sep : ascii) :
  allChars (fun c => negb (Ascii.eqb c sep)) a = true →
  GoStrings.Split (a +:+ b) sep
  = match GoStrings.Split b sep with
    | [] => [a]
    | h :: t => (a +:+ h) :: t
    end.
Proof.
  unfold allChars. induction a as [|c a IH]; intros H.
  - rewrite str_app_nil_l. destruct (GoStrings.Split b sep) eqn:E; [|done].
    by apply Split_not_nil in E.
  - simpl in H. apply andb_true_iff in H as [Hc Ha]. apply negb_true_iff in Hc.
    rewrite str_app_cons. cbn [GoStrings.Split]. rewrite Hc, IH by done.
    by destruct (GoStrings.Split b sep).
Qed.

Lemma spaceWidthBack_dashes (x : list ascii) :
  (GoStrings.spaceWidthBack (x ++ ["-"; "-"]%char) <= length x)%nat.
Proof.
  destruct x as [|c0 [|c1 [|c2 x]]]; simpl.
  - done.
  - destruct (GoStrings.asciiSpace c0); lia.
  - destruct (GoStrings.asciiSpace c0); [lia|].
    destruct (GoStrings.space2 _ _); lia.
  - destruct (GoStrings.asciiSpace c0); [lia|].
    destruct (GoStrings.space2 _ _); [lia|].
    destruct (GoStrings.space3 _ _ _); lia.
Qed.

Lemma trimWith_dashes fuel (x : list ascii) :
  ∃ x', GoStrings.trimWith GoStrings.spaceWidthBack fuel (x ++ ["-"; "-"]%char)
        = x' ++ ["-"; "-"]%char.
Proof.
  revert x. induction fuel as [|fuel IH]; intros x; simpl; [by exists x|].
  pose proof (spaceWidthBack_dashes x) as Hle.
  destruct (GoStrings.spaceWidthBack (x ++ ["-"; "-"]%char)) as [|w]; [by exists x|].
  rewrite drop_app_le by done. apply IH.
Qed.

Lemma TrimSpace_dashes (s : string) :
  GoStrings.HasPrefix (GoStrings.TrimSpace (String "-" (String "-" s))) "--" = true.
Proof.
  unfold GoStrings.TrimSpace, GoStrings.TrimLeftSpace.
  set (l := list_ascii_of_string s).
  assert (GoStrings.trimWith GoStrings.spaceWidthFront
            (length (list_ascii_of_string (String "-" (String "-" s))))
            (list_ascii_of_string (String "-" (String "-" s)))
          = "-"%char :: "-"%char :: l) as ->.
  { simpl. fold l. by destruct l. }
  unfold GoStrings.TrimRightSpace.
  replace (rev ("-"%char :: "-"%char :: l)) with (rev l ++ ["-"; "-"]%char)
    by (simpl; by rewrite <- app_assoc).
  destruct (trimWith_dashes (length ("-"%char :: "-"%char :: l)) (rev l)) as [x' ->].
  rewrite rev_app_distr. simpl. unfold GoStrings.HasPrefix.
  by destruct (string_of_list_ascii (rev x')).
Qed.

Lemma keepStatement_comment (s : string) :
  keepStatement (GoStrings.TrimSpace (String "-" (String "-" s))) = false.
Proof.
  unfold keepStatement. by rewrite TrimSpace_dashes, orb_true_r.
Qed.

Lemma cleanName_fit (name : string) :
  name ≠ "" → allChars notNewline name = true →
  generator.strings_ReplaceAll (generator.strings_ToLower name) " " "_" ≠ ""
  ∧ allChars notNewline
      (generator.strings_ReplaceAll (generator.strings_ToLower name) " " "_") = true.
Proof.
  intros Hne Hnl. split.
  - destruct name as [|c name]; [done|]. discriminate.
  - unfold generator.strings_ReplaceAll. rewrite allChars_map.
    + unfold generator.strings_ToLower. rewrite allChars_map; [done|].
      intros [[] [] [] [] [] [] [] []]; reflexivity.
    + intros c. destruct (Ascii.eqb_spec c " ") as [->|]; done.
Qed.

Lemma upTemplate_statements (name created : string) :
  noSemicolon name = true → noSemicolon created = true →
  statementsOf (generator.upTemplate name created) = [].
Proof.
  intros Hname Hcreated. unfold statementsOf, generator.upTemplate.
  rewrite !Split_app_nosep by (reflexivity || exact Hname || exact Hcreated).
  change (GoStrings.Split ("-- );" +:+ generator.nl) ";") with ["-- )"; generator.nl].
  cbv beta iota. cbn [map List.filter].
  change ("-- Migration: " +:+ ?x) with (String "-" (String "-" (" Migration: " +:+ x))).
  by rewrite keepStatement_comment.
Qed.

Lemma downTemplate_statements (name created : string) :
  noSemicolon name = true → noSemicolon created = true →
  statementsOf (generator.downTemplate name created) = [].
Proof.
  intros Hname Hcreated. unfold statementsOf, generator.downTemplate.
  rewrite !Split_app_nosep by (reflexivity || exact Hname || exact Hcreated).
  change (GoStrings.Split ("-- DROP TABLE IF EXISTS users;" +:+ generator.nl) ";")
    with ["-- DROP TABLE IF EXISTS users"; generator.nl].
  cbv beta iota. cbn [map List.filter].
  change ("-- Migration: " +:+ ?x) with (String "-" (String "-" (" Migration: " +:+ x))).
  by rewrite keepStatement_comment.
Qed.

Lemma filepath_Join_inj (directory a b : string) :
  filepath_Join directory a = filepath_Join directory b → a = b.
Proof.
  unfold filepath_Join. intros H. apply (inj (append directory)) in H.
  by injection H.
Qed.

Lemma substring_none (s : string) (n : nat) : substring n 0 s = "".
Proof.
  revert n. induction s as [|c s IH]; intros n; destruct n; simpl; done.
Qed.

Lemma matchStem_no_name (timestamp : string) (direction : Direction) :
  String.length timestamp = 14 → matchStem (timestamp +:+ "_") direction = None.
Proof.
  intros Hlen. unfold matchStem.
  rewrite str_app_length, Hlen. simpl String.length. simpl Nat.sub.
  rewrite substring_none. simpl. by rewrite !andb_false_r.
Qed.

Lemma allChars_impl (p q : ascii → bool) (s : string) :
  (∀ c, p c = true → q c = true) → allChars p s = true → allChars q s = true.
Proof.
  unfold allChars. intros Hpq. rewrite !forallb_forall. intros H c Hc. auto.
Qed.

Lemma cleanName_noSlash (name : string) :
  noSlash (generator.strings_ReplaceAll (generator.strings_ToLower name) " " "_")
  = noSlash name.
Proof.
  unfold noSlash, generator.strings_ReplaceAll, generator.strings_ToLower.
  rewrite !allChars_map; [done| |].
  - intros [[] [] [] [] [] [] [] []]; reflexivity.
  - intros [[] [] [] [] [] [] [] []]; reflexivity.
Qed.

Lemma created_base_noSlash (timestamp cleanName suffix : string) :
  allChars GoTime.isDigit timestamp = true → noSlash suffix = true →
  noSlash ((timestamp +:+ "_" +:+ cleanName) +:+ suffix) = noSlash cleanName.
Proof.
  intros Hdig Hsuf. unfold noSlash in *. rewrite !allChars_app, Hsuf.
  rewrite (allChars_impl GoTime.isDigit _ timestamp); [| |done].
  - simpl. by rewrite andb_true_r.
  - intros [[] [] [] [] [] [] [] []]; done.
Qed.

Lemma NoDup_Name_inj (files : list DirEntry) (a b : DirEntry) :
  NoDup (map Name files) → a ∈ files → b ∈ files → Name a = Name b → a = b.
Proof.
  induction files as [|f rest IH]; intros Hnd Ha Hb Hname.
  - by apply elem_of_nil in Ha.
  - simpl in Hnd. apply NoDup_cons in Hnd as [Hf Hnd].
    apply elem_of_cons in Ha as [->|Ha], Hb as [->|Hb]; [done| | |by apply IH].
    + exfalso. apply Hf. rewrite Hname. by apply list_elem_of_fmap_2.
    + exfalso. apply Hf. rewrite <- Hname. by apply list_elem_of_fmap_2.
Qed.

Lemma upTemplate_nonempty (name created : string) :
  generator.upTemplate name created ≠ "".
Proof. unfold generator.upTemplate. str_simpl. discriminate. Qed.

(** X21. The two files [create] writes. For a name of ASCII bytes that is
    not empty and has no newline and no [/], the two files are entries of
    the directory, and a directory that holds them (and lists no name
    twice) loads when its other files do (each can be read, each identity
    has an up script that is not empty), with one migration for the two
    files: its identity is the timestamp, an underscore and the name in
    lower case with its spaces replaced, and its scripts are the two
    templates. The templates hold no statement when the name and the two
    dates hold no semicolon. With the empty name the two files get names
    the loader does not take; with a [/] in the name they are no entries
    of the directory. *)
Theorem created_files_load directory name timestamp createdUp createdDown :
  String.length timestamp = 14 → allChars GoTime.isDigit timestamp = true →
  generator.isASCII name = true →
  (name ≠ "" → allChars notNewline name = true → noSlash name = true →
   (∀ file,
      file ∈ generator.GenerateMigrationFiles directory name timestamp
               createdUp createdDown →
      ∃ base, fst file = filepath_Join directory base ∧ noSlash base = true)
   ∧ ∀ files,
       NoDup (map Name files) →
       Forall (written directory files)
         (generator.GenerateMigrationFiles directory name timestamp
            createdUp createdDown) →
       (∀ entry ts nm direction,
          entry ∈ files → IsDir entry = false →
          migrationRegex (Name entry) = Some (ts, nm, direction) →
          ts +:+ "_" +:+ nm
          ≠ timestamp +:+ "_"
            +:+ generator.strings_ReplaceAll (generator.strings_ToLower name) " " "_" →
          is_Some (content entry)
          ∧ ∃ up, up ∈ files ∧ IsDir up = false
                  ∧ Name up = ts +:+ "_" +:+ nm +:+ ".up.sql"
                  ∧ content up ≠ Some "") →
       ∃ ms,
         LoadMigrations directory (DirFiles files) = Ok ms
         ∧ ∃ m, m ∈ ms
                ∧ Filename m
                  = timestamp +:+ "_"
                    +:+ generator.strings_ReplaceAll (generator.strings_ToLower name)
                          " " "_"
                ∧ Up m = generator.upTemplate name createdUp
                ∧ Down m = generator.downTemplate name createdDown
                ∧ (noSemicolon name = true → noSemicolon createdUp = true →
                   noSemicolon createdDown = true →
                   statementsOf (Up m) = [] ∧ statementsOf (Down m) = []))
  ∧ (name = "" →
     ∀ file entry,
       file ∈ generator.GenerateMigrationFiles directory name timestamp
                createdUp createdDown →
       filepath_Join directory (Name entry) = fst file →
       migrationRegex (Name entry) = None)
  ∧ (noSlash name = false →
     ∀ file entry,
       file ∈ generator.GenerateMigrationFiles directory name timestamp
                createdUp createdDown →
       noSlash (Name entry) = true →
       filepath_Join directory (Name entry) ≠ fst file).
Proof.
  intros Hlen Hdig _. split; [|split].
  - intros Hne Hnl Hslash.
    destruct (cleanName_fit name Hne Hnl) as [Hclean Hcleannl].
    pose proof (cleanName_noSlash name) as Hcleanslash. rewrite Hslash in Hcleanslash.
    unfold generator.GenerateMigrationFiles.
    set (cleanName := generator.strings_ReplaceAll (generator.strings_ToLower name) " " "_")
      in *.
    split.
    { intros file Hfile.
      apply elem_of_cons in Hfile as [->|Hfile];
        [|apply list_elem_of_singleton in Hfile as ->]; simpl;
        eexists; (split; [reflexivity|]);
        by rewrite created_base_noSlash. }
    intros files Hnd Hwritten Hrest.
    apply Forall_cons in Hwritten as [(up & Hup & Hupdir & Hupname & Huptext) Hwritten].
    apply Forall_cons in Hwritten as [(down & Hdown & Hdowndir & Hdownname & Hdowntext) _].
    simpl in Hupname, Huptext, Hdownname, Hdowntext.
    apply filepath_Join_inj in Hupname, Hdownname.
    assert (migrationRegex (Name up) = Some (timestamp, cleanName, DirUp)) as Hupre.
    { rewrite Hupname, str_app_assoc, str_app_assoc.
      by apply (migrationRegex_app timestamp cleanName DirUp). }
    assert (migrationRegex (Name down) = Some (timestamp, cleanName, DirDown)) as Hdownre.
    { rewrite Hdownname, str_app_assoc, str_app_assoc.
      by apply (migrationRegex_app timestamp cleanName DirDown). }
    destruct (LoadMigrations_succeeds directory files) as [ms Hload].
    { intros entry ts nm direction Hin Hdir Hre.
      destruct (decide (ts +:+ "_" +:+ nm = timestamp +:+ "_" +:+ cleanName))
        as [Hsame|Hother].
      - rewrite Hsame. split.
        + pose proof Hre as Hentry.
          apply migrationRegex_inv in Hentry as (Hentry & _).
          rewrite <- !str_app_assoc, (str_app_assoc ts), Hsame in Hentry.
          destruct direction; simpl in Hentry.
          * rewrite <- Hupname in Hentry.
            rewrite (NoDup_Name_inj files entry up Hnd Hin Hup Hentry). by eexists.
          * rewrite <- Hdownname in Hentry.
            rewrite (NoDup_Name_inj files entry down Hnd Hin Hdown Hentry). by eexists.
        + rewrite (lastScript_unique files _ DirUp "" up
                     (generator.upTemplate name createdUp) Hnd Hup).
          * apply upTemplate_nonempty.
          * rewrite <- Huptext. by apply (scriptOf_matched _ _ _ timestamp cleanName).
      - destruct (Hrest _ _ _ _ Hin Hdir Hre Hother)
          as [Hread (up' & Hup' & Hupdir' & Hupname' & Hnonempty)].
        split; [done|].
        assert (migrationRegex (Name up') = Some (ts, nm, DirUp)) as Hupre'.
        { apply migrationRegex_inv in Hre as (_ & Hl & Hd & Hn & Hnewline).
          rewrite Hupname'. by apply (migrationRegex_app ts nm DirUp). }
        destruct (Hrest _ _ _ _ Hup' Hupdir' Hupre' Hother) as [[text Htext] _].
        rewrite (lastScript_up_file _ _ _ _ _ _ _ Hnd Hre Hup' Hupdir' Hupname' Htext).
        congruence. }
    exists ms. split; [done|].
    destruct (LoadMigrations_file_script _ _ _ _ _ _ _ _ Hload Hnd Hup Hupdir Hupre Huptext)
      as (m & Hm & Hname & Hmup).
    destruct (LoadMigrations_file_script _ _ _ _ _ _ _ _ Hload Hnd Hdown Hdowndir Hdownre
                Hdowntext) as (m' & Hm' & Hname' & Hmdown).
    assert (m' = m) as ->.
    { pose proof (LoadMigrations_NoDup _ _ _ Hload) as Hunique.
      pose proof (GetMigrationByFilename_NoDup ms m Hunique Hm) as H1.
      pose proof (GetMigrationByFilename_NoDup ms m' Hunique Hm') as H2.
      rewrite Hname in H1. rewrite Hname' in H2. congruence. }
    simpl in Hmup, Hmdown. exists m. split; [done|]. split; [done|].
    split; [done|]. split; [done|].
    intros Hsemi Hsemiup Hsemidown. rewrite Hmup, Hmdown.
    split; [by apply upTemplate_statements|by apply downTemplate_statements].
  - intros -> file entry Hfile Hpath.
    unfold generator.GenerateMigrationFiles in Hfile.
    change (generator.strings_ReplaceAll (generator.strings_ToLower "") " " "_")
      with "" in Hfile.
    apply elem_of_cons in Hfile as [->|Hfile];
      [|apply list_elem_of_singleton in Hfile as ->];
      simpl in Hpath; apply filepath_Join_inj in Hpath; rewrite Hpath;
      unfold migrationRegex.
    + rewrite str_app_nil_r, hasSuffix_app, str_app_length. simpl String.length at 2.
      replace (String.length (timestamp +:+ "_") + 7 - 7)
        with (String.length (timestamp +:+ "_")) by lia.
      rewrite substring_0_app. by apply matchStem_no_name.
    + rewrite str_app_nil_r, down_is_not_up, hasSuffix_app, str_app_length.
      simpl String.length at 2.
      replace (String.length (timestamp +:+ "_") + 9 - 9)
        with (String.length (timestamp +:+ "_")) by lia.
      rewrite substring_0_app. by apply matchStem_no_name.
  - intros Hslash file entry Hfile Hentry Hpath.
    pose proof (cleanName_noSlash name) as Hcleanslash. rewrite Hslash in Hcleanslash.
    unfold generator.GenerateMigrationFiles in Hfile.
    apply elem_of_cons in Hfile as [->|Hfile];
      [|apply list_elem_of_singleton in Hfile as ->];
      simpl in Hpath; apply filepath_Join_inj in Hpath;
      rewrite Hpath, created_base_noSlash, Hcleanslash in Hentry; done.
Qed.

(** * Runs for the further properties *)

Lemma Up_applies_witness :
  appliedOf (committed (fst upUsersAndPosts))
  = ["20230101120000_create_users"; "20230102130000_create_posts"].
Proof.
  destruct (Up_applies_every_pending journalExec "migrations" usersAndPosts emptyWorld
              (fst upUsersAndPosts)) as (ms & Hload & Happ & _).
  - vm_compute. reflexivity.
  - rewrite Happ. vm_compute in Hload. injection Hload as <-. vm_compute. reflexivity.
Defined.

Lemma Up_again_witness :
  committed (fst upTwice) = committed (fst upUsersAndPosts)
  ∧ log (fst upTwice)
    = log (fst upUsersAndPosts)
      ++ [Done OpCreateMigrationsTable; Done OpGetAppliedMigrations; Printed OutNoPending].
Proof.
  destruct (Up_again_changes_nothing journalExec "migrations" usersAndPosts emptyWorld
              (fst upUsersAndPosts) (fst upTwice) (snd upTwice)) as [Hc Hlog].
  - vm_compute. reflexivity.
  - vm_compute. reflexivity.
  - split; [exact Hc|]. apply Hlog. vm_compute. reflexivity.
Defined.

Lemma ledger_unique_witness : NoDup (appliedOf (committed (fst upUsersAndPosts))).
Proof.
  apply (ledger_identities_stay_unique journalExec "migrations" usersAndPosts 0
           emptyWorld (fst upUsersAndPosts) (snd upUsersAndPosts)).
  - vm_compute. constructor.
  - left. apply surjective_pairing.
Defined.

Lemma Status_witness :
  committed (fst statusUsers)
  = committed (recordedUsers "1cbf067882e4b7871949ea0fda77e1f9")
  ∧ ∃ ms, LoadMigrations "migrations" usersAndPosts = Ok ms
          ∧ length ms = 1 + length (GetPending ms ["20230101120000_create_users"]).
Proof.
  destruct (Status_reads_and_reports "migrations" usersAndPosts
              (recordedUsers "1cbf067882e4b7871949ea0fda77e1f9")
              (fst statusUsers) (snd statusUsers) (surjective_pairing statusUsers))
    as (Hc & _ & Hok).
  split; [exact Hc|].
  destruct Hok as (ms & Hload & _ & _ & Hcount); [vm_compute; reflexivity|].
  exists ms. split; [exact Hload|]. rewrite Hcount. f_equal.
  vm_compute in Hload. injection Hload as <-. vm_compute. reflexivity.
Defined.

Lemma Down_empty_witness :
  snd downUnreadable = Ok tt
  ∧ log (fst downUnreadable) = [Done OpGetAppliedMigrations; Printed OutNoRollback].
Proof.
  destruct (Down_on_empty_ledger journalExec "migrations" DirUnreadable 3 (worldWith [])
              (fst downUnreadable) (snd downUnreadable))
    as (_ & _ & [[Hr Hlog]|[Hr _]]).
  - reflexivity.
  - apply surjective_pairing.
  - split; [exact Hr|exact Hlog].
  - vm_compute in Hr. discriminate Hr.
Defined.

Lemma only_Up_creates_witness :
  ledger (committed (fst downNoLedger)) = None
  ∧ snd downNoLedger = Err (ErrGetApplied ErrNoTable).
Proof.
  destruct (only_Up_creates_the_ledger journalExec "migrations" usersAndPosts 1
              emptyWorld (fst downNoLedger) (snd downNoLedger)) as (Hdown & _ & _).
  - reflexivity.
  - destruct (Hdown (surjective_pairing downNoLedger)) as [_ Hc].
    split; [by rewrite Hc|]. vm_compute. reflexivity.
Defined.

Lemma Down_keeps_witness :
  appliedOf (committed (fst downOne)) = ["20230102130000_create_posts"].
Proof.
  rewrite (Down_keeps_the_first_entries journalExec "migrations" usersAndPosts 1
             (worldWith ledgerPostsUsers) (fst downOne)).
  - vm_compute. reflexivity.
  - vm_compute. repeat constructor; rewrite ?elem_of_cons, ?elem_of_nil;
      intros H; repeat destruct H as [H|H]; try discriminate H; done.
  - vm_compute. reflexivity.
Defined.

Lemma Up_then_Down_witness : appliedOf (committed (fst downBoth)) = [].
Proof.
  apply (Up_then_Down_restores_ledger journalExec "migrations" usersAndPosts
           match LoadMigrations "migrations" usersAndPosts with
           | Ok ms => ms
           | Err _ => []
           end
           emptyWorld (fst upUsersAndPosts) (fst downBoth)).
  - vm_compute. reflexivity.
  - vm_compute. discriminate.
  - vm_compute. reflexivity.
  - vm_compute. reflexivity.
Defined.

Lemma only_appends_witness :
  ∃ pre, appliedOf (committed (fst failedUp)) = pre
         ∧ pre `prefix_of` ["20230101120000_create_users"; "20230102130000_create_posts"].
Proof.
  destruct (Up_only_appends journalExec "migrations" failingPosts emptyWorld
              (fst failedUp) (snd failedUp)) as (_ & pre & Happ & Hpre).
  - reflexivity.
  - apply surjective_pairing.
  - exists pre. split; [exact Happ|]. vm_compute in Hpre. exact Hpre.
Defined.

Lemma loaded_set_witness :
  GetMigrationByFilename
    match LoadMigrations "migrations" usersAndPosts with Ok ms => ms | Err _ => [] end
    "20230101120000_create_users" = Some createUsers
  ∧ Up createUsers ≠ "".
Proof.
  destruct (loaded_set_is_well_formed "migrations" usersAndPosts
              match LoadMigrations "migrations" usersAndPosts with
              | Ok ms => ms
              | Err _ => []
              end) as (_ & _ & Hall).
  - vm_compute. reflexivity.
  - destruct (Hall createUsers) as (Hup & _ & Hget).
    + vm_compute. pick.
    + split; [exact Hget|exact Hup].
Defined.

Lemma migrationRegex_witness :
  migrationRegex "20230101120000_create_users.down.sql"
  = Some ("20230101120000", "create_users", DirDown).
Proof.
  apply (migrationRegex_accepts "20230101120000_create_users.down.sql"
           "20230101120000" "create_users" DirDown).
  repeat split; try reflexivity. discriminate.
Defined.

Lemma loaded_scripts_witness :
  ∃ m, Filename m = "20230102130000_create_posts" ∧ Down m = "DROP TABLE posts;".
Proof.
  destruct (loaded_scripts_are_the_files "migrations"
              match usersAndPosts with DirFiles files => files | _ => [] end
              match LoadMigrations "migrations" usersAndPosts with
              | Ok ms => ms
              | Err _ => []
              end) as [Hfile _].
  - vm_compute. reflexivity.
  - destruct (Hfile) with
      (entry := file "20230102130000_create_posts.down.sql" "DROP TABLE posts;")
      (timestamp := "20230102130000") (name := "create_posts") (direction := DirDown)
      (text := "DROP TABLE posts;") as (m & _ & Hname & Hdown).
    + vm_compute. repeat constructor; rewrite ?elem_of_cons, ?elem_of_nil;
        intros H; repeat destruct H as [H|H]; try discriminate H; done.
    + simpl. pick.
    + reflexivity.
    + vm_compute. reflexivity.
    + reflexivity.
    + exists m. split; [exact Hname|exact Hdown].
Defined.

Lemma load_needs_up_witness :
  ∃ e, LoadMigrations "migrations" (DirFiles downAlone) = Err e.
Proof.
  destruct (load_needs_every_up_script "migrations" downAlone) as [Hfails _].
  apply (Hfails (file "20230101120000_create_users.down.sql" "DROP TABLE users;")
           "20230101120000" "create_users" DirDown).
  - unfold downAlone. pick.
  - reflexivity.
  - vm_compute. reflexivity.
  - intros f Hf Hname. unfold downAlone in Hf. apply list_elem_of_singleton in Hf.
    subst f. discriminate Hname.
Defined.

Lemma down_command_witness :
  snd downCommand = Ok tt
  ∧ appliedOf (committed (fst downCommand)) = ["20230102130000_create_posts"].
Proof.
  pose proof (down_command_rolls_back_at_most_steps journalExec "migrations"
                usersAndPosts ["+1"; "ignored"] (worldWith ledgerPostsUsers)
                (fst downCommand) (snd downCommand) (surjective_pairing downCommand))
    as H.
  change (cli.migrateDownSteps ["+1"; "ignored"]) with (@Ok cli.StepsError Z 1%Z) in H.
  destruct H as (_ & _ & Hledger).
  split; [vm_compute; reflexivity|]. rewrite Hledger.
  - vm_compute. reflexivity.
  - vm_compute. reflexivity.
  - vm_compute. repeat constructor; rewrite ?elem_of_cons, ?elem_of_nil;
      intros H; repeat destruct H as [H|H]; try discriminate H; done.
Defined.

Lemma maskPassword_witness :
  String.length (cli.maskPassword "hunter2secret") = 8
  ∧ ∃ middle, String.length middle = 9 ∧ "hunter2secret" = "hu" +:+ middle +:+ "et".
Proof.
  destruct (maskPassword_shows_both_ends "hunter2secret") as (Hlen & middle & Hm & Heq).
  - simpl. lia.
  - split; [exact Hlen|]. exists middle. split; [exact Hm|exact Heq].
Defined.

Lemma setDefaults_witness :
  config.Driver (config.ConfigDatabase (config.setDefaults (driverOnly "mysql"))) = "mysql"
  ∧ config.Port (config.ConfigDatabase (config.setDefaults (driverOnly "mysql"))) ≠ 0%Z.
Proof.
  destruct (setDefaults_fills_once (driverOnly "mysql"))
    as (_ & Hdriver & _ & _ & _ & _ & _ & _ & _ & _ & _ & _ & Hport).
  split.
  - apply Hdriver. discriminate.
  - apply Hport. right. reflexivity.
Defined.

Lemma NewConnection_witness :
  connection.NewConnection answering (config.setDefaults (driverOnly "sqlite3"))
  = Err (connection.ErrUnsupportedDriver "sqlite3").
Proof.
  apply (NewConnection_takes_three_drivers answering (driverOnly "sqlite3")).
  split; [reflexivity|]. right. split; reflexivity.
Defined.

Lemma record_remove_witness :
  committed (fst (snd recordedThenRemoved)) = committed (worldWith []).
Proof.
  destruct (record_then_remove_restores "20230101120000_create_users" "x" (worldWith [])
              (fst (fst recordedThenRemoved)) (fst (snd recordedThenRemoved))
              (snd (fst recordedThenRemoved)) (snd (snd recordedThenRemoved)))
    as (Hround & _).
  - vm_compute. reflexivity.
  - vm_compute. reflexivity.
  - destruct Hround as (_ & _ & Hback); [vm_compute; reflexivity|].
    apply Hback. vm_compute. reflexivity.
Defined.

Lemma sent_statements_witness :
  ";"%char ∉ list_ascii_of_string "CREATE TABLE users (id INTEGER PRIMARY KEY)".
Proof.
  destruct (sent_statements_are_trimmed journalExec (Up createUsers)) as [_ Hall].
  destruct (Hall "CREATE TABLE users (id INTEGER PRIMARY KEY)") as (_ & _ & Hsemi & _).
  - vm_compute. pick.
  - exact Hsemi.
Defined.

Lemma invalid_timestamp_witness :
  GoTime.Parse "20239901000000" = None
  ∧ LoadMigrations "migrations" (DirFiles month99) = Ok loadedMonth99
  ∧ ∃ ms, LoadMigrations "migrations" (DirFiles month99) = Ok ms
          ∧ ∃ m, m ∈ ms ∧ Filename m = "20239901000000_odd"
                 ∧ Timestamp m = GoTime.zero.
Proof.
  split; [vm_compute; reflexivity|]. split; [vm_compute; reflexivity|].
  destruct (invalid_timestamp_loads_as_zero "migrations" month99)
    as (ms & Hload & Hloaded & _).
  - vm_compute. repeat constructor; rewrite ?elem_of_cons, ?elem_of_nil;
      intros H; repeat destruct H as [H|H]; try discriminate H; done.
  - intros entry timestamp name direction Hin Hdir Hre.
    unfold month99 in Hin. rewrite !elem_of_cons, elem_of_nil in Hin.
    destruct Hin as [->|[->|[]]]; vm_compute in Hre; injection Hre as <- <- <-;
      (split; [by eexists|]).
    + exists (file "20230101120000_create_users.up.sql"
                "CREATE TABLE users (id INTEGER PRIMARY KEY);").
      split; [unfold month99; pick|]. repeat split; discriminate.
    + exists (file "20239901000000_odd.up.sql" "CREATE TABLE odd (id INTEGER);").
      split; [unfold month99; pick|]. repeat split; discriminate.
  - exists ms. split; [exact Hload|].
    destruct (Hloaded (file "20239901000000_odd.up.sql" "CREATE TABLE odd (id INTEGER);")
                "20239901000000" "odd" DirUp) as (m & Hin & Hname & Hzero).
    + unfold month99. pick.
    + reflexivity.
    + vm_compute. reflexivity.
    + exists m. split; [exact Hin|]. split; [exact Hname|exact Hzero].
Defined.

Lemma created_files_witness :
  ∃ ms, LoadMigrations "migrations" (DirFiles createdDirectory) = Ok ms
        ∧ ∃ m, m ∈ ms ∧ Filename m = "20240101120000_add_users"
               ∧ statementsOf (Up m) = [] ∧ statementsOf (Down m) = [].
Proof.
  destruct (created_files_load "migrations" "Add Users" "20240101120000"
              "2024-01-01 12:00:00" "2024-01-01 12:00:01") as [Hloads _];
    try reflexivity.
  destruct Hloads as [_ Hloads]; [discriminate|reflexivity|reflexivity|].
  destruct (Hloads createdDirectory)
    as (ms & Hload & m & Hm & Hname & _ & _ & Hnone).
  - vm_compute. repeat constructor; rewrite ?elem_of_cons, ?elem_of_nil;
      intros H; repeat destruct H as [H|H]; try discriminate H; done.
  - repeat constructor.
    + exists (file "20240101120000_add_users.up.sql"
                (generator.upTemplate "Add Users" "2024-01-01 12:00:00")).
      repeat split; try reflexivity. unfold createdDirectory. pick.
    + exists (file "20240101120000_add_users.down.sql"
                (generator.downTemplate "Add Users" "2024-01-01 12:00:01")).
      repeat split; try reflexivity. unfold createdDirectory. pick.
  - intros entry ts nm direction Hin Hdir Hre Hother. exfalso.
    unfold createdDirectory in Hin. rewrite !elem_of_cons, elem_of_nil in Hin.
    destruct Hin as [->|[->|[]]]; vm_compute in Hre; injection Hre as <- <- <-;
      apply Hother; reflexivity.
  - exists ms. split; [exact Hload|]. exists m. split; [exact Hm|].
    split; [exact Hname|]. apply Hnone; reflexivity.
Defined.

(** * The engine that commits implicitly *)

Section ImplicitProperties.

Context {Tables : Type}.
Variable exec_stmt : string -> Tables -> option Tables.
Variable commitsImplicitly : string -> bool.

Local Abbreviation Session := (implicit.Session Tables).
Local Abbreviation world := (@implicit.world Tables).
Local Abbreviation ended := (@implicit.ended Tables).
Local Abbreviation runAll := (runAll exec_stmt).
Local Abbreviation execListS := (execListS exec_stmt commitsImplicitly).
Local Abbreviation inTransactionS := (inTransactionS exec_stmt commitsImplicitly).
Local Abbreviation applyMigrationS := (implicit.applyMigration exec_stmt commitsImplicitly).
Local Abbreviation rollbackMigrationS :=
  (implicit.rollbackMigration exec_stmt commitsImplicitly).
Local Abbreviation applyAllS := (implicit.applyAll exec_stmt commitsImplicitly).


(** *** One [tx.Exec] *)

Lemma txExecS_inv implicitly op run (s s' : Session) r d :
  implicit.txExec implicitly op run s = (s', r) →
  tx (world s) = Some d → (ended s = true → committed (world s) = d) →
  match r with
  | Ok _ =>
      ∃ d', run d = Ok d' ∧ tx (world s') = Some d'
            ∧ log (world s') = log (world s) ++ [Done op]
            ∧ ended s' = ended s || implicitly
            ∧ committed (world s') = (if ended s' then d' else committed (world s))
  | Err e =>
      tx (world s') = Some d
      ∧ log (world s') = log (world s) ++ [Failed op]
      ∧ ∃ refused : bool,
          (if refused then run d = Err e else e = ErrConnection)
          ∧ ended s' = ended s || (implicitly && refused)
          ∧ committed (world s') = (if ended s' then d else committed (world s))
  end.
Proof.
  unfold implicit.txExec. intros H Htx Hinv.
  destruct (ended s || implicitly) eqn:Hmode.
  - rewrite Htx in H. destruct (roundTrip (world s)) as [fault w1] eqn:Hrt.
    apply roundTrip_inv in Hrt as ->. destruct fault.
    + injection H as <- <-. simpl. split; [done|]. split; [done|].
      exists false. rewrite andb_false_r, orb_false_r. split; [done|]. split; [done|].
      destruct (ended s) eqn:He; [by rewrite Hinv|done].
    + destruct (run d) as [d'|e] eqn:Hrun; injection H as <- <-; simpl.
      * by exists d'.
      * split; [done|]. split; [done|]. exists true.
        rewrite andb_true_r, Hmode. done.
  - apply orb_false_iff in Hmode as [Hend ->].
    unfold implicit.onWorld, database.txExec in H. rewrite Htx in H.
    destruct (roundTrip (world s)) as [fault w1] eqn:Hrt.
    apply roundTrip_inv in Hrt as ->. destruct fault.
    + injection H as <- <-. simpl. split; [done|]. split; [done|].
      exists false. by rewrite Hend.
    + destruct (run d) as [d'|e] eqn:Hrun; injection H as <- <-; simpl.
      * exists d'. by rewrite Hend.
      * split; [done|]. split; [done|]. exists true. by rewrite Hend.
Qed.

(** *** The statements of a script *)

Lemma execStatementsS_execListS (chunks : list string) (s : Session) :
  implicit.execStatements exec_stmt commitsImplicitly chunks s
  = execListS (List.filter keepStatement (map GoStrings.TrimSpace chunks)) s.
Proof.
  revert s. induction chunks as [|chunk chunks IH]; intros s; simpl; [done|].
  unfold keepStatement at 1.
  destruct (String.eqb (GoStrings.TrimSpace chunk) ""
            || GoStrings.HasPrefix (GoStrings.TrimSpace chunk) "--"); simpl; [done|].
  unfold implicit.bind. destruct (implicit.wrap _ _ s) as [s1 [[]|e]]; [apply IH|done].
Qed.

Lemma execListS_inv (stmts : list string) (s s' : Session) r d :
  execListS stmts s = (s', r) →
  tx (world s) = Some d → (ended s = true → committed (world s) = d) →
  ∃ d',
    ledger d' = ledger d ∧ tx (world s') = Some d'
    ∧ committed (world s') = (if ended s' then d' else committed (world s))
    ∧ match r with
      | Ok _ =>
          log (world s') = log (world s) ++ execEvents stmts
          ∧ runAll stmts (tables d) = Some (tables d')
          ∧ ended s' = ended s || existsb commitsImplicitly stmts
      | Err e =>
          ∃ done stmt e0 rest,
            e = ErrExecStatement stmt e0 ∧ stmts = done ++ stmt :: rest
            ∧ log (world s') = log (world s) ++ execEvents done ++ [Failed (OpExec stmt)]
            ∧ runAll done (tables d) = Some (tables d')
            ∧ ended s' = ended s || existsb commitsImplicitly done
                         || (commitsImplicitly stmt && isRefusal e0)
      end.
Proof.
  revert s d. induction stmts as [|stmt rest IH]; intros s d H Htx Hinv; simpl in H.
  - injection H as <- <-. exists d. split; [done|]. split; [done|]. split.
    + destruct (ended s) eqn:He; [by apply Hinv|done].
    + simpl. by rewrite app_nil_r, orb_false_r.
  - unfold implicit.bind, implicit.wrap in H.
    destruct (implicit.txExec _ _ _ s) as [s1 [[]|e]] eqn:Hexec;
      apply (txExecS_inv _ _ _ _ _ _ d) in Hexec; try done.
    + destruct Hexec as (d1 & Hrun & Htx1 & Hlog1 & Hend1 & Hc1).
      assert (ledger d1 = ledger d ∧ exec_stmt stmt (tables d) = Some (tables d1))
        as [Hled1 Ht1].
      { unfold migration.runStatement in Hrun.
        destruct (exec_stmt stmt (tables d)); [|done]. by injection Hrun as <-. }
      apply (IH _ d1) in H; [|done|by intros He; rewrite Hc1, He].
      destruct H as (d' & Hled & Htx' & Hc' & Hr). exists d'.
      split; [congruence|]. split; [done|]. split.
      { rewrite Hc'. destruct (ended s') eqn:He'; [done|]. rewrite Hc1.
        destruct (ended s1) eqn:He1; [|done]. exfalso.
        destruct r as [[]|e].
        - by destruct Hr as (_ & _ & Hend').
        - by destruct Hr as (? & ? & ? & ? & _ & _ & _ & _ & Hend'). }
      destruct r as [[]|e].
      * destruct Hr as (Hlog & Hrun' & Hend'). simpl. rewrite Ht1.
        split; [by rewrite Hlog, Hlog1, <- app_assoc|]. split; [done|].
        by rewrite Hend', Hend1, orb_assoc.
      * destruct Hr as (done & stmt' & e0 & rest' & -> & -> & Hlog & Hrun' & Hend').
        exists (stmt :: done), stmt', e0, rest'. simpl. rewrite Ht1.
        split; [done|]. split; [done|].
        split; [by rewrite Hlog, Hlog1, <- app_assoc|]. split; [done|].
        by rewrite Hend', Hend1, !orb_assoc.
    + injection H as <- <-.
      destruct Hexec as (Htx1 & Hlog1 & refused & Hwhy & Hend1 & Hc1).
      exists d. split; [done|]. split; [done|]. split; [done|].
      exists [], stmt, e, rest. simpl. split; [done|]. split; [done|].
      split; [done|]. split; [done|]. rewrite Hend1, orb_false_r.
      assert (refused = isRefusal e) as ->; [|done].
      destruct refused.
      * unfold migration.runStatement in Hwhy.
        destruct (exec_stmt stmt (tables d)); [done|]. by injection Hwhy as <-.
      * by subst e.
Qed.

(** *** One migration in its transaction *)

Lemma applyMigrationS_inTransactionS (m : Migration) :
  applyMigrationS m
  = inTransactionS (Up m) (OpInsert (Filename m) (Checksum m))
      (migration.insertRow (Filename m) (Checksum m)) ErrRecord.
Proof. reflexivity. Qed.

Lemma rollbackMigrationS_inTransactionS (m : Migration) :
  rollbackMigrationS m
  = inTransactionS (Down m) (OpDelete (Filename m))
      (migration.deleteRow (Filename m)) ErrRemoveRecord.
Proof. reflexivity. Qed.

Lemma existsb_none (l : list string) :
  (∀ stmt, stmt ∈ l → commitsImplicitly stmt = false) →
  existsb commitsImplicitly l = false.
Proof.
  induction l as [|x l IH]; intros H; simpl; [done|].
  rewrite (H x) by apply list_elem_of_here. simpl.
  apply IH. intros stmt Hin. by apply H, list_elem_of_further.
Qed.

Lemma inTransactionS_inv script op run wrapErr (s s' : Session) r :
  inTransactionS script op run wrapErr s = (s', r) →
  tx (world s) = None → ended s = false →
  (∀ d d', run d = Ok d' → tables d' = tables d) →
  (∀ e1 stmt e0, wrapErr e1 ≠ ErrExecStatement stmt e0) →
  tx (world s') = None ∧ ended s' = false
  ∧ match r with
    | Ok _ =>
        ∃ d1 d2,
          runAll (statementsOf script) (tables (committed (world s))) = Some (tables d1)
          ∧ ledger d1 = ledger (committed (world s)) ∧ run d1 = Ok d2
          ∧ committed (world s') = d2
          ∧ log (world s')
            = log (world s) ++ [Done OpBegin] ++ execEvents (statementsOf script)
                ++ [Done op; Done OpCommit]
    | Err e =>
        ∃ evs,
          TxOutcome script op wrapErr e evs
          ∧ log (world s') = log (world s) ++ evs
          ∧ ((∀ stmt, stmt ∈ statementsOf script → commitsImplicitly stmt = false) →
             committed (world s') = committed (world s))
          ∧ (∀ stmt e0, e = ErrExecStatement stmt e0 →
               ∃ done rest,
                 statementsOf script = done ++ stmt :: rest
                 ∧ evs = [Done OpBegin] ++ execEvents done
                         ++ [Failed (OpExec stmt); Done OpRollback]
                 ∧ ledger (committed (world s')) = ledger (committed (world s))
                 ∧ runAll (leftBehind commitsImplicitly done stmt e0)
                     (tables (committed (world s)))
                   = Some (tables (committed (world s'))))
    end.
Proof.
  intros H Htx Hend Hrun Hwrap. revert H.
  unfold inTransactionS, implicit.bind at 1, implicit.wrap at 1, implicit.onWorld at 1.
  destruct (Begin (world s)) as [w1 [[]|e]] eqn:Hbegin; apply Begin_inv in Hbegin;
    subst w1.
  2:{ intros [= <- <-]. simpl. split; [done|]. split; [done|].
      eexists. split; [constructor|]. split; [done|]. split; [done|].
      intros stmt e0 Habs. discriminate Habs. }
  unfold implicit.deferRollback, implicit.bind at 1.
  rewrite execStatementsS_execListS. fold (statementsOf script).
  destruct (execListS _ _) as [s2 r2] eqn:Hexec.
  apply (execListS_inv _ _ _ _ (committed (world s))) in Hexec; [|done|done].
  destruct Hexec as (d1 & Hled & Htx2 & Hc2 & Hr2). simpl in Hc2, Hr2.
  pose proof (Rollback_inv (world s2)) as Hrb. rewrite Htx2 in Hrb.
  destruct r2 as [[]|e2].
  2:{ destruct Hr2 as (done & stmt & e0 & rest & -> & Hst & Hlog & Hrun2 & Hend2).
      intros [= <- <-]. simpl. rewrite Hrb. simpl. split; [done|]. split; [done|].
      eexists. split; [by eapply StatementFailed|].
      split; [by rewrite Hlog, <- !app_assoc|]. split.
      - intros Hnone. rewrite Hc2, Hend2, Hend. simpl.
        rewrite existsb_none, Hnone; [done| |].
        + rewrite Hst. apply elem_of_app. right. apply list_elem_of_here.
        + intros x Hx. apply Hnone. rewrite Hst. apply elem_of_app. by left.
      - intros stmt' e0' [= <- <-]. exists done, rest. split; [done|]. split; [done|].
        rewrite Hc2. unfold leftBehind. rewrite Hend2, Hend. simpl.
        destruct (existsb commitsImplicitly done || commitsImplicitly stmt && isRefusal e0);
          simpl; done. }
  destruct Hr2 as (Hlog2 & Hrun2 & Hend2). rewrite Hend in Hend2. simpl in Hend2.
  unfold implicit.bind at 1, implicit.wrap at 1.
  destruct (implicit.txExec false op run s2) as [s3 [[]|e3]] eqn:Hop;
    apply (txExecS_inv _ _ _ _ _ _ d1) in Hop; try done;
    try (by intros He; rewrite Hc2, He).
  2:{ destruct Hop as (Htx3 & Hlog3 & refused & _ & Hend3 & Hc3).
      intros [= <- <-]. simpl.
      pose proof (Rollback_inv (world s3)) as Hrb3. rewrite Htx3 in Hrb3.
      rewrite Hrb3. simpl. split; [done|]. split; [done|].
      eexists. split; [by eapply LedgerFailed|].
      split; [by rewrite Hlog3, Hlog2, <- !app_assoc|]. split.
      - intros Hnone. rewrite Hc3, Hend3, Hend2, existsb_none by done. simpl.
        by rewrite Hc2, Hend2, existsb_none.
      - intros stmt e0 Habs. exfalso. by eapply Hwrap. }
  destruct Hop as (d2 & Hrun3 & Htx3 & Hlog3 & Hend3 & Hc3).
  unfold implicit.wrap, implicit.Commit.
  destruct (database.Commit (world s3)) as [w4 [[]|e4]] eqn:Hcommit;
    apply Commit_inv in Hcommit.
  - destruct Hcommit as (d & Hd & ->). rewrite Htx3 in Hd. injection Hd as <-.
    intros [= <- <-]. simpl. split; [done|]. split; [done|].
    exists d1, d2. split; [done|]. split; [done|]. split; [done|]. split; [done|].
    by rewrite Hlog3, Hlog2, <- !app_assoc.
  - destruct Hcommit as [(Hnone & _)|(d & Hd & ->)]; [congruence|].
    intros [= <- <-]. simpl. split; [done|]. split; [done|].
    eexists. split; [by eapply CommitFailed|].
    split; [by rewrite Hlog3, Hlog2, <- !app_assoc|]. split.
    + intros Hnone. rewrite Hc3, Hend3, Hend2, existsb_none by done. simpl.
      by rewrite Hc2, Hend2, existsb_none.
    + intros stmt e0 Habs. discriminate Habs.
Qed.

Lemma insertRow_tables filename checksum (d d' : Database Tables) :
  migration.insertRow filename checksum d = Ok d' → tables d' = tables d.
Proof. intros H. by apply insertRow_inv in H as (rows & _ & _ & ->). Qed.

Lemma deleteRow_tables filename (d d' : Database Tables) :
  migration.deleteRow filename d = Ok d' → tables d' = tables d.
Proof.
  unfold migration.deleteRow. destruct (ledger d); [|done]. by intros [= <-].
Qed.

Lemma applyMigrationS_Ok (m : Migration) (s s' : Session) :
  applyMigrationS m s = (s', Ok tt) →
  tx (world s) = None → ended s = false →
  tx (world s') = None ∧ ended s' = false
  ∧ (Filename m ∉ appliedOf (committed (world s)))
  ∧ (∃ rows t,
       ledger (committed (world s)) = Some rows
       ∧ runAll (statementsOf (Up m)) (tables (committed (world s))) = Some t
       ∧ committed (world s')
         = mkDatabase t (Some (rows ++ [mkRow (Filename m) (Checksum m)])))
  ∧ log (world s')
    = log (world s) ++ [Done OpBegin] ++ execEvents (statementsOf (Up m))
        ++ [Done (OpInsert (Filename m) (Checksum m)); Done OpCommit].
Proof.
  rewrite applyMigrationS_inTransactionS. intros H Htx Hend.
  apply inTransactionS_inv in H; [|done|done|apply insertRow_tables|done].
  destruct H as (Htx' & Hend' & d1 & d2 & Hrun & Hled & Hins & Hc & Hlog).
  apply insertRow_inv in Hins as (rows & Hrows & Hn & ->).
  split; [done|]. split; [done|]. split.
  { unfold appliedOf. by rewrite <- Hled, Hrows. }
  split; [|done]. exists rows, (tables d1). by rewrite <- Hled.
Qed.


(** *** A statement that fails in [Up] *)


(** *** The store of the first part is this engine when nothing commits
    implicitly *)

Section Transactional.

Hypothesis never : ∀ stmt, commitsImplicitly stmt = false.





End Transactional.

Lemma rollbackMigrationS_Ok (m : Migration) (s s' : Session) :
  rollbackMigrationS m s = (s', Ok tt) →
  tx (world s) = None → ended s = false →
  tx (world s') = None ∧ ended s' = false
  ∧ (∃ rows t,
       ledger (committed (world s)) = Some rows
       ∧ runAll (statementsOf (Down m)) (tables (committed (world s))) = Some t
       ∧ committed (world s')
         = mkDatabase t
             (Some (List.filter
                      (fun r => negb (String.eqb (row_filename r) (Filename m))) rows)))
  ∧ log (world s')
    = log (world s) ++ [Done OpBegin] ++ execEvents (statementsOf (Down m))
        ++ [Done (OpDelete (Filename m)); Done OpCommit].
Proof.
  rewrite rollbackMigrationS_inTransactionS. intros H Htx Hend.
  apply inTransactionS_inv in H; [|done|done|apply deleteRow_tables|done].
  destruct H as (Htx' & Hend' & d1 & d2 & Hrun & Hled & Hdel & Hc & Hlog).
  apply deleteRow_inv in Hdel as (rows & Hrows & ->).
  split; [done|]. split; [done|]. split; [|done].
  exists rows, (tables d1). by rewrite <- Hled.
Qed.

(** *** A transaction that fails *)

(** X1. A transaction none of whose statements makes the engine commit
    leaves no trace when it fails: whatever makes [applyMigration] or
    [rollbackMigration] fail (the begin, a statement, the write on the
    ledger, the commit), the committed database is the one before the call
    and no transaction is left open. *)
Theorem failed_transaction_leaves_no_trace (m : Migration) (s s' : Session) e :
  tx (world s) = None → ended s = false →
  (applyMigrationS m s = (s', Err e)
   ∧ ∀ stmt, stmt ∈ statementsOf (Up m) → commitsImplicitly stmt = false)
  ∨ (rollbackMigrationS m s = (s', Err e)
     ∧ ∀ stmt, stmt ∈ statementsOf (Down m) → commitsImplicitly stmt = false) →
  committed (world s') = committed (world s)
  ∧ tx (world s') = None ∧ ended s' = false.
Proof.
  intros Htx Hend [[H Hnone]|[H Hnone]].
  - rewrite applyMigrationS_inTransactionS in H.
    apply inTransactionS_inv in H; [|done|done|apply insertRow_tables|done].
    destruct H as (Htx' & Hend' & evs & _ & _ & Hc & _). auto.
  - rewrite rollbackMigrationS_inTransactionS in H.
    apply inTransactionS_inv in H; [|done|done|apply deleteRow_tables|done].
    destruct H as (Htx' & Hend' & evs & _ & _ & Hc & _). auto.
Qed.

(** *** Where the calls on the ledger fall *)

Lemma execEvents_quiet (stmts : list string) :
  Forall (fun e => isLedgerOnConnection e = false) (execEvents stmts).
Proof. induction stmts as [|stmt stmts IH]; simpl; by constructor. Qed.

Ltac quiet :=
  repeat first
    [ apply Forall_nil_2
    | apply execEvents_quiet
    | apply Forall_app_2
    | apply Forall_cons_2
    | done ].

Lemma inTransaction_quiet script op run wrapErr (w w' : World Tables) r :
  inTransaction exec_stmt script op run wrapErr w = (w', r) →
  isLedgerOnConnection (Done op) = false →
  ∃ evs, log w' = log w ++ evs
         ∧ Forall (fun e => isLedgerOnConnection e = false) evs.
Proof.
  intros H Hop. apply inTransaction_inv in H. destruct r as [[]|e].
  - destruct H as (d1 & d2 & fl & _ & _ & ->). simpl. eexists. split; [done|].
    quiet.
  - destruct H as (evs & Hout & _ & Hlog & _). exists evs. split; [done|].
    destruct Hout; quiet.
Qed.

Lemma applyAll_quiet (pending : list Migration) (w w' : World Tables) r :
  migration.applyAll exec_stmt pending w = (w', r) →
  ∃ evs, log w' = log w ++ evs
         ∧ Forall (fun e => isLedgerOnConnection e = false) evs.
Proof.
  revert w. induction pending as [|m rest IH]; intros w H.
  - injection H as <- <-. exists []. by rewrite app_nil_r.
  - cbn [migration.applyAll] in H. unfold bind at 1, wrap at 1 in H.
    destruct (migration.applyMigration exec_stmt m w) as [w1 r1] eqn:Hm.
    rewrite applyMigration_inTransaction in Hm.
    apply inTransaction_quiet in Hm as (evs1 & Hlog1 & Hq1); [|done].
    destruct r1 as [[]|te]; [|injection H as <- <-; by exists evs1].
    unfold bind at 1, print at 1 in H. apply IH in H as (evs & Hlog & Hq).
    exists (evs1 ++ Printed (OutApplied (Filename m)) :: evs). split.
    + rewrite Hlog. simpl. rewrite Hlog1, <- !app_assoc. done.
    + apply Forall_app. split; [done|]. by constructor.
Qed.

Lemma rollbackFrom_quiet (ms : MigrationSet) (toRollback : list string) (n : nat)
    (w w' : World Tables) r :
  migration.rollbackFrom exec_stmt ms toRollback n w = (w', r) →
  ∃ evs, log w' = log w ++ evs
         ∧ Forall (fun e => isLedgerOnConnection e = false) evs.
Proof.
  revert w. induction n as [|i IH]; intros w H.
  - injection H as <- <-. exists []. by rewrite app_nil_r.
  - cbn [migration.rollbackFrom] in H.
    destruct (toRollback !! i) as [filename|];
      [|injection H as <- <-; exists []; by rewrite app_nil_r].
    destruct (GetMigrationByFilename ms filename) as [m|];
      [|injection H as <- <-; exists []; by rewrite app_nil_r].
    destruct (String.eqb (Down m) "");
      [injection H as <- <-; exists []; by rewrite app_nil_r|].
    unfold bind at 1, wrap at 1 in H.
    destruct (migration.rollbackMigration exec_stmt m w) as [w1 r1] eqn:Hm.
    rewrite rollbackMigration_inTransaction in Hm.
    apply inTransaction_quiet in Hm as (evs1 & Hlog1 & Hq1); [|done].
    destruct r1 as [[]|te]; [|injection H as <- <-; by exists evs1].
    unfold bind at 1, print at 1 in H. apply IH in H as (evs & Hlog & Hq).
    exists (evs1 ++ Printed (OutRolledBack filename) :: evs). split.
    + rewrite Hlog. simpl. rewrite Hlog1, <- !app_assoc. done.
    + apply Forall_app. split; [done|]. by constructor.
Qed.

Lemma callsFirst_cons (e : Event) (evs : list Event) :
  opOf e ≠ Some OpBegin → connectionCallsFirst evs →
  connectionCallsFirst (e :: evs).
Proof.
  intros He (calls & rest & -> & Hc & Hr). exists (e :: calls), rest.
  split; [done|]. split; [by constructor|done].
Qed.

Lemma quiet_callsFirst (evs : list Event) :
  Forall (fun e => isLedgerOnConnection e = false) evs → connectionCallsFirst evs.
Proof. intros Hq. exists [], evs. split; [done|]. split; [constructor|done]. Qed.

Ltac callsFirst :=
  simpl; repeat (apply callsFirst_cons; [done|]); apply quiet_callsFirst; quiet.

Lemma Up_callsFirst directory dir (w w' : World Tables) r :
  log w = [] → migration.Up exec_stmt directory dir w = (w', r) →
  connectionCallsFirst (log w').
Proof.
  intros Hlog H. apply Up_inv in H as [(e & _ & _ & _ & ->)|(w0 & Hw0 & H)].
  { rewrite Hlog. callsFirst. }
  destruct H as [(e & _ & _ & ->)|(ms & _ & H)].
  { subst w0. simpl. rewrite Hlog. callsFirst. }
  destruct H as [(e & _ & _ & _ & ->)|(w1 & Hw1 & H)].
  { subst w0. simpl. rewrite Hlog. callsFirst. }
  destruct H as [(_ & _ & ->)|(_ & w2 & r2 & Hall & Hr)].
  { subst w1 w0. simpl. rewrite Hlog. callsFirst. }
  apply applyAll_quiet in Hall as (evs & Hlog2 & Hq).
  subst w1 w0. simpl in Hlog2. rewrite Hlog in Hlog2. simpl in Hlog2.
  destruct r2 as [[]|e2]; destruct Hr as [_ ->]; simpl; rewrite Hlog2; callsFirst.
Qed.

Lemma Down_callsFirst directory dir steps (w w' : World Tables) r :
  log w = [] → migration.Down exec_stmt directory dir steps w = (w', r) →
  connectionCallsFirst (log w').
Proof.
  intros Hlog. unfold migration.Down, bind at 1, wrap at 1.
  destruct (GetAppliedMigrations w) as [wa [applied|ea]] eqn:Hget;
    apply GetAppliedMigrations_inv in Hget.
  2:{ intros [= <- <-]. subst wa. simpl. rewrite Hlog. callsFirst. }
  destruct Hget as (rows & _ & _ & ->).
  destruct (length applied =? 0)%nat.
  { unfold print. intros [= <- <-]. simpl. rewrite Hlog. callsFirst. }
  unfold bind at 1, lift at 1.
  destruct (LoadMigrations directory dir) as [ms|el].
  2:{ intros [= <- <-]. simpl. rewrite Hlog. callsFirst. }
  unfold bind at 1, print at 1, bind at 1.
  destruct (migration.rollbackFrom _ _ _ _ _) as [w2 r2] eqn:Hloop.
  apply rollbackFrom_quiet in Hloop as (evs & Hlog2 & Hq).
  simpl in Hlog2. rewrite Hlog in Hlog2. simpl in Hlog2.
  destruct r2 as [[]|e2]; unfold print; intros [= <- <-]; simpl; rewrite Hlog2;
    callsFirst.
Qed.

Lemma Status_callsFirst directory dir (w w' : World Tables) r :
  log w = [] → migration.Status directory dir w = (w', r) →
  connectionCallsFirst (log w').
Proof.
  intros Hlog H. apply Status_inv in H as (_ & _ & H).
  destruct r as [[]|e].
  - destruct H as (ms & _ & _ & ->). rewrite Hlog. simpl.
    apply callsFirst_cons; [done|]. apply quiet_callsFirst.
    destruct ms as [|m ms]; [quiet|].
    apply Forall_cons_2; [done|].
    apply Forall_app_2; [|quiet]. unfold statusLines. apply Forall_forall.
    intros ev Hev. apply list_elem_of_fmap in Hev as (m' & -> & _). done.
  - destruct e; try done.
    + destruct H as [_ ->]. rewrite Hlog. callsFirst.
    + destruct H as [-> _]. rewrite Hlog. callsFirst.
Qed.

(** C5, as the code has it. In a run of [Up], [Down] or [Status] that
    starts with no transaction open, each write on the ledger
    ([recordMigrationInTx], [removeMigrationInTx]) and each statement of a
    script happens with a transaction open; [CreateMigrationsTable] and
    [GetAppliedMigrations] happen on the connection with no transaction
    open, and before the first [Begin] of the run. The write of a migration
    is sent on its transaction after the statements of its script and
    before the commit. When none of these statements makes the engine
    commit, the statements and the write are committed together or not at
    all: the committed database is the one with all of them, or the one
    before the call. *)
Theorem ledger_writes_inside_transaction directory dir steps (w w' : World Tables) r :
  tx w = None → log w = [] →
  migration.Up exec_stmt directory dir w = (w', r)
  ∨ migration.Down exec_stmt directory dir steps w = (w', r)
  ∨ migration.Status directory dir w = (w', r) →
  (∀ e open, (e, open) ∈ withOpen false (log w') →
     (isLedgerWrite e = true → open = true)
     ∧ (isScriptStatement e = true → open = true)
     ∧ (isLedgerOnConnection e = true → open = false))
  ∧ connectionCallsFirst (log w')
  ∧ (∀ m (s s' : Session) r',
       tx (world s) = None → ended s = false →
       applyMigrationS m s = (s', r') →
       (r' = Ok tt →
        log (world s')
        = log (world s) ++ [Done OpBegin] ++ execEvents (statementsOf (Up m))
            ++ [Done (OpInsert (Filename m) (Checksum m)); Done OpCommit])
       ∧ ((∀ stmt, stmt ∈ statementsOf (Up m) → commitsImplicitly stmt = false) →
          match r' with
          | Ok _ =>
              ∃ rows t,
                ledger (committed (world s)) = Some rows
                ∧ runAll (statementsOf (Up m)) (tables (committed (world s))) = Some t
                ∧ committed (world s')
                  = mkDatabase t (Some (rows ++ [mkRow (Filename m) (Checksum m)]))
          | Err _ => committed (world s') = committed (world s)
          end))
  ∧ (∀ m (s s' : Session) r',
       tx (world s) = None → ended s = false →
       rollbackMigrationS m s = (s', r') →
       (r' = Ok tt →
        log (world s')
        = log (world s) ++ [Done OpBegin] ++ execEvents (statementsOf (Down m))
            ++ [Done (OpDelete (Filename m)); Done OpCommit])
       ∧ ((∀ stmt, stmt ∈ statementsOf (Down m) → commitsImplicitly stmt = false) →
          match r' with
          | Ok _ =>
              ∃ rows t,
                ledger (committed (world s)) = Some rows
                ∧ runAll (statementsOf (Down m)) (tables (committed (world s))) = Some t
                ∧ committed (world s')
                  = mkDatabase t
                      (Some (List.filter
                               (fun r => negb (String.eqb (row_filename r) (Filename m)))
                               rows))
          | Err _ => committed (world s') = committed (world s)
          end)).
Proof.
  intros Htx Hlog H.
  assert (settled w) as Hw by (unfold settled; rewrite Htx, Hlog; by repeat split).
  assert (settled w') as (_ & _ & Hpl).
  { destruct H as [H|[H|H]];
      eauto using Up_settled, Down_settled, Status_settled. }
  split; [|split; [|split]].
  - intros e open Hin. rewrite Forall_forall in Hpl. apply (Hpl _ Hin).
  - destruct H as [H|[H|H]];
      eauto using Up_callsFirst, Down_callsFirst, Status_callsFirst.
  - intros m s s' r' Htxs Hend Hm. split.
    + intros ->. by apply applyMigrationS_Ok in Hm as (_ & _ & _ & _ & Hl).
    + intros Hnone. destruct r' as [[]|e].
      * by apply applyMigrationS_Ok in Hm as (_ & _ & _ & Hc & _).
      * rewrite applyMigrationS_inTransactionS in Hm.
        apply inTransactionS_inv in Hm; [|done|done|apply insertRow_tables|done].
        destruct Hm as (_ & _ & evs & _ & _ & Hc & _). auto.
  - intros m s s' r' Htxs Hend Hm. split.
    + intros ->. by apply rollbackMigrationS_Ok in Hm as (_ & _ & _ & Hl).
    + intros Hnone. destruct r' as [[]|e].
      * by apply rollbackMigrationS_Ok in Hm as (_ & _ & Hc & _).
      * rewrite rollbackMigrationS_inTransactionS in Hm.
        apply inTransactionS_inv in Hm; [|done|done|apply deleteRow_tables|done].
        destruct Hm as (_ & _ & evs & _ & _ & Hc & _). auto.
Qed.

End ImplicitProperties.

(** * Runs on the engine that commits implicitly *)

(** ** A statement that fails in [Up] *)



(** ** A transaction that fails *)

Lemma failed_transaction_witness :
  committed (implicit.world
               (fst (implicit.applyMigration journalExec createCommits halfInsert
                       (sessionWith []))))
  = mkDatabase [] (Some [])
  ∧ tx (implicit.world
          (fst (implicit.applyMigration journalExec createCommits halfInsert
                  (sessionWith [])))) = None
  ∧ implicit.ended
      (fst (implicit.applyMigration journalExec createCommits halfInsert
              (sessionWith []))) = false.
Proof.
  apply (failed_transaction_leaves_no_trace journalExec createCommits halfInsert
           (sessionWith [])
           (fst (implicit.applyMigration journalExec createCommits halfInsert
                   (sessionWith [])))
           (ErrExecStatement "FAIL on purpose" ErrStatement)).
  - reflexivity.
  - reflexivity.
  - left. split; [vm_compute; reflexivity|].
    assert (Forall (fun stmt => createCommits stmt = false)
              (statementsOf (Up halfInsert))) as Hall
      by (vm_compute; repeat constructor).
    intros stmt Hin. rewrite Forall_forall in Hall. by apply Hall.
Defined.

(** ** The calls on the ledger and the transactions *)

Lemma ledger_writes_witness :
  snd upUsersAndPosts = Ok tt
  ∧ (∀ e open, (e, open) ∈ withOpen false (log (fst upUsersAndPosts)) →
       (isLedgerWrite e = true → open = true)
       ∧ (isScriptStatement e = true → open = true)
       ∧ (isLedgerOnConnection e = true → open = false))
  ∧ connectionCallsFirst (log (fst upUsersAndPosts)).
Proof.
  split; [vm_compute; reflexivity|].
  destruct (ledger_writes_inside_transaction journalExec createCommits "migrations"
              usersAndPosts 0 emptyWorld (fst upUsersAndPosts) (snd upUsersAndPosts)
              eq_refl eq_refl) as (Hplaced & Hfirst & _).
  - left. apply surjective_pairing.
  - split; [exact Hplaced|exact Hfirst].
Defined.

(** [CreateMigrationsTable] and [GetAppliedMigrations] are calls on the
    ledger made with no transaction open; and on an engine that commits at
    [CREATE] the table of a migration that fails is committed without the
    row of the ledger. *)
Lemma ledger_calls_not_one_unit :
  ¬ (∀ e open, (e, open) ∈ withOpen false (log (fst upUsersAndPosts)) →
       isLedgerOp e = true → open = true)
  ∧ implicit.applyMigration journalExec createCommits halfPosts (sessionWith [])
    = (implicit.mkSession
         (mkWorld (mkDatabase ["CREATE TABLE posts (id INTEGER)"] (Some [])) None
            [ Done OpBegin;
              Done (OpExec "CREATE TABLE posts (id INTEGER)");
              Failed (OpExec "FAIL on purpose");
              Done OpRollback ] [])
         false,
       Err (ErrExecStatement "FAIL on purpose" ErrStatement)).
Proof.
  split; [|vm_compute; reflexivity].
  intros H.
  assert ((Done OpCreateMigrationsTable, false)
            ∈ withOpen false (log (fst upUsersAndPosts))) as Hin
    by (vm_compute; pick).
  specialize (H _ _ Hin eq_refl). discriminate H.
Qed.

(** ** An engine that never commits of its own *)

